(** * The cloud sync reporter of vet (package [reporter])

    A shallow embedding of the sync reporter: the session pool, the
    translation of a package into a [PublishPackageInsightRequest], the
    worker loop, and the shutdown protocol of [Finish].

    Conventions of the embedding.
    - A Go map is a [gmap]; the order in which [range] visits it is not
      fixed by the language, so [forEach] takes the visiting order as an
      argument, constrained to be a permutation of the entries.
    - A Go slice is a [slice]: either the nil slice or a list of elements.
    - A pointer to optional data is an [option]; [SafelyGetValue] unwraps
      it with the zero value of the type as default.
    - A Go [error] result is an [option error] ([None] is the nil error).
    - Effects (RPCs issued, log lines written, the WaitGroup counter, the
      work queue, the [done] channel) live in a [world] threaded by a small
      state monad.
    - Goroutines are interleaved by a labelled step relation. *)

From Stdlib Require Import ZArith Lia.
From stdpp Require Import base option list strings gmap fin_maps.

Open Scope Z_scope.
Open Scope string_scope.
Open Scope list_scope.

(** ** Go values *)

Module Go.

(** A slice knows whether it is nil: [[]T{}] is [mk_slice []], the zero
    value is [nil_slice]. *)
Inductive slice (A : Type) : Type :=
  | nil_slice
  | mk_slice (elems : list A).
Arguments nil_slice {A}.
Arguments mk_slice {A} elems.

Definition elems {A} (s : slice A) : list A :=
  match s with
  | nil_slice => []
  | mk_slice l => l
  end.

Definition is_nil {A} (s : slice A) : bool :=
  match s with
  | nil_slice => true
  | mk_slice _ => false
  end.

(** [append(s, x)]: the result is never nil. *)
Definition append {A} (s : slice A) (x : A) : slice A :=
  mk_slice (elems s ++ [x]).

(** Zero values, as [utils.SafelyGetValue] needs them. *)
Class Zero (A : Type) := zero : A.
#[global] Instance zero_string : Zero string := "".
#[global] Instance zero_Z : Zero Z := 0.
#[global] Instance zero_slice {A} : Zero (slice A) := nil_slice.

(** [utils.SafelyGetValue]: the pointee, or the zero value for nil. *)
Definition SafelyGetValue {A} `{Zero A} (p : option A) : A :=
  match p with
  | Some v => v
  | None => zero
  end.

(** [strings.HasPrefix(s, prefix)]. *)
Definition HasPrefix (s prefix : string) : bool := String.prefix prefix s.

(** Conversion to [int64]: two's complement on 64 bits. *)
Definition int64 (x : Z) : Z := (x + 2 ^ 63) mod 2 ^ 64 - 2 ^ 63.

(** The values a Go [int] can hold (at most 64 bits wide). *)
Definition int_range (x : Z) : Prop := - 2 ^ 63 <= x < 2 ^ 63.

End Go.
Export Go.

(** ** Errors *)

(** [SessionNotFound key] is [fmt.Errorf("session not found for key: %s", key)];
    [External msg] is an error of a collaborator (transport, URL parser);
    [Wrap msg e] is [fmt.Errorf(msg + ": %w", e)]. *)
Inductive error : Type :=
  | SessionNotFound (key : string)
  | External (msg : string)
  | Wrap (msg : string) (cause : error).

Fixpoint error_string (e : error) : string :=
  match e with
  | SessionNotFound key => "session not found for key: " +:+ key
  | External msg => msg
  | Wrap msg cause => msg +:+ ": " +:+ error_string cause
  end.

(** The innermost error of a chain of [%w] wrappings. *)
Fixpoint root_cause (e : error) : error :=
  match e with
  | Wrap _ cause => root_cause cause
  | _ => e
  end.

(** ** The session pool *)

(** The client handle is opaque: a connection identifier. *)
Definition ToolServiceClient := nat.

Record syncSession := mkSession {
  sessionId : string;
  toolServiceClient : ToolServiceClient;
}.

Module syncSessionPool.

(** The field [syncSessions]; the mutex has no content of its own. *)
Abbreviation t := (gmap string syncSession).

Definition addPrimarySession (sid : string) (client : ToolServiceClient)
    (s : t) : t :=
  <["*" := mkSession sid client]> s.

Definition addKeyedSession (key sid : string) (client : ToolServiceClient)
    (s : t) : t :=
  <[key := mkSession sid client]> s.

Definition getSession (s : t) (key : string) : error + syncSession :=
  match s !! "*" with
  | Some w => inr w
  | None =>
      match s !! key with
      | Some k => inr k
      | None => inl (SessionNotFound key)
      end
  end.

(** The writes a pool can receive. *)
Inductive write : Type :=
  | AddPrimary (sid : string) (client : ToolServiceClient)
  | AddKeyed (key sid : string) (client : ToolServiceClient).

Definition apply_write (s : t) (w : write) : t :=
  match w with
  | AddPrimary sid client => addPrimarySession sid client s
  | AddKeyed key sid client => addKeyedSession key sid client s
  end.

Definition apply_writes (s : t) (ws : list write) : t :=
  foldl apply_write s ws.

(** A write that leaves the wildcard entry alone. *)
Definition keeps_wildcard (w : write) : Prop :=
  match w with
  | AddPrimary _ _ => False
  | AddKeyed key _ _ => key <> "*"
  end.

(** A visiting order of [range s.syncSessions]. *)
Definition range_order (s : t) (order : list (string * syncSession)) : Prop :=
  order ≡ₚ map_to_list s.

End syncSessionPool.

(** ** The package model consumed by the reporter *)

(** [insightapi]: the enrichment data; every field is a pointer.  Only the
    fields the reporter reads are kept. *)
Module insightapi.

Module PackageVulnerability.
Record t := mk {
  Id : option string;
  Summary : option string;
}.
End PackageVulnerability.

Module PackageProjectInfo.
Record t := mk {
  Stars : option Z;
  Forks : option Z;
  Issues : option Z;
  Type_ : option string;
  Name : option string;
  Link : option string;
}.
End PackageProjectInfo.

(** [type License string] *)
Definition License := string.

Module PackageVersionInsight.
Record t := mk {
  Vulnerabilities : option (slice PackageVulnerability.t);
  Projects : option (slice PackageProjectInfo.t);
  Licenses : option (slice License);
}.
End PackageVersionInsight.

#[global] Instance zero_PackageVersionInsight : Zero PackageVersionInsight.t :=
  PackageVersionInsight.mk None None None.

End insightapi.

(** [models]: a package and the manifest it was read from.  The reporter
    dereferences [pkg.Manifest] unconditionally, so the manifest is a field,
    not an option. *)
Module models.

Module PackageManifest.
Record t := mk {
  Path : string;
  Ecosystem : string;
}.
End PackageManifest.

Module Package.
Record t := mk {
  Manifest : PackageManifest.t;
  Name : string;
  Version : string;
  Insights : option insightapi.PackageVersionInsight.t;
}.
End Package.

End models.

(** ** The wire messages *)

Module packagev1.

(** The protobuf enum [Ecosystem], by its number. *)
Definition Ecosystem := Z.

Inductive ProjectSourceType : Type :=
  | PROJECT_SOURCE_TYPE_UNSPECIFIED
  | PROJECT_SOURCE_TYPE_GITHUB
  | PROJECT_SOURCE_TYPE_GITLAB.

Module Package.
Record t := mk {
  Ecosystem : packagev1.Ecosystem;
  Name : string;
}.
End Package.

Module PackageVersion.
Record t := mk {
  Package : option Package.t;
  Version : string;
}.
End PackageVersion.

Module PackageManifest.
Record t := mk {
  Ecosystem : packagev1.Ecosystem;
  Namespace : option string;
  Name : string;
}.
End PackageManifest.

Module Project.
Record t := mk {
  Type_ : ProjectSourceType;
  Name : string;
  Url : string;
}.
End Project.

Module ProjectInsight_IssueStat.
Record t := mk {
  Total : Z;
}.
End ProjectInsight_IssueStat.

Module ProjectInsight.
Record t := mk {
  Project : option Project.t;
  Stars : option Z;
  Forks : option Z;
  Issues : option ProjectInsight_IssueStat.t;
}.
End ProjectInsight.

Module LicenseMeta.
Record t := mk {
  LicenseId : string;
  Name : string;
}.
End LicenseMeta.

Module LicenseMetaList.
Record t := mk {
  Licenses : slice LicenseMeta.t;
}.
End LicenseMetaList.

End packagev1.

Module vulnerabilityv1.

Inductive VulnerabilityIdentifierType : Type :=
  | VULNERABILITY_IDENTIFIER_TYPE_UNSPECIFIED
  | VULNERABILITY_IDENTIFIER_TYPE_CVE
  | VULNERABILITY_IDENTIFIER_TYPE_OSV.

Module VulnerabilityIdentifier.
Record t := mk {
  Type_ : VulnerabilityIdentifierType;
  Value : string;
}.
End VulnerabilityIdentifier.

Module Vulnerability.
Record t := mk {
  Id : option VulnerabilityIdentifier.t;
  Summary : string;
}.
End Vulnerability.

End vulnerabilityv1.

(** [packagev1.PackageVersionInsight] refers to both modules above.  A slice
    of pointers [[]*T] is filled with [&T{...}] only, so its elements are
    the pointees. *)
Module PackageVersionInsight.
Record t := mk {
  Dependencies : slice packagev1.PackageVersion.t;
  Vulnerabilities : slice vulnerabilityv1.Vulnerability.t;
  ProjectInsights : slice packagev1.ProjectInsight.t;
  Licenses : option packagev1.LicenseMetaList.t;
}.
End PackageVersionInsight.

Module controltowerv1.

Inductive ToolTrigger : Type :=
  | TOOL_TRIGGER_MANUAL.

Inductive CompleteToolSessionRequest_Status : Type :=
  | CompleteToolSessionRequest_STATUS_SUCCESS.

Module ToolSession.
Record t := mk {
  ToolSessionId : string;
}.
End ToolSession.

Module CreateToolSessionRequest.
Record t := mk {
  ToolName : string;
  ToolVersion : string;
  ProjectName : string;
  ProjectVersion : option string;
  ProjectSource : option packagev1.ProjectSourceType;
  Trigger : option ToolTrigger;
}.
End CreateToolSessionRequest.

Module PublishPackageInsightRequest.
Record t := mk {
  ToolSession : option ToolSession.t;
  Manifest : option packagev1.PackageManifest.t;
  PackageVersion : option packagev1.PackageVersion.t;
  PackageVersionInsight : option PackageVersionInsight.t;
}.
End PublishPackageInsightRequest.

Module CompleteToolSessionRequest.
Record t := mk {
  ToolSession : option ToolSession.t;
  Status : CompleteToolSessionRequest_Status;
}.
End CompleteToolSessionRequest.

End controltowerv1.

(** ** Collaborators outside the reporter *)

(** Methods of [models.Package] and [models.PackageManifest] that the
    reporter calls and whose bodies live in package [models]. *)
Class ModelsAPI := {
  GetControlTowerSpecEcosystem : models.PackageManifest.t -> packagev1.Ecosystem;
  GetDisplayPath : models.PackageManifest.t -> string;
  GetName : models.Package.t -> string;
  GetVersion : models.Package.t -> string;
  GetDependencies : models.Package.t -> error + slice models.Package.t;
}.

(** A call on the [ToolServiceClient] interface. *)
Inductive RPC : Type :=
  | CreateToolSession (client : ToolServiceClient)
      (req : controltowerv1.CreateToolSessionRequest.t)
  | PublishPackageInsight (client : ToolServiceClient)
      (req : controltowerv1.PublishPackageInsightRequest.t)
  | CompleteToolSession (client : ToolServiceClient)
      (req : controltowerv1.CompleteToolSessionRequest.t).

(** The remote service: what it answers to a call, given the calls it has
    received before.  [CreateToolSession] answers with the identifier read
    by [GetToolSession().GetToolSessionId()]; the other responses are
    discarded by the reporter, only their error is kept. *)
Class ToolService := {
  CreateToolSession_response :
    list RPC -> ToolServiceClient ->
    controltowerv1.CreateToolSessionRequest.t -> error + string;
  PublishPackageInsight_response :
    list RPC -> ToolServiceClient ->
    controltowerv1.PublishPackageInsightRequest.t -> option error;
  CompleteToolSession_response :
    list RPC -> ToolServiceClient ->
    controltowerv1.CompleteToolSessionRequest.t -> option error;
}.

(** The process environment and the transport used by [NewSyncReporter]:
    [url.Parse] followed by [Hostname()] and [Port()], [os.Getenv],
    [drygrpc.GrpcClient] and [controltowerv1grpc.NewToolServiceClient]. *)
Class Platform := {
  url_Parse : string -> error + (string * string);
  os_Getenv : string -> string;
  drygrpc_GrpcClient :
    string -> string -> string -> string -> list (string * string) ->
    error + nat;
  NewToolServiceClient : nat -> ToolServiceClient;
}.

(** ** Reporter state and effects *)

Inductive logLevel : Type := LevelDebug | LevelWarn | LevelError.

#[global] Instance logLevel_eq_dec : EqDecision logLevel.
Proof. solve_decision. Defined.

Record SyncReporterConfig := mkConfig {
  ControlTowerBaseUrl : string;
  ControlTowerToken : string;
  EnableMultiProjectSync : bool;
  ProjectName : string;
  ProjectVersion : string;
  TriggerEvent : string;
  GitRef : string;
  GitRefName : string;
  GitRefType : string;
  GitSha : string;
  WorkerCount : Z;
  ToolName : string;
  ToolVersion : string;
}.

Definition syncReporterDefaultWorkerCount : Z := 10.
Definition syncReporterMaxRetries : Z := 3.
Definition syncReporterToolName : string := "vet".

(** Capacity of [workQueue]: [make(chan *models.Package, 1000)]. *)
Definition workQueueCapacity : nat := 1000.

(** [struct syncReporter]: [workQueue] holds the buffered records, oldest
    first; [done] tells whether the channel has been closed; [wg] is the
    counter of the WaitGroup. *)
Record syncReporter := mkReporter {
  config : SyncReporterConfig;
  workQueue : list models.Package.t;
  done : bool;
  wg : Z;
  sessions : gmap string syncSession;
}.

(** The reporter together with what it has done to the outside: the calls
    issued to the remote service and the lines logged, oldest first. *)
Record world := mkWorld {
  self : syncReporter;
  rpcs : list RPC;
  logs : list (logLevel * string);
}.

(** State passing. *)
Definition M (A : Type) : Type := world -> A * world.

Definition ret {A} (a : A) : M A := fun w => (a, w).

Definition bind {A B} (m : M A) (k : A -> M B) : M B :=
  fun w => let (a, w') := m w in k a w'.

Declare Scope go_scope.
Delimit Scope go_scope with go.
Notation "x <- m ;; k" := (bind m (fun x => k))
  (at level 100, m at next level, right associativity) : go_scope.
Notation "m ;;; k" := (bind m (fun _ => k))
  (at level 100, right associativity) : go_scope.
Open Scope go_scope.

Definition get_self : M syncReporter := fun w => (self w, w).

Definition modify_self (f : syncReporter -> syncReporter) : M unit :=
  fun w => (tt, mkWorld (f (self w)) (rpcs w) (logs w)).

Definition logf (lvl : logLevel) (msg : string) : M unit :=
  fun w => (tt, mkWorld (self w) (rpcs w) (logs w ++ [(lvl, msg)])).

(** Issue a call: it is appended to the trace, and the service answers
    from the trace before the call. *)
Definition call {A} (c : RPC) (response : list RPC -> A) : M A :=
  fun w => (response (rpcs w), mkWorld (self w) (rpcs w ++ [c]) (logs w)).

(** [defer d] at the top of a function body: [d] runs when the body
    returns, and the body's result is the function's. *)
Definition defer {A} (d : M unit) (body : M A) : M A :=
  a <- body ;; d ;;; ret a.

Definition set_wg (n : Z) (r : syncReporter) : syncReporter :=
  mkReporter (config r) (workQueue r) (done r) n (sessions r).

Definition set_workQueue (q : list models.Package.t) (r : syncReporter)
    : syncReporter :=
  mkReporter (config r) q (done r) (wg r) (sessions r).

Definition set_done (b : bool) (r : syncReporter) : syncReporter :=
  mkReporter (config r) (workQueue r) b (wg r) (sessions r).

(** [s.wg.Add(delta)] and [s.wg.Done()].  Go panics when the counter would
    become negative; by [run_pending] no run of a fresh reporter gets
    there. *)
Definition wg_Add (delta : Z) : M unit :=
  modify_self (fun r => set_wg (wg r + delta) r).

Definition wg_Done : M unit := wg_Add (-1).

(** ** Translating and publishing one package *)

Section SyncPackage.
Context `{!ModelsAPI} `{!ToolService}.

Import controltowerv1.

(** Assignment through [req.PackageVersionInsight]; the pointer is set by
    the composite literal that creates [req]. *)
Definition update_insight (f : PackageVersionInsight.t -> PackageVersionInsight.t)
    (req : PublishPackageInsightRequest.t) : PublishPackageInsightRequest.t :=
  PublishPackageInsightRequest.mk
    (PublishPackageInsightRequest.ToolSession req)
    (PublishPackageInsightRequest.Manifest req)
    (PublishPackageInsightRequest.PackageVersion req)
    (f <$> PublishPackageInsightRequest.PackageVersionInsight req).

(** The composite literal that starts [req]. *)
Definition newRequest (session : syncSession) (pkg : models.Package.t)
    : PublishPackageInsightRequest.t :=
  let manifest := models.Package.Manifest pkg in
  PublishPackageInsightRequest.mk
    (Some (ToolSession.mk (sessionId session)))
    (Some (packagev1.PackageManifest.mk
             (GetControlTowerSpecEcosystem manifest)
             (Some (models.PackageManifest.Path manifest))
             (GetDisplayPath manifest)))
    (Some (packagev1.PackageVersion.mk
             (Some (packagev1.Package.mk
                      (GetControlTowerSpecEcosystem manifest)
                      (models.Package.Name pkg)))
             (models.Package.Version pkg)))
    (Some (PackageVersionInsight.mk
             (mk_slice [])
             (mk_slice [])
             (mk_slice [])
             (Some (packagev1.LicenseMetaList.mk (mk_slice []))))).

(** Body of [for _, child := range dependencies]. *)
Definition addDependency (req : PublishPackageInsightRequest.t)
    (child : models.Package.t) : PublishPackageInsightRequest.t :=
  update_insight (fun i =>
    PackageVersionInsight.mk
      (append (PackageVersionInsight.Dependencies i)
         (packagev1.PackageVersion.mk
            (Some (packagev1.Package.mk
                     (GetControlTowerSpecEcosystem (models.Package.Manifest child))
                     (GetName child)))
            (GetVersion child)))
      (PackageVersionInsight.Vulnerabilities i)
      (PackageVersionInsight.ProjectInsights i)
      (PackageVersionInsight.Licenses i)) req.

(** The vulnerability built in the body of [for _, v := range vulnerabilities]:
    [Type] keeps its zero value unless one of the two prefixes matches. *)
Definition newVulnerability (v : insightapi.PackageVulnerability.t)
    : vulnerabilityv1.Vulnerability.t :=
  let vId := SafelyGetValue (insightapi.PackageVulnerability.Id v) in
  let ty :=
    if HasPrefix vId "CVE-" then
      vulnerabilityv1.VULNERABILITY_IDENTIFIER_TYPE_CVE
    else if HasPrefix vId "OSV-" then
      vulnerabilityv1.VULNERABILITY_IDENTIFIER_TYPE_OSV
    else vulnerabilityv1.VULNERABILITY_IDENTIFIER_TYPE_UNSPECIFIED in
  vulnerabilityv1.Vulnerability.mk
    (Some (vulnerabilityv1.VulnerabilityIdentifier.mk ty vId))
    (SafelyGetValue (insightapi.PackageVulnerability.Summary v)).

Definition addVulnerability (req : PublishPackageInsightRequest.t)
    (v : insightapi.PackageVulnerability.t) : PublishPackageInsightRequest.t :=
  update_insight (fun i =>
    PackageVersionInsight.mk
      (PackageVersionInsight.Dependencies i)
      (append (PackageVersionInsight.Vulnerabilities i) (newVulnerability v))
      (PackageVersionInsight.ProjectInsights i)
      (PackageVersionInsight.Licenses i)) req.

(** The [switch] on the project type. *)
Definition projectSourceType (ty : string) : packagev1.ProjectSourceType :=
  if decide (ty = "GITHUB") then packagev1.PROJECT_SOURCE_TYPE_GITHUB
  else if decide (ty = "GITLAB") then packagev1.PROJECT_SOURCE_TYPE_GITLAB
  else packagev1.PROJECT_SOURCE_TYPE_UNSPECIFIED.

(** The entry built in the body of [for _, p := range project]. *)
Definition newProjectInsight (p : insightapi.PackageProjectInfo.t)
    : packagev1.ProjectInsight.t :=
  let stars := int64 (SafelyGetValue (insightapi.PackageProjectInfo.Stars p)) in
  let forks := int64 (SafelyGetValue (insightapi.PackageProjectInfo.Forks p)) in
  let issues := int64 (SafelyGetValue (insightapi.PackageProjectInfo.Issues p)) in
  let vt := projectSourceType (SafelyGetValue (insightapi.PackageProjectInfo.Type_ p)) in
  packagev1.ProjectInsight.mk
    (Some (packagev1.Project.mk vt
             (SafelyGetValue (insightapi.PackageProjectInfo.Name p))
             (SafelyGetValue (insightapi.PackageProjectInfo.Link p))))
    (Some stars)
    (Some forks)
    (Some (packagev1.ProjectInsight_IssueStat.mk issues)).

Definition addProjectInsight (req : PublishPackageInsightRequest.t)
    (p : insightapi.PackageProjectInfo.t) : PublishPackageInsightRequest.t :=
  update_insight (fun i =>
    PackageVersionInsight.mk
      (PackageVersionInsight.Dependencies i)
      (PackageVersionInsight.Vulnerabilities i)
      (append (PackageVersionInsight.ProjectInsights i) (newProjectInsight p))
      (PackageVersionInsight.Licenses i)) req.

(** Body of [for _, license := range licenses]; the assignment goes through
    the [Licenses] pointer as well. *)
Definition addLicense (req : PublishPackageInsightRequest.t)
    (license : insightapi.License) : PublishPackageInsightRequest.t :=
  update_insight (fun i =>
    PackageVersionInsight.mk
      (PackageVersionInsight.Dependencies i)
      (PackageVersionInsight.Vulnerabilities i)
      (PackageVersionInsight.ProjectInsights i)
      ((fun l => packagev1.LicenseMetaList.mk
                   (append (packagev1.LicenseMetaList.Licenses l)
                      (packagev1.LicenseMeta.mk license license)))
         <$> PackageVersionInsight.Licenses i)) req.

(** A [for _, x := range s] loop that updates [req]. *)
Definition range_update {A R} (body : R -> A -> R) (s : slice A) (req : R) : R :=
  foldl body req (elems s).

(** The ["%s/%s/%s"] that names a package in messages. *)
Definition package_label (pkg : models.Package.t) : string :=
  models.PackageManifest.Ecosystem (models.Package.Manifest pkg)
    +:+ "/" +:+ GetName pkg +:+ "/" +:+ GetVersion pkg.

Definition syncPackage (pkg : models.Package.t) : M (option error) :=
  defer wg_Done (
    s <- get_self ;;
    match syncSessionPool.getSession (sessions s)
            (models.PackageManifest.Path (models.Package.Manifest pkg)) with
    | inl err =>
        ret (Some (Wrap ("failed to get session for package: "
                           +:+ package_label pkg) err))
    | inr session =>
        let req := newRequest session pkg in
        req <- match GetDependencies pkg with
               | inl err =>
                   logf LevelWarn ("failed to get dependencies for package: "
                                     +:+ package_label pkg +:+ ": "
                                     +:+ error_string err) ;;;
                   ret req
               | inr dependencies =>
                   ret (range_update addDependency dependencies req)
               end ;;
        let insights := SafelyGetValue (models.Package.Insights pkg) in
        let vulnerabilities :=
          SafelyGetValue (insightapi.PackageVersionInsight.Vulnerabilities insights) in
        let req := range_update addVulnerability vulnerabilities req in
        let project :=
          SafelyGetValue (insightapi.PackageVersionInsight.Projects insights) in
        let req := range_update addProjectInsight project req in
        let licenses :=
          SafelyGetValue (insightapi.PackageVersionInsight.Licenses insights) in
        let req := range_update addLicense licenses req in
        err <- call (PublishPackageInsight (toolServiceClient session) req)
                 (fun before => PublishPackageInsight_response before
                                  (toolServiceClient session) req) ;;
        match err with
        | Some e => ret (Some (Wrap "failed to publish package insight" e))
        | None => ret None
        end
    end).

End SyncPackage.

(** How a call that can wait ends: it returns, it is still blocked (in the
    world given), or it panics. *)
Inductive outcome (A : Type) : Type :=
  | Returns (a : A) (w : world)
  | Blocks (w : world)
  | Panics (msg : string).
Arguments Returns {A} a w.
Arguments Blocks {A} w.
Arguments Panics {A} msg.

(** ** Visiting the pool, the reporter's methods *)

Section Reporter.
Context `{!ModelsAPI} `{!ToolService}.

Import controltowerv1.

(** [syncSessionPool.forEach]: [order] is the order in which [range] yields
    the entries.  The first error returned by [f] is returned at once. *)
Fixpoint forEach (order : list (string * syncSession))
    (f : string -> syncSession -> M (option error)) : M (option error) :=
  match order with
  | [] => ret None
  | (key, session) :: rest =>
      err <- f key session ;;
      match err with
      | Some e => ret (Some e)
      | None => forEach rest f
      end
  end.

Definition completeRequest (session : syncSession)
    : CompleteToolSessionRequest.t :=
  CompleteToolSessionRequest.mk
    (Some (ToolSession.mk (sessionId session)))
    CompleteToolSessionRequest_STATUS_SUCCESS.

(** The visitor that [Finish] passes to [forEach]. *)
Definition completeSession (_ : string) (session : syncSession)
    : M (option error) :=
  logf LevelDebug ("Report Sync: Completing tool session: "
                     +:+ sessionId session) ;;;
  call (CompleteToolSession (toolServiceClient session) (completeRequest session))
    (fun before => CompleteToolSession_response before
                     (toolServiceClient session) (completeRequest session)).

(** The call the visitor issues for an entry of the pool. *)
Definition completeCall (entry : string * syncSession) : RPC :=
  CompleteToolSession (toolServiceClient (snd entry)) (completeRequest (snd entry)).

(** [close(s.done)]: closing a channel that is already closed panics;
    [None] is that panic. *)
Definition close_done (w : world) : option world :=
  if done (self w) then None
  else Some (snd (modify_self (set_done true) w)).

(** [Finish]: [s.wg.Wait()] returns only when the counter is zero; then
    [close(s.done)], then the completion calls. *)
Definition Finish (order : list (string * syncSession)) (w : world)
    : outcome (option error) :=
  if decide (wg (self w) = 0) then
    match close_done w with
    | None => Panics "close of closed channel"
    | Some w1 =>
        let (res, w2) := forEach order completeSession w1 in
        Returns res w2
    end
  else Blocks w.

(** [s.workQueue <- pkg]: possible only below capacity; [None] is a
    sender still blocked. *)
Definition workQueue_send (pkg : models.Package.t) (w : world)
    : option (unit * world) :=
  if decide (length (workQueue (self w)) < workQueueCapacity)%nat then
    Some (modify_self (fun r => set_workQueue (workQueue r ++ [pkg]) r) w)
  else None.

(** [queuePackage]: when the send cannot complete, the caller is blocked
    in the world that [s.wg.Add(1)] has left. *)
Definition queuePackage (pkg : models.Package.t) (w : world)
    : outcome unit :=
  let (_, w1) := wg_Add 1 w in
  match workQueue_send pkg w1 with
  | Some (_, w2) => Returns tt w2
  | None => Blocks w1
  end.

Definition AddAnalyzerEvent {AnalyzerEvent : Type} (event : option AnalyzerEvent)
    : M unit :=
  ret tt.

Definition AddPolicyEvent {PolicyEvent : Type} (event : option PolicyEvent)
    : M unit :=
  ret tt.

(** One turn of the worker's loop after a record was received. *)
Definition workerIteration (pkg : models.Package.t) : M unit :=
  err <- syncPackage pkg ;;
  match err with
  | Some e => logf LevelError ("failed to sync package: " +:+ error_string e)
  | None => ret tt
  end.

(** What a [select] of the worker received. *)
Inductive selected : Type :=
  | RecvWork (pkg : models.Package.t)
  | RecvDone.

Inductive workerStatus : Type :=
  | Looping
  | Returned.

(** [syncReportWorker], run on the successive outcomes of its [select];
    [Looping] is a worker back at the [select]. *)
Fixpoint syncReportWorker (received : list selected) : M workerStatus :=
  match received with
  | [] => ret Looping
  | RecvWork pkg :: rest => workerIteration pkg ;;; syncReportWorker rest
  | RecvDone :: _ => ret Returned
  end.

(** The records a worker has passed to [syncPackage]: those received before
    the first [RecvDone]. *)
Fixpoint processed (received : list selected) : list models.Package.t :=
  match received with
  | RecvWork pkg :: rest => pkg :: processed rest
  | _ => []
  end.

(** The errors [syncPackage] returned to the worker, oldest first. *)
Fixpoint failures (received : list selected) (w : world) : list error :=
  match received with
  | RecvWork pkg :: rest =>
      match fst (syncPackage pkg w) with
      | Some e => [e]
      | None => []
      end ++ failures rest (snd (workerIteration pkg w))
  | _ => []
  end.

(** The lines logged at error level. *)
Definition error_lines (lines : list (logLevel * string))
    : list (logLevel * string) :=
  filter (fun line => fst line = LevelError) lines.

(** The number of goroutines [startWorkers] starts. *)
Definition workerCount (cfg : SyncReporterConfig) : nat :=
  let count := WorkerCount cfg in
  let count := if decide (count = 0) then syncReporterDefaultWorkerCount else count in
  Z.to_nat count.

End Reporter.

(** ** The running system *)

(** A worker goroutine: at the [select]; in [syncPackage] with the record
    it received, before the session lookup; in [syncPackage], inside the
    publish call, whose answer from the service is [response]; back from
    [syncPackage], which returned [result], before the error is logged; or
    returned. *)
Inductive worker : Type :=
  | AtSelect
  | Syncing (pkg : models.Package.t)
  | Publishing (pkg : models.Package.t) (response : option error)
  | Logging (pkg : models.Package.t) (result : option error)
  | Exited.

(** The caller of [Finish]: not yet past [s.wg.Wait()], past it, past
    [close(s.done)], returned. *)
Inductive finisher : Type :=
  | NotDrained
  | Drained
  | Closed
  | Finished (result : option error).

(** [sending] holds the records of the [queuePackage] calls that are
    between [s.wg.Add(1)] and the completed send. *)
Record system := mkSystem {
  the_world : world;
  workers : list worker;
  sending : list models.Package.t;
  finish : finisher;
}.

Section Construction.
Context `{!ModelsAPI} `{!ToolService} `{!Platform}.

Import controltowerv1.

(** The end of [NewSyncReporter]: the reporter is built around the pool
    and the workers are started. *)
Definition startReporter (cfg : SyncReporterConfig)
    (pool : gmap string syncSession) (issued : list RPC)
    (logged : list (logLevel * string)) : system :=
  mkSystem
    (mkWorld (mkReporter cfg [] false 0 pool) issued logged)
    (replicate (workerCount cfg) AtSelect)
    []
    NotDrained.

Definition NewSyncReporter (cfg : SyncReporterConfig) : error + system :=
  match url_Parse (ControlTowerBaseUrl cfg) with
  | inl err => inl (Wrap "failed to parse ControlTower base URL" err)
  | inr (host, port) =>
      let port := if decide (port = "") then "443" else port in
      let logged :=
        [(LevelDebug, "ControlTower host: " +:+ host +:+ ", port: " +:+ port)] in
      let vetTenantId := os_Getenv "VET_CONTROL_TOWER_TENANT_ID" in
      let vetTenantMockUser := os_Getenv "VET_CONTROL_TOWER_MOCK_USER" in
      let headers :=
        [("x-tenant-id", vetTenantId); ("x-mock-user", vetTenantMockUser)] in
      match drygrpc_GrpcClient "vet-sync" host port
              (ControlTowerToken cfg) headers with
      | inl err => inl (Wrap "failed to create gRPC client" err)
      | inr client =>
          let pool : gmap string syncSession := ∅ in
          let trigger := TOOL_TRIGGER_MANUAL in
          let source := packagev1.PROJECT_SOURCE_TYPE_UNSPECIFIED in
          if negb (EnableMultiProjectSync cfg) then
            let logged := logged ++
              [(LevelDebug,
                "Report Sync: Creating tool session for project: "
                  +:+ ProjectName cfg +:+ ", version: "
                  +:+ ProjectVersion cfg)] in
            let toolServiceClient := NewToolServiceClient client in
            let req :=
              CreateToolSessionRequest.mk (ToolName cfg) (ToolVersion cfg)
                (ProjectName cfg) (Some (ProjectVersion cfg))
                (Some source) (Some trigger) in
            match CreateToolSession_response [] toolServiceClient req with
            | inl err => inl (Wrap "failed to create tool session" err)
            | inr toolSessionId =>
                let logged := logged ++
                  [(LevelDebug,
                    "Report Sync: Tool data upload session ID: "
                      +:+ toolSessionId)] in
                inr (startReporter cfg
                       (syncSessionPool.addPrimarySession toolSessionId
                          toolServiceClient pool)
                       [CreateToolSession toolServiceClient req] logged)
            end
          else
            inr (startReporter cfg pool [] logged)
      end
  end.

End Construction.

(** ** The request a package is translated into *)

Section Translated.
Context `{!ModelsAPI}.

(** The dependencies [syncPackage] ranges over: none when
    [GetDependencies] fails. *)
Definition dependenciesOf (pkg : models.Package.t) : list models.Package.t :=
  match GetDependencies pkg with
  | inl _ => []
  | inr dependencies => elems dependencies
  end.

(** The elements the three enrichment loops range over: none when the
    pointer to the insights, or the pointer to the list, is nil. *)
Definition vulnerabilitiesOf (pkg : models.Package.t)
    : list insightapi.PackageVulnerability.t :=
  elems (SafelyGetValue
           (insightapi.PackageVersionInsight.Vulnerabilities
              (SafelyGetValue (models.Package.Insights pkg)))).

Definition projectsOf (pkg : models.Package.t)
    : list insightapi.PackageProjectInfo.t :=
  elems (SafelyGetValue
           (insightapi.PackageVersionInsight.Projects
              (SafelyGetValue (models.Package.Insights pkg)))).

Definition licensesOf (pkg : models.Package.t) : list insightapi.License :=
  elems (SafelyGetValue
           (insightapi.PackageVersionInsight.Licenses
              (SafelyGetValue (models.Package.Insights pkg)))).

(** The value of [req] when [syncPackage] reaches the publish call. *)
Definition requestOf (session : syncSession) (pkg : models.Package.t)
    : controltowerv1.PublishPackageInsightRequest.t :=
  let insights := SafelyGetValue (models.Package.Insights pkg) in
  range_update addLicense
    (SafelyGetValue (insightapi.PackageVersionInsight.Licenses insights))
    (range_update addProjectInsight
       (SafelyGetValue (insightapi.PackageVersionInsight.Projects insights))
       (range_update addVulnerability
          (SafelyGetValue (insightapi.PackageVersionInsight.Vulnerabilities insights))
          (foldl addDependency (newRequest session pkg) (dependenciesOf pkg)))).

(** The entry appended for one child of the dependency list. *)
Definition newDependency (child : models.Package.t) : packagev1.PackageVersion.t :=
  packagev1.PackageVersion.mk
    (Some (packagev1.Package.mk
             (GetControlTowerSpecEcosystem (models.Package.Manifest child))
             (GetName child)))
    (GetVersion child).

Definition newLicenseMeta (license : insightapi.License) : packagev1.LicenseMeta.t :=
  packagev1.LicenseMeta.mk license license.

(** The lists of a request, read through its pointers ([None] when a
    pointer on the way is nil). *)
Definition insightOf (req : controltowerv1.PublishPackageInsightRequest.t)
    : option PackageVersionInsight.t :=
  controltowerv1.PublishPackageInsightRequest.PackageVersionInsight req.

Definition dependencyList (req : controltowerv1.PublishPackageInsightRequest.t)
    : option (slice packagev1.PackageVersion.t) :=
  PackageVersionInsight.Dependencies <$> insightOf req.

Definition vulnerabilityList (req : controltowerv1.PublishPackageInsightRequest.t)
    : option (slice vulnerabilityv1.Vulnerability.t) :=
  PackageVersionInsight.Vulnerabilities <$> insightOf req.

Definition projectInsightList (req : controltowerv1.PublishPackageInsightRequest.t)
    : option (slice packagev1.ProjectInsight.t) :=
  PackageVersionInsight.ProjectInsights <$> insightOf req.

Definition licenseList (req : controltowerv1.PublishPackageInsightRequest.t)
    : option (slice packagev1.LicenseMeta.t) :=
  match insightOf req with
  | Some i => packagev1.LicenseMetaList.Licenses <$> PackageVersionInsight.Licenses i
  | None => None
  end.

(** The session the pool gives for the manifest path of [pkg]. *)
Definition routed (w : world) (pkg : models.Package.t) (session : syncSession)
    : Prop :=
  syncSessionPool.getSession (sessions (self w))
    (models.PackageManifest.Path (models.Package.Manifest pkg)) = inr session.

(** Between [w] and [w'] exactly one call was issued: the publication of
    [req] through [client]. *)
Definition published (w w' : world) (client : ToolServiceClient)
    (req : controltowerv1.PublishPackageInsightRequest.t) : Prop :=
  rpcs w' = rpcs w ++ [PublishPackageInsight client req].



(** A count of the request against the optional count of the project: zero
    for a nil pointer, else the value pointed to, a Go [int]. *)
Definition carried (source : option Z) (count : Z) : Prop :=
  match source with
  | None => count = 0
  | Some n => int_range n -> count = n
  end.

(** A request whose four lists are allocated and hold the given entries. *)
Definition allocated (req : controltowerv1.PublishPackageInsightRequest.t)
    (d : list packagev1.PackageVersion.t)
    (v : list vulnerabilityv1.Vulnerability.t)
    (p : list packagev1.ProjectInsight.t)
    (l : list packagev1.LicenseMeta.t) : Prop :=
  insightOf req =
    Some (PackageVersionInsight.mk (mk_slice d) (mk_slice v) (mk_slice p)
            (Some (packagev1.LicenseMetaList.mk (mk_slice l)))).

End Translated.

(** ** Interleaving of the goroutines *)

Section Steps.
Context `{!ModelsAPI} `{!ToolService}.

(** *** The phases of a worker's turn *)

(** Between two of these phases other goroutines can run. *)

(** [syncPackage] from the session found to the publish call: the
    request is built, the dependency failure logged and the call issued.
    The value is the answer of the service, which the worker gets when the
    call returns. *)
Definition publishPhase (session : syncSession) (pkg : models.Package.t)
    : M (option error) :=
  match GetDependencies pkg with
  | inl err =>
      logf LevelWarn ("failed to get dependencies for package: "
                        +:+ package_label pkg +:+ ": " +:+ error_string err)
  | inr _ => ret tt
  end ;;;
  call (PublishPackageInsight (toolServiceClient session) (requestOf session pkg))
    (fun before => PublishPackageInsight_response before
                     (toolServiceClient session) (requestOf session pkg)).

(** What [syncPackage] returns when the lookup fails, and what it returns
    from the answer of the service. *)
Definition lookupFailure (pkg : models.Package.t) (err : error) : error :=
  Wrap ("failed to get session for package: " +:+ package_label pkg) err.

Definition publishResult (response : option error) : option error :=
  match response with
  | Some e => Some (Wrap "failed to publish package insight" e)
  | None => None
  end.

(** The worker's [if err != nil { logger.Errorf(...) }]. *)
Definition logResult (result : option error) : M unit :=
  match result with
  | Some e => logf LevelError ("failed to sync package: " +:+ error_string e)
  | None => ret tt
  end.

(** *** Steps *)

(** What one step of the system does. *)
Inductive label : Type :=
  | LAdd (pkg : models.Package.t)
  | LSend (pkg : models.Package.t)
  | LRecv (i : nat) (pkg : models.Package.t)
  | LCall (i : nat) (pkg : models.Package.t)
  | LDone (i : nat) (pkg : models.Package.t)
  | LResolve (i : nat) (pkg : models.Package.t)
  | LExit (i : nat)
  | LWait
  | LClose
  | LComplete (result : option error).

Inductive step : system -> label -> system -> Prop :=
  (** [queuePackage]: [s.wg.Add(1)] *)
  | step_add st pkg :
      step st (LAdd pkg)
        (mkSystem (snd (wg_Add 1 (the_world st))) (workers st)
           (pkg :: sending st) (finish st))
  (** [queuePackage]: [s.workQueue <- pkg] goes through *)
  | step_send st pkg before after w' :
      sending st = (before ++ pkg :: after) ->
      workQueue_send pkg (the_world st) = Some (tt, w') ->
      step st (LSend pkg)
        (mkSystem w' (workers st) (before ++ after) (finish st))
  (** worker [i]: [case pkg := <-s.workQueue] *)
  | step_recv st i pkg rest :
      workers st !! i = Some AtSelect ->
      workQueue (self (the_world st)) = pkg :: rest ->
      step st (LRecv i pkg)
        (mkSystem (snd (modify_self (set_workQueue rest) (the_world st)))
           (<[i := Syncing pkg]> (workers st)) (sending st) (finish st))
  (** worker [i], in [syncPackage]: a session is found and the publish
      call is issued *)
  | step_call st i pkg session :
      workers st !! i = Some (Syncing pkg) ->
      syncSessionPool.getSession (sessions (self (the_world st)))
        (models.PackageManifest.Path (models.Package.Manifest pkg))
      = inr session ->
      step st (LCall i pkg)
        (mkSystem (snd (publishPhase session pkg (the_world st)))
           (<[i := Publishing pkg (fst (publishPhase session pkg (the_world st)))]>
              (workers st))
           (sending st) (finish st))
  (** worker [i], in [syncPackage]: no session is found; the deferred
      [s.wg.Done()] runs and [syncPackage] returns the error *)
  | step_done_lookup st i pkg err :
      workers st !! i = Some (Syncing pkg) ->
      syncSessionPool.getSession (sessions (self (the_world st)))
        (models.PackageManifest.Path (models.Package.Manifest pkg))
      = inl err ->
      step st (LDone i pkg)
        (mkSystem (snd (wg_Done (the_world st)))
           (<[i := Logging pkg (Some (lookupFailure pkg err))]> (workers st))
           (sending st) (finish st))
  (** worker [i], in [syncPackage]: the publish call returns; the deferred
      [s.wg.Done()] runs and [syncPackage] returns *)
  | step_done_publish st i pkg response :
      workers st !! i = Some (Publishing pkg response) ->
      step st (LDone i pkg)
        (mkSystem (snd (wg_Done (the_world st)))
           (<[i := Logging pkg (publishResult response)]> (workers st))
           (sending st) (finish st))
  (** worker [i]: the error of [syncPackage] is logged, and the loop is
      back at the [select] *)
  | step_resolve st i pkg result :
      workers st !! i = Some (Logging pkg result) ->
      step st (LResolve i pkg)
        (mkSystem (snd (logResult result (the_world st)))
           (<[i := AtSelect]> (workers st)) (sending st) (finish st))
  (** worker [i]: [case <-s.done] *)
  | step_exit st i :
      workers st !! i = Some AtSelect ->
      done (self (the_world st)) = true ->
      step st (LExit i)
        (mkSystem (the_world st) (<[i := Exited]> (workers st))
           (sending st) (finish st))
  (** [Finish]: [s.wg.Wait()] returns *)
  | step_wait st :
      finish st = NotDrained ->
      wg (self (the_world st)) = 0 ->
      step st LWait
        (mkSystem (the_world st) (workers st) (sending st) Drained)
  (** [Finish]: [close(s.done)], which does not panic *)
  | step_close st w' :
      finish st = Drained ->
      close_done (the_world st) = Some w' ->
      step st LClose
        (mkSystem w' (workers st) (sending st) Closed)
  (** [Finish]: [s.sessions.forEach(...)] *)
  | step_complete st order :
      finish st = Closed ->
      syncSessionPool.range_order (sessions (self (the_world st))) order ->
      step st (LComplete (fst (forEach order completeSession (the_world st))))
        (mkSystem (snd (forEach order completeSession (the_world st)))
           (workers st) (sending st)
           (Finished (fst (forEach order completeSession (the_world st))))).

(** A run: the labels are listed oldest first. *)
Inductive run : system -> list label -> system -> Prop :=
  | run_nil st : run st [] st
  | run_snoc st0 tr st l st' :
      run st0 tr st -> step st l st' -> run st0 (tr ++ [l]) st'.

Definition is_add (l : label) : bool :=
  match l with LAdd _ => true | _ => false end.

(** The step at which the deferred [s.wg.Done()] runs. *)
Definition is_done (l : label) : bool :=
  match l with LDone _ _ => true | _ => false end.

(** Increments and decrements of the pending counter along a run. *)
Definition increments (tr : list label) : Z :=
  Z.of_nat (length (filter (fun l => is_add l = true) tr)).

Definition decrements (tr : list label) : Z :=
  Z.of_nat (length (filter (fun l => is_done l = true) tr)).

(** The records held by the workers, from the receive to the return to
    the [select]. *)
Definition syncing (ws : list worker) : list models.Package.t :=
  omap (fun g => match g with
                 | Syncing pkg | Publishing pkg _ | Logging pkg _ => Some pkg
                 | _ => None
                 end) ws.

(** The records of the workers that are in [syncPackage]: the deferred
    [s.wg.Done()] has not run for them. *)
Definition in_syncPackage (ws : list worker) : list models.Package.t :=
  omap (fun g => match g with
                 | Syncing pkg | Publishing pkg _ => Some pkg
                 | _ => None
                 end) ws.

(** The records of the workers that are inside the publish call or past
    [syncPackage]. *)
Definition past_lookup (ws : list worker) : list models.Package.t :=
  omap (fun g => match g with
                 | Publishing pkg _ | Logging pkg _ => Some pkg
                 | _ => None
                 end) ws.

Definition is_complete_call (c : RPC) : bool :=
  match c with CompleteToolSession _ _ => true | _ => false end.

Definition is_publish_call (c : RPC) : bool :=
  match c with PublishPackageInsight _ _ => true | _ => false end.

(** A reporter as [NewSyncReporter] leaves it: nothing accepted yet,
    [Finish] not called, no completion call issued. *)
Definition fresh (st : system) : Prop :=
  wg (self (the_world st)) = 0
  /\ workQueue (self (the_world st)) = []
  /\ done (self (the_world st)) = false
  /\ sending st = []
  /\ syncing (workers st) = []
  /\ finish st = NotDrained
  /\ Forall (fun c => is_complete_call c = false) (rpcs (the_world st)).

End Steps.



(** ** A concrete scenario *)

(** Instances of the collaborators and a few records, used to run the
    definitions above on concrete inputs. *)
Module Scenario.

Definition manifest : models.PackageManifest.t :=
  models.PackageManifest.mk "app/package-lock.json" "npm".

(** A library without enrichment data. *)
Definition lib : models.Package.t :=
  models.Package.mk manifest "left-pad" "1.3.0" None.

Definition vuln_cve : insightapi.PackageVulnerability.t :=
  insightapi.PackageVulnerability.mk (Some "CVE-2023-0001") (Some "prototype pollution").

Definition vuln_osv : insightapi.PackageVulnerability.t :=
  insightapi.PackageVulnerability.mk (Some "OSV-2021-123") (Some "heap overflow").

Definition vuln_ghsa : insightapi.PackageVulnerability.t :=
  insightapi.PackageVulnerability.mk (Some "GHSA-xxxx") None.

Definition project_github : insightapi.PackageProjectInfo.t :=
  insightapi.PackageProjectInfo.mk (Some 42) None (Some 7)
    (Some "GITHUB") (Some "acme/app") (Some "https://github.com/acme/app").

Definition project_other : insightapi.PackageProjectInfo.t :=
  insightapi.PackageProjectInfo.mk None None None (Some "BITBUCKET") None None.

(** An application with vulnerabilities, projects and a license. *)
Definition app : models.Package.t :=
  models.Package.mk manifest "app" "2.0.0"
    (Some (insightapi.PackageVersionInsight.mk
             (Some (mk_slice [vuln_cve; vuln_osv; vuln_ghsa]))
             (Some (mk_slice [project_github; project_other]))
             (Some (mk_slice ["MIT"])))).


(** The dependency list is known for [app] and [bare] only. *)
Definition models_api : ModelsAPI := {|
  GetControlTowerSpecEcosystem m :=
    if decide (models.PackageManifest.Ecosystem m = "npm") then 1 else 0;
  GetDisplayPath m := models.PackageManifest.Path m;
  GetName p := models.Package.Name p;
  GetVersion p := models.Package.Version p;
  GetDependencies p :=
    if decide (models.Package.Name p = "app") then inr (mk_slice [lib])
    else if decide (models.Package.Name p = "bare") then inr (mk_slice [lib])
    else inl (External "dependency graph not available");
|}.

(** A service that accepts every call. *)
Definition service_ok : ToolService := {|
  CreateToolSession_response _ _ _ := inr "session-1";
  PublishPackageInsight_response _ _ _ := None;
  CompleteToolSession_response _ _ _ := None;
|}.


Definition platform : Platform := {|
  url_Parse _ := inr ("api.example.com", "");
  os_Getenv _ := "";
  drygrpc_GrpcClient _ _ _ _ _ := inr 1%nat;
  NewToolServiceClient conn := conn;
|}.

Definition cfg (multi : bool) : SyncReporterConfig :=
  mkConfig "https://api.example.com" "token" multi "demo" "1.0" "manual"
    "" "" "" "" 0 "vet" "1.0.0".

Definition primary : syncSession := mkSession "session-1" 1%nat.

(** A reporter with the primary session installed and nothing done yet. *)
Definition world_primary : world :=
  mkWorld
    (mkReporter (cfg false) [] false 0
       (syncSessionPool.addPrimarySession "session-1" 1%nat ∅))
    [] [].

(** The reporter of [world_primary] with a single worker. *)
Definition system_primary : system :=
  mkSystem world_primary [AtSelect] [] NotDrained.

(** One record is submitted, sent, received, published and resolved. *)
Definition one_resolved : list label :=
  (((((([] ++ [LAdd lib]) ++ [LSend lib]) ++ [LRecv 0 lib])
       ++ [LCall 0 lib]) ++ [LDone 0 lib]) ++ [LResolve 0 lib]).

(** Then [Finish] gets past the wait. *)
Definition one_record : list label := one_resolved ++ [LWait].

(** A platform whose URL parser rejects every URL. *)
Definition platform_bad_url : Platform := {|
  url_Parse _ := inl (External "parse error");
  os_Getenv _ := "";
  drygrpc_GrpcClient _ _ _ _ _ := inr 1%nat;
  NewToolServiceClient conn := conn;
|}.

(** A configuration with a negative worker count. *)
Definition cfg_no_workers : SyncReporterConfig :=
  mkConfig "https://api.example.com" "token" false "demo" "1.0" "manual"
    "" "" "" "" (-1) "vet" "1.0.0".

End Scenario.

(** ** Further readings of a request and of a run *)

(** The part of a request that names the session, the manifest and the
    package version. *)
Definition identityOf (req : controltowerv1.PublishPackageInsightRequest.t)
    : option controltowerv1.ToolSession.t
      * option packagev1.PackageManifest.t
      * option packagev1.PackageVersion.t :=
  (controltowerv1.PublishPackageInsightRequest.ToolSession req,
   controltowerv1.PublishPackageInsightRequest.Manifest req,
   controltowerv1.PublishPackageInsightRequest.PackageVersion req).

(** The records of the labels of each kind, oldest first. *)
Definition added (tr : list label) : list models.Package.t :=
  omap (fun l => match l with LAdd pkg => Some pkg | _ => None end) tr.

Definition sent (tr : list label) : list models.Package.t :=
  omap (fun l => match l with LSend pkg => Some pkg | _ => None end) tr.

Definition received (tr : list label) : list models.Package.t :=
  omap (fun l => match l with LRecv _ pkg => Some pkg | _ => None end) tr.

Definition resolved (tr : list label) : list models.Package.t :=
  omap (fun l => match l with LResolve _ pkg => Some pkg | _ => None end) tr.

(** The records for which the publish call has been issued, and those for
    which [syncPackage] has returned. *)
Definition called (tr : list label) : list models.Package.t :=
  omap (fun l => match l with LCall _ pkg => Some pkg | _ => None end) tr.

Definition returned (tr : list label) : list models.Package.t :=
  omap (fun l => match l with LDone _ pkg => Some pkg | _ => None end) tr.

(** [queuePackage] called [n] times for a record, each send completing. *)
Fixpoint submissions (n : nat) (pkg : models.Package.t) : list label :=
  match n with
  | O => []
  | S n => (submissions n pkg ++ [LAdd pkg]) ++ [LSend pkg]
  end.

(** The publications among the calls, oldest first. *)
Definition publications (calls : list RPC) : list RPC :=
  filter (fun c => is_publish_call c = true) calls.

(** The completions among the calls, oldest first. *)
Definition completions (calls : list RPC) : list RPC :=
  filter (fun c => is_complete_call c = true) calls.

(** ** Submitting a manifest *)

(** [readers.NewManifestModelReader(manifest).EnumPackages(handler)]: the
    records the reader hands to the handler, in order.  The handler of
    [AddManifest] always returns nil, and [AddManifest] discards the error
    of the enumeration. *)
Class ManifestReader := {
  EnumPackages : models.PackageManifest.t -> list models.Package.t;
}.

Section AddManifest.
Context `{!ModelsAPI} `{!ToolService} `{!ManifestReader}.

(** The calls of [queuePackage] made by the handler, one after the other;
    [None] is a caller blocked in a send. *)
Fixpoint queuePackages (pkgs : list models.Package.t) (w : world)
    : option (unit * world) :=
  match pkgs with
  | [] => Some (tt, w)
  | pkg :: rest =>
      match queuePackage pkg w with
      | Returns _ w1 => queuePackages rest w1
      | _ => None
      end
  end.

Definition AddManifest (manifest : models.PackageManifest.t) (w : world)
    : option (unit * world) :=
  queuePackages (EnumPackages manifest) w.

End AddManifest.

Module ScenarioReader.

(** A reader that finds two records in every manifest. *)
Definition reader : ManifestReader := {|
  EnumPackages _ := [Scenario.app; Scenario.lib];
|}.

End ScenarioReader.

(** * The generated HTTP client (package [syncv1]) *)

Module syncv1.

(** ** Library functions *)

(** [strings.HasSuffix(s, suffix)]:
    [len(s) >= len(suffix) && s[len(s)-len(suffix):] == suffix]. *)
Definition HasSuffix (s suffix : string) : bool :=
  (String.length suffix <=? String.length s)%nat
  && String.eqb
       (String.substring (String.length s - String.length suffix)
          (String.length suffix) s)
       suffix.

(** [strings.Contains(s, substr)]: [substr] occurs somewhere in [s]. *)
Definition Contains (s substr : string) : bool :=
  match String.index 0 substr s with
  | Some _ => true
  | None => false
  end.

Definition bytes := list Byte.byte.

(** [http.Header], for keys in canonical form such as ["Content-Type"]. *)
Abbreviation Header := (gmap string (list string)).

Definition Header_Get (h : Header) (key : string) : string :=
  match h !! key with
  | Some (v :: _) => v
  | _ => ""
  end.

Definition Header_Add (h : Header) (key value : string) : Header :=
  <[key := default [] (h !! key) ++ [value]]> h.

Module Request.
Record t := mk {
  Method : string;
  URL : string;
  Header : syncv1.Header;
  Body : bytes;
}.
End Request.

(** [http.Response]; [Body] is what [ioutil.ReadAll(rsp.Body)] gives. *)
Module Response.
Record t := mk {
  Status : string;
  StatusCode : Z;
  Header : syncv1.Header;
  Body : error + bytes;
}.
End Response.

(** [HttpRequestDoer]: the method [Do]. *)
Definition HttpRequestDoer := Request.t -> error + Response.t.

(** [RequestEditorFn]: the error returned and the request as the callback
    leaves it. *)
Definition RequestEditorFn := Request.t -> option error * Request.t.

Inductive ParamLocation : Type := ParamLocationPath.

(** What the client takes from [net/url], [net/http], [encoding/json] and
    the [runtime] package of the generator, and the payload types declared
    beside the client. *)
Class Library := {
  URL : Type;
  url_Parse : string -> error + URL;
  URL_Parse : URL -> string -> error + URL;
  URL_String : URL -> string;
  (** the checks of [http.NewRequest] on the method and the URL *)
  http_NewRequest_check : string -> string -> option error;
  http_StatusText : Z -> string;
  (** [&http.Client{}] *)
  http_Client : HttpRequestDoer;
  StyleParamWithLocation :
    string -> bool -> string -> ParamLocation -> string -> error + string;
  AnyJobResponse : Type;
  ApiError : Type;
  CreateSyncJobJSONRequestBody : Type;
  UpdateSyncJobJSONRequestBody : Type;
  json_Marshal_CreateSyncJob : CreateSyncJobJSONRequestBody -> error + bytes;
  json_Marshal_UpdateSyncJob : UpdateSyncJobJSONRequestBody -> error + bytes;
  json_Unmarshal_AnyJobResponse : bytes -> error + AnyJobResponse;
  json_Unmarshal_ApiError : bytes -> error + ApiError;
}.

Module Client.
Record t := mk {
  Server : string;
  Client : option HttpRequestDoer;
  RequestEditors : slice RequestEditorFn;
}.
End Client.

(** [ClientOption]: the error returned and the client as the option leaves
    it. *)
Definition ClientOption := Client.t -> option error * Client.t.

Module CreateSyncJobResponse.
Record t (A E : Type) := mk {
  Body : bytes;
  HTTPResponse : option Response.t;
  JSON201 : option A;
  JSON403 : option E;
  JSON429 : option E;
  JSON500 : option E;
}.
Arguments mk {A E}.
Arguments Body {A E}.
Arguments HTTPResponse {A E}.
Arguments JSON201 {A E}.
Arguments JSON403 {A E}.
Arguments JSON429 {A E}.
Arguments JSON500 {A E}.
End CreateSyncJobResponse.

Module UpdateSyncJobResponse.
Record t (A E : Type) := mk {
  Body : bytes;
  HTTPResponse : option Response.t;
  JSON200 : option A;
  JSON403 : option E;
  JSON429 : option E;
  JSON500 : option E;
}.
Arguments mk {A E}.
Arguments Body {A E}.
Arguments HTTPResponse {A E}.
Arguments JSON200 {A E}.
Arguments JSON403 {A E}.
Arguments JSON429 {A E}.
Arguments JSON500 {A E}.
End UpdateSyncJobResponse.

Section Client.
Context `{!Library}.

(** [http.NewRequest(method, url, body)]. *)
Definition http_NewRequest (method url : string) (body : bytes)
    : error + Request.t :=
  match http_NewRequest_check method url with
  | Some err => inl err
  | None => inr (Request.mk method url ∅ body)
  end.

(** The loop of [NewClient] over its options. *)
Fixpoint applyOptions (opts : list ClientOption) (client : Client.t)
    : error + Client.t :=
  match opts with
  | [] => inr client
  | o :: rest =>
      let (err, client) := o client in
      match err with
      | Some e => inl e
      | None => applyOptions rest client
      end
  end.

Definition NewClient (server : string) (opts : list ClientOption)
    : error + Client.t :=
  let client := Client.mk server None nil_slice in
  match applyOptions opts client with
  | inl err => inl err
  | inr client =>
      let client :=
        if negb (HasSuffix (Client.Server client) "/") then
          Client.mk (Client.Server client +:+ "/") (Client.Client client)
            (Client.RequestEditors client)
        else client in
      let client :=
        match Client.Client client with
        | None =>
            Client.mk (Client.Server client) (Some http_Client)
              (Client.RequestEditors client)
        | Some _ => client
        end in
      inr client
  end.

(** A nil [doer] is the nil interface value. *)
Definition WithHTTPClient (doer : option HttpRequestDoer) : ClientOption :=
  fun c =>
    (None, Client.mk (Client.Server c) doer (Client.RequestEditors c)).

Definition WithRequestEditorFn (fn : RequestEditorFn) : ClientOption :=
  fun c =>
    (None, Client.mk (Client.Server c) (Client.Client c)
             (append (Client.RequestEditors c) fn)).

Definition WithBaseURL (baseURL : string) : ClientOption :=
  fun c =>
    match url_Parse baseURL with
    | inl err => (Some err, c)
    | inr newBaseURL =>
        (None, Client.mk (URL_String newBaseURL) (Client.Client c)
                 (Client.RequestEditors c))
    end.

(** A loop [for _, r := range editors] of [applyEditors]. *)
Fixpoint runEditors (editors : list RequestEditorFn) (req : Request.t)
    : option error * Request.t :=
  match editors with
  | [] => (None, req)
  | r :: rest =>
      let (err, req) := r req in
      match err with
      | Some e => (Some e, req)
      | None => runEditors rest req
      end
  end.

Definition applyEditors (c : Client.t) (req : Request.t)
    (additionalEditors : slice RequestEditorFn) : option error * Request.t :=
  match runEditors (elems (Client.RequestEditors c)) req with
  | (Some e, req) => (Some e, req)
  | (None, req) => runEditors (elems additionalEditors) req
  end.

(** [if operationPath[0] == '/' { operationPath = "." + operationPath }];
    the character tested is the slash, code 47. *)
Definition relativePath (operationPath : string) : string :=
  match operationPath with
  | String (Ascii.Ascii true true true true false true false false) _ =>
      "." +:+ operationPath
  | _ => operationPath
  end.

Definition addContentType (contentType : string) (req : Request.t)
    : Request.t :=
  Request.mk (Request.Method req) (Request.URL req)
    (Header_Add (Request.Header req) "Content-Type" contentType)
    (Request.Body req).

Definition NewCreateSyncJobRequestWithBody (server contentType : string)
    (body : bytes) : error + Request.t :=
  match url_Parse server with
  | inl err => inl err
  | inr serverURL =>
      let operationPath := relativePath "/jobs" in
      match URL_Parse serverURL operationPath with
      | inl err => inl err
      | inr queryURL =>
          match http_NewRequest "POST" (URL_String queryURL) body with
          | inl err => inl err
          | inr req => inr (addContentType contentType req)
          end
      end
  end.

Definition NewCreateSyncJobRequest (server : string)
    (body : CreateSyncJobJSONRequestBody) : error + Request.t :=
  match json_Marshal_CreateSyncJob body with
  | inl err => inl err
  | inr buf => NewCreateSyncJobRequestWithBody server "application/json" buf
  end.

Definition NewUpdateSyncJobRequestWithBody (server jobId contentType : string)
    (body : bytes) : error + Request.t :=
  match StyleParamWithLocation "simple" false "job_id" ParamLocationPath jobId with
  | inl err => inl err
  | inr pathParam0 =>
      match url_Parse server with
      | inl err => inl err
      | inr serverURL =>
          let operationPath := relativePath ("/jobs/" +:+ pathParam0) in
          match URL_Parse serverURL operationPath with
          | inl err => inl err
          | inr queryURL =>
              match http_NewRequest "PUT" (URL_String queryURL) body with
              | inl err => inl err
              | inr req => inr (addContentType contentType req)
              end
          end
      end
  end.

Definition NewUpdateSyncJobRequest (server jobId : string)
    (body : UpdateSyncJobJSONRequestBody) : error + Request.t :=
  match json_Marshal_UpdateSyncJob body with
  | inl err => inl err
  | inr buf =>
      NewUpdateSyncJobRequestWithBody server jobId "application/json" buf
  end.

(** The common end of the client's methods: the editors, then
    [c.Client.Do(req)].  The result comes with the requests handed to
    [Do]; [None] is the panic of a call through a nil [c.Client]. *)
Definition send (c : Client.t) (req : Request.t)
    (reqEditors : slice RequestEditorFn)
    : option ((error + Response.t) * list Request.t) :=
  match applyEditors c req reqEditors with
  | (Some err, _) => Some (inl err, [])
  | (None, req) =>
      match Client.Client c with
      | Some doer => Some (doer req, [req])
      | None => None
      end
  end.

Definition CreateSyncJobWithBody (c : Client.t) (contentType : string)
    (body : bytes) (reqEditors : slice RequestEditorFn)
    : option ((error + Response.t) * list Request.t) :=
  match NewCreateSyncJobRequestWithBody (Client.Server c) contentType body with
  | inl err => Some (inl err, [])
  | inr req => send c req reqEditors
  end.

Definition CreateSyncJob (c : Client.t) (body : CreateSyncJobJSONRequestBody)
    (reqEditors : slice RequestEditorFn)
    : option ((error + Response.t) * list Request.t) :=
  match NewCreateSyncJobRequest (Client.Server c) body with
  | inl err => Some (inl err, [])
  | inr req => send c req reqEditors
  end.

Definition UpdateSyncJobWithBody (c : Client.t) (jobId contentType : string)
    (body : bytes) (reqEditors : slice RequestEditorFn)
    : option ((error + Response.t) * list Request.t) :=
  match NewUpdateSyncJobRequestWithBody (Client.Server c) jobId contentType body with
  | inl err => Some (inl err, [])
  | inr req => send c req reqEditors
  end.

Definition UpdateSyncJob (c : Client.t) (jobId : string)
    (body : UpdateSyncJobJSONRequestBody) (reqEditors : slice RequestEditorFn)
    : option ((error + Response.t) * list Request.t) :=
  match NewUpdateSyncJobRequest (Client.Server c) jobId body with
  | inl err => Some (inl err, [])
  | inr req => send c req reqEditors
  end.

End Client.

Section Responses.
Context `{!Library}.

(** [Status()] and [StatusCode()] of a [CreateSyncJobResponse]. *)
Definition CreateSyncJobResponse_Status
    (r : CreateSyncJobResponse.t AnyJobResponse ApiError) : string :=
  match CreateSyncJobResponse.HTTPResponse r with
  | Some rsp => Response.Status rsp
  | None => http_StatusText 0
  end.

Definition CreateSyncJobResponse_StatusCode
    (r : CreateSyncJobResponse.t AnyJobResponse ApiError) : Z :=
  match CreateSyncJobResponse.HTTPResponse r with
  | Some rsp => Response.StatusCode rsp
  | None => 0
  end.

Definition UpdateSyncJobResponse_Status
    (r : UpdateSyncJobResponse.t AnyJobResponse ApiError) : string :=
  match UpdateSyncJobResponse.HTTPResponse r with
  | Some rsp => Response.Status rsp
  | None => http_StatusText 0
  end.

Definition UpdateSyncJobResponse_StatusCode
    (r : UpdateSyncJobResponse.t AnyJobResponse ApiError) : Z :=
  match UpdateSyncJobResponse.HTTPResponse r with
  | Some rsp => Response.StatusCode rsp
  | None => 0
  end.

(** The test of each [case] of the [switch] of the parsers. *)
Definition isJSON (rsp : Response.t) (code : Z) : bool :=
  Contains (Header_Get (Response.Header rsp) "Content-Type") "json"
  && (Response.StatusCode rsp =? code)%Z.

Definition ParseCreateSyncJobResponse (rsp : Response.t)
    : error + CreateSyncJobResponse.t AnyJobResponse ApiError :=
  match Response.Body rsp with
  | inl err => inl err
  | inr bodyBytes =>
      let response :=
        CreateSyncJobResponse.mk bodyBytes (Some rsp) None None None None in
      if isJSON rsp 201 then
        match json_Unmarshal_AnyJobResponse bodyBytes with
        | inl err => inl err
        | inr dest =>
            inr (CreateSyncJobResponse.mk bodyBytes (Some rsp)
                   (Some dest) None None None)
        end
      else if isJSON rsp 403 then
        match json_Unmarshal_ApiError bodyBytes with
        | inl err => inl err
        | inr dest =>
            inr (CreateSyncJobResponse.mk bodyBytes (Some rsp)
                   None (Some dest) None None)
        end
      else if isJSON rsp 429 then
        match json_Unmarshal_ApiError bodyBytes with
        | inl err => inl err
        | inr dest =>
            inr (CreateSyncJobResponse.mk bodyBytes (Some rsp)
                   None None (Some dest) None)
        end
      else if isJSON rsp 500 then
        match json_Unmarshal_ApiError bodyBytes with
        | inl err => inl err
        | inr dest =>
            inr (CreateSyncJobResponse.mk bodyBytes (Some rsp)
                   None None None (Some dest))
        end
      else inr response
  end.

Definition ParseUpdateSyncJobResponse (rsp : Response.t)
    : error + UpdateSyncJobResponse.t AnyJobResponse ApiError :=
  match Response.Body rsp with
  | inl err => inl err
  | inr bodyBytes =>
      let response :=
        UpdateSyncJobResponse.mk bodyBytes (Some rsp) None None None None in
      if isJSON rsp 200 then
        match json_Unmarshal_AnyJobResponse bodyBytes with
        | inl err => inl err
        | inr dest =>
            inr (UpdateSyncJobResponse.mk bodyBytes (Some rsp)
                   (Some dest) None None None)
        end
      else if isJSON rsp 403 then
        match json_Unmarshal_ApiError bodyBytes with
        | inl err => inl err
        | inr dest =>
            inr (UpdateSyncJobResponse.mk bodyBytes (Some rsp)
                   None (Some dest) None None)
        end
      else if isJSON rsp 429 then
        match json_Unmarshal_ApiError bodyBytes with
        | inl err => inl err
        | inr dest =>
            inr (UpdateSyncJobResponse.mk bodyBytes (Some rsp)
                   None None (Some dest) None)
        end
      else if isJSON rsp 500 then
        match json_Unmarshal_ApiError bodyBytes with
        | inl err => inl err
        | inr dest =>
            inr (UpdateSyncJobResponse.mk bodyBytes (Some rsp)
                   None None None (Some dest))
        end
      else inr response
  end.

(** [ClientWithResponses]: the embedded client and, for each call, the
    parsing of its response. *)
Definition NewClientWithResponses (server : string) (opts : list ClientOption)
    : error + Client.t :=
  match NewClient server opts with
  | inl err => inl err
  | inr client => inr client
  end.

Definition CreateSyncJobWithBodyWithResponse (c : Client.t)
    (contentType : string) (body : bytes) (reqEditors : slice RequestEditorFn)
    : option ((error + CreateSyncJobResponse.t AnyJobResponse ApiError)
              * list Request.t) :=
  match CreateSyncJobWithBody c contentType body reqEditors with
  | None => None
  | Some (inl err, sent) => Some (inl err, sent)
  | Some (inr rsp, sent) => Some (ParseCreateSyncJobResponse rsp, sent)
  end.

Definition UpdateSyncJobWithBodyWithResponse (c : Client.t)
    (jobId contentType : string) (body : bytes)
    (reqEditors : slice RequestEditorFn)
    : option ((error + UpdateSyncJobResponse.t AnyJobResponse ApiError)
              * list Request.t) :=
  match UpdateSyncJobWithBody c jobId contentType body reqEditors with
  | None => None
  | Some (inl err, sent) => Some (inl err, sent)
  | Some (inr rsp, sent) => Some (ParseUpdateSyncJobResponse rsp, sent)
  end.

End Responses.

(** A library for concrete runs: URLs are strings and a reference is
    appended to its base; every check passes; payloads are their bytes. *)
Module Example.

Definition library : Library := {|
  URL := string;
  url_Parse s := inr s;
  URL_Parse base ref := inr (base +:+ ref);
  URL_String u := u;
  http_NewRequest_check _ _ := None;
  http_StatusText _ := "";
  http_Client _ := inl (External "no network");
  StyleParamWithLocation _ _ _ _ value := inr value;
  AnyJobResponse := bytes;
  ApiError := bytes;
  CreateSyncJobJSONRequestBody := bytes;
  UpdateSyncJobJSONRequestBody := bytes;
  json_Marshal_CreateSyncJob b := inr b;
  json_Marshal_UpdateSyncJob b := inr b;
  json_Unmarshal_AnyJobResponse b := inr b;
  json_Unmarshal_ApiError b := inr b;
|}.

(** A server that answers every request with 201 and a JSON body. *)
Definition created : Response.t :=
  Response.mk "201 Created" 201
    {["Content-Type" := ["application/json; charset=utf-8"]]} (inr []).

Definition doer_created : HttpRequestDoer := fun _ => inr created.

(** An editor that sets a header and one that refuses the request. *)
Definition authorize : RequestEditorFn :=
  fun req =>
    (None, Request.mk (Request.Method req) (Request.URL req)
             (Header_Add (Request.Header req) "Authorization" "Bearer token")
             (Request.Body req)).

Definition refuse : RequestEditorFn :=
  fun req => (Some (External "refused"), req).

End Example.

End syncv1.
(** * Properties *)

(** ** The session pool *)

Section PoolFacts.
Import syncSessionPool.

Implicit Types (s : gmap string syncSession) (key : string).

Lemma getSession_wildcard s key w :
  s !! "*" = Some w -> getSession s key = inr w.
Proof. intros Hw. unfold getSession. now rewrite Hw. Qed.

Lemma getSession_exact s key k :
  s !! "*" = None -> s !! key = Some k -> getSession s key = inr k.
Proof. intros Hw Hk. unfold getSession. now rewrite Hw, Hk. Qed.

Lemma getSession_missing s key :
  s !! "*" = None -> s !! key = None ->
  getSession s key = inl (SessionNotFound key).
Proof. intros Hw Hk. unfold getSession. now rewrite Hw, Hk. Qed.

Lemma getSession_empty key : getSession ∅ key = inl (SessionNotFound key).
Proof. apply getSession_missing; apply lookup_empty. Qed.

(** No write removes an entry: a key that is present stays present. *)
Lemma apply_write_present s w key :
  is_Some (s !! key) -> is_Some (apply_write s w !! key).
Proof.
  intros Hs.
  destruct w as [sid c | k sid c]; simpl;
    unfold addPrimarySession, addKeyedSession; rewrite lookup_insert;
    case_decide; eauto.
Qed.

Lemma apply_writes_present ws : forall s key,
  is_Some (s !! key) -> is_Some (apply_writes s ws !! key).
Proof.
  induction ws as [| w ws IH]; intros s key Hs; simpl; [exact Hs |].
  apply IH. now apply apply_write_present.
Qed.

Lemma apply_writes_keeps_wildcard ws : forall s,
  Forall keeps_wildcard ws -> apply_writes s ws !! "*" = s !! "*".
Proof.
  induction ws as [| w ws IH]; intros s Hws; simpl; [reflexivity |].
  inversion Hws as [| ? ? Hw Hrest]; subst.
  rewrite IH by assumption.
  destruct w as [sid c | k sid c]; simpl in *; [contradiction |].
  unfold addKeyedSession. now rewrite lookup_insert_ne.
Qed.

(** C3. Whenever the wildcard key is present, every lookup returns the
    session stored under it, whatever the requested key; this is so in
    particular after [addPrimarySession], whichever writes came before or
    after it, and the session returned is the installed one as long as the
    later writes are keyed sessions under other keys.  Without the wildcard
    the lookup returns the session of the exact key, and fails with the
    session-not-found error when there is none. *)
Theorem getSession_wildcard_supersedes s key :
  (forall w, s !! "*" = Some w -> getSession s key = inr w)
  /\ (forall k, s !! "*" = None -> s !! key = Some k -> getSession s key = inr k)
  /\ (s !! "*" = None -> s !! key = None ->
      getSession s key = inl (SessionNotFound key))
  /\ (forall sid client before after,
        let s' := apply_writes
                    (addPrimarySession sid client (apply_writes s before))
                    after in
        exists w, s' !! "*" = Some w
                  /\ getSession s' key = inr w
                  /\ (Forall keeps_wildcard after -> w = mkSession sid client)).
Proof.
  split; [| split; [| split]].
  - intros w. apply getSession_wildcard.
  - intros k. apply getSession_exact.
  - apply getSession_missing.
  - intros sid client before after s'.
    assert (Hpresent : is_Some (s' !! "*")).
    { apply apply_writes_present. unfold addPrimarySession.
      rewrite lookup_insert_eq. eauto. }
    destruct Hpresent as [w Hw]. exists w.
    split; [exact Hw |]. split; [now apply getSession_wildcard |].
    intros Hkeep. subst s'.
    rewrite apply_writes_keeps_wildcard in Hw by assumption.
    unfold addPrimarySession in Hw. rewrite lookup_insert_eq in Hw.
    congruence.
Qed.

End PoolFacts.

(** ** Translation *)

Section TranslationFacts.
Context `{!ModelsAPI} `{!ToolService}.

Import controltowerv1.

Lemma newRequest_allocated session pkg :
  allocated (newRequest session pkg) [] [] [] [].
Proof. reflexivity. Qed.

(** Each loop appends the translations of the elements it ranges over to
    its own list and leaves the other three alone. *)
Lemma addDependency_loop children : forall req d v p l,
  allocated req d v p l ->
  allocated (foldl addDependency req children)
    (d ++ (newDependency <$> children)) v p l.
Proof.
  induction children as [| c cs IH]; intros req d v p l Hreq.
  - simpl. now rewrite app_nil_r.
  - rewrite fmap_cons. simpl foldl.
    replace (d ++ newDependency c :: (newDependency <$> cs))
      with ((d ++ [newDependency c]) ++ (newDependency <$> cs))
      by now rewrite <- app_assoc.
    apply IH. unfold allocated, insightOf, addDependency, update_insight in *.
    simpl. now rewrite Hreq.
Qed.

Lemma addVulnerability_loop vs : forall req d v p l,
  allocated req d v p l ->
  allocated (foldl addVulnerability req vs)
    d (v ++ (newVulnerability <$> vs)) p l.
Proof.
  induction vs as [| x xs IH]; intros req d v p l Hreq.
  - simpl. now rewrite app_nil_r.
  - rewrite fmap_cons. simpl foldl.
    replace (v ++ newVulnerability x :: (newVulnerability <$> xs))
      with ((v ++ [newVulnerability x]) ++ (newVulnerability <$> xs))
      by now rewrite <- app_assoc.
    apply IH. unfold allocated, insightOf, addVulnerability, update_insight in *.
    simpl. now rewrite Hreq.
Qed.

Lemma addProjectInsight_loop ps : forall req d v p l,
  allocated req d v p l ->
  allocated (foldl addProjectInsight req ps)
    d v (p ++ (newProjectInsight <$> ps)) l.
Proof.
  induction ps as [| x xs IH]; intros req d v p l Hreq.
  - simpl. now rewrite app_nil_r.
  - rewrite fmap_cons. simpl foldl.
    replace (p ++ newProjectInsight x :: (newProjectInsight <$> xs))
      with ((p ++ [newProjectInsight x]) ++ (newProjectInsight <$> xs))
      by now rewrite <- app_assoc.
    apply IH. unfold allocated, insightOf, addProjectInsight, update_insight in *.
    simpl. now rewrite Hreq.
Qed.

Lemma addLicense_loop ls : forall req d v p l,
  allocated req d v p l ->
  allocated (foldl addLicense req ls)
    d v p (l ++ (newLicenseMeta <$> ls)).
Proof.
  induction ls as [| x xs IH]; intros req d v p l Hreq.
  - simpl. now rewrite app_nil_r.
  - rewrite fmap_cons. simpl foldl.
    replace (l ++ newLicenseMeta x :: (newLicenseMeta <$> xs))
      with ((l ++ [newLicenseMeta x]) ++ (newLicenseMeta <$> xs))
      by now rewrite <- app_assoc.
    apply IH. unfold allocated, insightOf, addLicense, update_insight in *.
    simpl. now rewrite Hreq.
Qed.

Lemma requestOf_allocated session pkg :
  allocated (requestOf session pkg)
    (newDependency <$> dependenciesOf pkg)
    (newVulnerability <$> vulnerabilitiesOf pkg)
    (newProjectInsight <$> projectsOf pkg)
    (newLicenseMeta <$> licensesOf pkg).
Proof.
  unfold requestOf, range_update.
  apply (addLicense_loop _ _ _ _ _ []).
  apply (addProjectInsight_loop _ _ _ _ [] _).
  apply (addVulnerability_loop _ _ _ [] _ _).
  apply (addDependency_loop _ _ [] _ _ _).
  apply newRequest_allocated.
Qed.

(** The identity part of the request is the one of [newRequest]: the loops
    only touch the insight. *)
Lemma update_insight_identity f req :
  PublishPackageInsightRequest.ToolSession (update_insight f req)
    = PublishPackageInsightRequest.ToolSession req
  /\ PublishPackageInsightRequest.Manifest (update_insight f req)
    = PublishPackageInsightRequest.Manifest req
  /\ PublishPackageInsightRequest.PackageVersion (update_insight f req)
    = PublishPackageInsightRequest.PackageVersion req.
Proof. now destruct req. Qed.

(** What [syncPackage] does, by the result of the session lookup. *)
Lemma syncPackage_no_session pkg w err :
  syncSessionPool.getSession (sessions (self w))
    (models.PackageManifest.Path (models.Package.Manifest pkg)) = inl err ->
  syncPackage pkg w =
    (Some (Wrap ("failed to get session for package: " +:+ package_label pkg) err),
     mkWorld (set_wg (wg (self w) + -1) (self w)) (rpcs w) (logs w)).
Proof.
  intros Hget. unfold syncPackage, defer, bind, get_self. simpl.
  now rewrite Hget.
Qed.

(** With a session: the publication of [requestOf session pkg], a warning
    when the dependency list cannot be computed, and the error of the
    publish call, wrapped. *)
Lemma syncPackage_session pkg w session :
  syncSessionPool.getSession (sessions (self w))
    (models.PackageManifest.Path (models.Package.Manifest pkg)) = inr session ->
  let req := requestOf session pkg in
  let client := toolServiceClient session in
  syncPackage pkg w =
    (match PublishPackageInsight_response (rpcs w) client req with
     | Some e => Some (Wrap "failed to publish package insight" e)
     | None => None
     end,
     mkWorld (set_wg (wg (self w) + -1) (self w))
       (rpcs w ++ [PublishPackageInsight client req])
       (logs w ++ match GetDependencies pkg with
                  | inl err =>
                      [(LevelWarn,
                        "failed to get dependencies for package: "
                          +:+ package_label pkg +:+ ": " +:+ error_string err)]
                  | inr _ => []
                  end)).
Proof.
  intros Hget req client. subst req client.
  unfold syncPackage, defer, bind, get_self. simpl. rewrite Hget.
  unfold requestOf, dependenciesOf, range_update.
  destruct (GetDependencies pkg) as [err | deps]; simpl.
  - destruct (PublishPackageInsight_response _ _ _); reflexivity.
  - rewrite app_nil_r.
    destruct (PublishPackageInsight_response _ _ _); reflexivity.
Qed.

End TranslationFacts.

(** ** [strings.HasPrefix] *)

Lemma HasPrefix_spec (prefix s : string) :
  HasPrefix s prefix = true <-> exists rest, s = prefix +:+ rest.
Proof.
  unfold HasPrefix. revert s.
  induction prefix as [| a p IH]; intros s; simpl.
  - split; [intros _; now exists s | now destruct s].
  - destruct s as [| b s]; simpl.
    + split; [discriminate | intros [rest Hrest]; discriminate].
    + destruct (Ascii.ascii_dec a b) as [-> | Hne].
      * rewrite IH. split; intros [rest Hrest]; exists rest.
        -- now rewrite Hrest.
        -- now injection Hrest.
      * split; [discriminate |].
        intros [rest Hrest]. injection Hrest as Hab _. now symmetry in Hab.
Qed.

(** ** What a worker publishes *)

Section PublishedFacts.
Context `{!ModelsAPI} `{!ToolService}.

Import controltowerv1.

(** With a session, [syncPackage] issues one call, the publication of
    [requestOf session pkg]. *)
Lemma syncPackage_published pkg w session :
  routed w pkg session ->
  published w (snd (syncPackage pkg w)) (toolServiceClient session)
    (requestOf session pkg).
Proof.
  intros Hr. unfold published. now rewrite (syncPackage_session pkg w session Hr).
Qed.

Lemma requestOf_vulnerabilityList session pkg :
  vulnerabilityList (requestOf session pkg)
    = Some (mk_slice (newVulnerability <$> vulnerabilitiesOf pkg)).
Proof.
  unfold vulnerabilityList. now rewrite (requestOf_allocated session pkg).
Qed.

Lemma requestOf_projectInsightList session pkg :
  projectInsightList (requestOf session pkg)
    = Some (mk_slice (newProjectInsight <$> projectsOf pkg)).
Proof.
  unfold projectInsightList. now rewrite (requestOf_allocated session pkg).
Qed.

Lemma requestOf_licenseList session pkg :
  licenseList (requestOf session pkg)
    = Some (mk_slice (newLicenseMeta <$> licensesOf pkg)).
Proof.
  unfold licenseList. now rewrite (requestOf_allocated session pkg).
Qed.

Lemma requestOf_dependencyList session pkg :
  dependencyList (requestOf session pkg)
    = Some (mk_slice (newDependency <$> dependenciesOf pkg)).
Proof.
  unfold dependencyList. now rewrite (requestOf_allocated session pkg).
Qed.

(** The type given to an identifier. *)
Lemma newVulnerability_type v :
  let vId := SafelyGetValue (insightapi.PackageVulnerability.Id v) in
  exists ty,
    newVulnerability v =
      vulnerabilityv1.Vulnerability.mk
        (Some (vulnerabilityv1.VulnerabilityIdentifier.mk ty vId))
        (SafelyGetValue (insightapi.PackageVulnerability.Summary v))
    /\ ((exists rest, vId = "CVE-" +:+ rest) ->
        ty = vulnerabilityv1.VULNERABILITY_IDENTIFIER_TYPE_CVE)
    /\ ((exists rest, vId = "OSV-" +:+ rest) ->
        ty = vulnerabilityv1.VULNERABILITY_IDENTIFIER_TYPE_OSV)
    /\ (~ (exists rest, vId = "CVE-" +:+ rest) ->
        ~ (exists rest, vId = "OSV-" +:+ rest) ->
        ty = vulnerabilityv1.VULNERABILITY_IDENTIFIER_TYPE_UNSPECIFIED).
Proof.
  intros vId. unfold newVulnerability. fold vId.
  destruct (HasPrefix vId "CVE-") eqn:Hcve.
  - eexists. split; [reflexivity |]. split; [reflexivity |].
    apply HasPrefix_spec in Hcve. destruct Hcve as [r ->].
    split.
    + intros [rest Hrest]. discriminate Hrest.
    + intros Hn. exfalso. apply Hn. now exists r.
  - assert (Hncve : ~ (exists rest, vId = "CVE-" +:+ rest)).
    { intros Hex. apply HasPrefix_spec in Hex. congruence. }
    destruct (HasPrefix vId "OSV-") eqn:Hosv.
    + eexists. split; [reflexivity |].
      split; [intros Hex; contradiction |].
      split; [reflexivity |].
      intros _ Hn. exfalso. apply Hn. now apply HasPrefix_spec.
    + eexists. split; [reflexivity |].
      split; [intros Hex; contradiction |].
      split; [| reflexivity].
      intros Hex. apply HasPrefix_spec in Hex. congruence.
Qed.

(** C5. The request published for a record carries one vulnerability per
    vulnerability of the record, in order; its identifier value and its
    summary are those of the record (the empty string for a nil pointer),
    and its identifier type is CVE when the identifier starts with
    ["CVE-"], OSV when it starts with ["OSV-"], and unspecified otherwise
    (so for an identifier that starts with ["GHSA-"]). *)
Theorem vulnerability_identifier_classified pkg w session :
  routed w pkg session ->
  exists req out,
    published w (snd (syncPackage pkg w)) (toolServiceClient session) req
    /\ vulnerabilityList req = Some (mk_slice out)
    /\ length out = length (vulnerabilitiesOf pkg)
    /\ forall i v, vulnerabilitiesOf pkg !! i = Some v ->
         let vId := SafelyGetValue (insightapi.PackageVulnerability.Id v) in
         exists ty,
           out !! i =
             Some (vulnerabilityv1.Vulnerability.mk
                     (Some (vulnerabilityv1.VulnerabilityIdentifier.mk ty vId))
                     (SafelyGetValue (insightapi.PackageVulnerability.Summary v)))
           /\ ((exists rest, vId = "CVE-" +:+ rest) ->
               ty = vulnerabilityv1.VULNERABILITY_IDENTIFIER_TYPE_CVE)
           /\ ((exists rest, vId = "OSV-" +:+ rest) ->
               ty = vulnerabilityv1.VULNERABILITY_IDENTIFIER_TYPE_OSV)
           /\ (~ (exists rest, vId = "CVE-" +:+ rest) ->
               ~ (exists rest, vId = "OSV-" +:+ rest) ->
               ty = vulnerabilityv1.VULNERABILITY_IDENTIFIER_TYPE_UNSPECIFIED)
           /\ ((exists rest, vId = "GHSA-" +:+ rest) ->
               ty = vulnerabilityv1.VULNERABILITY_IDENTIFIER_TYPE_UNSPECIFIED).
Proof.
  intros Hr.
  exists (requestOf session pkg), (newVulnerability <$> vulnerabilitiesOf pkg).
  split; [now apply syncPackage_published |].
  split; [apply requestOf_vulnerabilityList |].
  split; [apply length_fmap |].
  intros i v Hv vId.
  destruct (newVulnerability_type v) as (ty & Heq & Hcve & Hosv & Hother).
  exists ty. rewrite list_lookup_fmap, Hv. simpl. rewrite Heq.
  repeat split; try assumption.
  intros [rest Hrest]. apply Hother; intros [r Hr']; fold vId in Hr';
    rewrite Hrest in Hr'; discriminate Hr'.
Qed.

End PublishedFacts.

Lemma vulnerability_identifier_classified_witness :
  exists req out,
    published Scenario.world_primary
      (snd (@syncPackage Scenario.models_api Scenario.service_ok
              Scenario.app Scenario.world_primary))
      1%nat req
    /\ @vulnerabilityList req = Some (mk_slice out)
    /\ length out = 3%nat.
Proof.
  destruct (@vulnerability_identifier_classified
              Scenario.models_api Scenario.service_ok
              Scenario.app Scenario.world_primary Scenario.primary)
    as (req & out & Hpub & Hlist & Hlen & _).
  - reflexivity.
  - exists req, out. split; [exact Hpub |]. split; [exact Hlist | exact Hlen].
Defined.

Example newVulnerability_examples :
  @newVulnerability Scenario.vuln_cve =
    vulnerabilityv1.Vulnerability.mk
      (Some (vulnerabilityv1.VulnerabilityIdentifier.mk
               vulnerabilityv1.VULNERABILITY_IDENTIFIER_TYPE_CVE "CVE-2023-0001"))
      "prototype pollution"
  /\ @newVulnerability Scenario.vuln_osv =
    vulnerabilityv1.Vulnerability.mk
      (Some (vulnerabilityv1.VulnerabilityIdentifier.mk
               vulnerabilityv1.VULNERABILITY_IDENTIFIER_TYPE_OSV "OSV-2021-123"))
      "heap overflow"
  /\ @newVulnerability Scenario.vuln_ghsa =
    vulnerabilityv1.Vulnerability.mk
      (Some (vulnerabilityv1.VulnerabilityIdentifier.mk
               vulnerabilityv1.VULNERABILITY_IDENTIFIER_TYPE_UNSPECIFIED "GHSA-xxxx"))
      "".
Proof. repeat split. Qed.

Section DependencyFacts.
Context `{!ModelsAPI} `{!ToolService}.

Import controltowerv1.

(** C6. When [GetDependencies] fails, the record is still published, with
    an allocated empty dependency list; one line is logged, at warning
    level; and the error [syncPackage] returns is the one of the publish
    call alone, so none when the publication succeeds.  When
    [GetDependencies] succeeds, the published dependency list has one entry
    per child, in order, made of the child's ecosystem, name and version,
    and nothing is logged. *)
Theorem dependencies_best_effort pkg w session :
  routed w pkg session ->
  let w' := snd (syncPackage pkg w) in
  let result := fst (syncPackage pkg w) in
  let client := toolServiceClient session in
  exists req,
    published w w' client req
    /\ (result = None <-> PublishPackageInsight_response (rpcs w) client req = None)
    /\ (forall err, GetDependencies pkg = inl err ->
          dependencyList req = Some (mk_slice [])
          /\ logs w' = logs w ++
               [(LevelWarn,
                 "failed to get dependencies for package: "
                   +:+ package_label pkg +:+ ": " +:+ error_string err)])
    /\ (forall dependencies, GetDependencies pkg = inr dependencies ->
          logs w' = logs w
          /\ exists out,
               dependencyList req = Some (mk_slice out)
               /\ length out = length (elems dependencies)
               /\ forall i child, elems dependencies !! i = Some child ->
                    out !! i =
                      Some (packagev1.PackageVersion.mk
                              (Some (packagev1.Package.mk
                                       (GetControlTowerSpecEcosystem
                                          (models.Package.Manifest child))
                                       (GetName child)))
                              (GetVersion child))).
Proof.
  intros Hr w' result client. subst w' result client.
  exists (requestOf session pkg).
  rewrite (syncPackage_session pkg w session Hr). simpl.
  split; [reflexivity |].
  split.
  { destruct (PublishPackageInsight_response _ _ _); split; congruence. }
  rewrite requestOf_dependencyList. unfold dependenciesOf.
  split.
  - intros err Herr. rewrite Herr. split; reflexivity.
  - intros dependencies Hdeps. rewrite Hdeps.
    split; [apply app_nil_r |].
    exists (newDependency <$> elems dependencies).
    split; [reflexivity |]. split; [apply length_fmap |].
    intros i child Hchild. now rewrite list_lookup_fmap, Hchild.
Qed.

End DependencyFacts.

Lemma dependencies_best_effort_witness :
  exists req,
    published Scenario.world_primary
      (snd (@syncPackage Scenario.models_api Scenario.service_ok
              Scenario.lib Scenario.world_primary))
      1%nat req
    /\ @dependencyList req = Some (mk_slice [])
    /\ fst (@syncPackage Scenario.models_api Scenario.service_ok
              Scenario.lib Scenario.world_primary) = None.
Proof.
  destruct (@dependencies_best_effort
              Scenario.models_api Scenario.service_ok
              Scenario.lib Scenario.world_primary Scenario.primary)
    as (req & Hpub & Hres & Hfail & _).
  - reflexivity.
  - exists req. split; [exact Hpub |]. split.
    + exact (proj1 (Hfail (External "dependency graph not available") eq_refl)).
    + reflexivity.
Defined.

(** ** Records without enrichment data *)



Section AbsentDataFacts.
Context `{!ModelsAPI} `{!ToolService}.

Import controltowerv1.


End AbsentDataFacts.



(** ** Project insights *)

Lemma int64_id (n : Z) : int_range n -> int64 n = n.
Proof.
  unfold int_range, int64.
  change (2 ^ 63) with 9223372036854775808.
  change (2 ^ 64) with 18446744073709551616.
  intros Hn. rewrite Z.mod_small by lia. lia.
Qed.

Lemma carried_int64 (source : option Z) :
  carried source (int64 (SafelyGetValue source)).
Proof.
  destruct source as [n |]; simpl; [apply int64_id | reflexivity].
Qed.

Lemma projectSourceType_spec (ty : string) :
  (ty = "GITHUB" -> projectSourceType ty = packagev1.PROJECT_SOURCE_TYPE_GITHUB)
  /\ (ty = "GITLAB" -> projectSourceType ty = packagev1.PROJECT_SOURCE_TYPE_GITLAB)
  /\ (ty <> "GITHUB" -> ty <> "GITLAB" ->
      projectSourceType ty = packagev1.PROJECT_SOURCE_TYPE_UNSPECIFIED).
Proof.
  unfold projectSourceType.
  repeat split; intros; repeat case_decide; subst; congruence.
Qed.

Section ProjectFacts.
Context `{!ModelsAPI} `{!ToolService}.

Import controltowerv1.

(** C8. The request published for a record carries one project insight per
    project of the record, in order.  Its source type is GITHUB for the
    type string ["GITHUB"], GITLAB for ["GITLAB"], and unspecified for
    every other type string and for a missing one.  Its star and fork
    counts and its issue statistics are allocated, never nil, and hold the
    project's values, with zero for a missing one; name and URL are
    copied. *)
Theorem project_insights_translated pkg w session :
  routed w pkg session ->
  exists req out,
    published w (snd (syncPackage pkg w)) (toolServiceClient session) req
    /\ projectInsightList req = Some (mk_slice out)
    /\ length out = length (projectsOf pkg)
    /\ forall i p, projectsOf pkg !! i = Some p ->
         exists ty stars forks issues,
           out !! i =
             Some (packagev1.ProjectInsight.mk
                     (Some (packagev1.Project.mk ty
                              (SafelyGetValue (insightapi.PackageProjectInfo.Name p))
                              (SafelyGetValue (insightapi.PackageProjectInfo.Link p))))
                     (Some stars) (Some forks)
                     (Some (packagev1.ProjectInsight_IssueStat.mk issues)))
           /\ (insightapi.PackageProjectInfo.Type_ p = Some "GITHUB" ->
               ty = packagev1.PROJECT_SOURCE_TYPE_GITHUB)
           /\ (insightapi.PackageProjectInfo.Type_ p = Some "GITLAB" ->
               ty = packagev1.PROJECT_SOURCE_TYPE_GITLAB)
           /\ (insightapi.PackageProjectInfo.Type_ p <> Some "GITHUB" ->
               insightapi.PackageProjectInfo.Type_ p <> Some "GITLAB" ->
               ty = packagev1.PROJECT_SOURCE_TYPE_UNSPECIFIED)
           /\ carried (insightapi.PackageProjectInfo.Stars p) stars
           /\ carried (insightapi.PackageProjectInfo.Forks p) forks
           /\ carried (insightapi.PackageProjectInfo.Issues p) issues.
Proof.
  intros Hr.
  exists (requestOf session pkg), (newProjectInsight <$> projectsOf pkg).
  split; [now apply syncPackage_published |].
  split; [apply requestOf_projectInsightList |].
  split; [apply length_fmap |].
  intros i p Hp.
  exists (projectSourceType (SafelyGetValue (insightapi.PackageProjectInfo.Type_ p))),
    (int64 (SafelyGetValue (insightapi.PackageProjectInfo.Stars p))),
    (int64 (SafelyGetValue (insightapi.PackageProjectInfo.Forks p))),
    (int64 (SafelyGetValue (insightapi.PackageProjectInfo.Issues p))).
  rewrite list_lookup_fmap, Hp.
  split; [reflexivity |].
  destruct (projectSourceType_spec
              (SafelyGetValue (insightapi.PackageProjectInfo.Type_ p)))
    as (Hgh & Hgl & Hother).
  split; [intros Hty; apply Hgh; now rewrite Hty |].
  split; [intros Hty; apply Hgl; now rewrite Hty |].
  split.
  - intros Hn1 Hn2.
    destruct (insightapi.PackageProjectInfo.Type_ p) as [ty |]; simpl in *.
    + apply Hother; congruence.
    + reflexivity.
  - repeat split; apply carried_int64.
Qed.

End ProjectFacts.

Lemma project_insights_translated_witness :
  exists req out,
    published Scenario.world_primary
      (snd (@syncPackage Scenario.models_api Scenario.service_ok
              Scenario.app Scenario.world_primary))
      1%nat req
    /\ @projectInsightList req = Some (mk_slice out)
    /\ length out = 2%nat.
Proof.
  destruct (@project_insights_translated
              Scenario.models_api Scenario.service_ok
              Scenario.app Scenario.world_primary Scenario.primary)
    as (req & out & Hpub & Hlist & Hlen & _).
  - reflexivity.
  - exists req, out. split; [exact Hpub |]. split; [exact Hlist | exact Hlen].
Defined.

Example newProjectInsight_examples :
  @newProjectInsight Scenario.project_github =
    packagev1.ProjectInsight.mk
      (Some (packagev1.Project.mk packagev1.PROJECT_SOURCE_TYPE_GITHUB
               "acme/app" "https://github.com/acme/app"))
      (Some 42) (Some 0) (Some (packagev1.ProjectInsight_IssueStat.mk 7))
  /\ @newProjectInsight Scenario.project_other =
    packagev1.ProjectInsight.mk
      (Some (packagev1.Project.mk packagev1.PROJECT_SOURCE_TYPE_UNSPECIFIED "" ""))
      (Some 0) (Some 0) (Some (packagev1.ProjectInsight_IssueStat.mk 0)).
Proof. split; reflexivity. Qed.

(** ** Completing the sessions *)

Section FinishFacts.
Context `{!ModelsAPI} `{!ToolService}.

Import controltowerv1.

(** [forEach] with the visitor of [Finish]: the entries are visited in
    order up to the first whose completion fails; that one is the last
    visited and its error is the result. *)
Lemma forEach_completeSession order : forall w,
  exists attempted skipped,
    order = attempted ++ skipped
    /\ self (snd (forEach order completeSession w)) = self w
    /\ rpcs (snd (forEach order completeSession w))
         = rpcs w ++ (completeCall <$> attempted)
    /\ match fst (forEach order completeSession w) with
       | None => skipped = []
       | Some e =>
           exists pre entry,
             attempted = pre ++ [entry]
             /\ CompleteToolSession_response
                  (rpcs w ++ (completeCall <$> pre))
                  (toolServiceClient (snd entry))
                  (completeRequest (snd entry)) = Some e
       end
    /\ (forall pre entry post,
          attempted = pre ++ entry :: post -> post <> [] ->
          CompleteToolSession_response
            (rpcs w ++ (completeCall <$> pre))
            (toolServiceClient (snd entry))
            (completeRequest (snd entry)) = None).
Proof.
  induction order as [| [key session] rest IH]; intros w.
  - exists [], []. simpl. rewrite app_nil_r.
    repeat split; try reflexivity.
    intros pre entry post Heq. now destruct pre.
  - simpl. unfold bind at 1. unfold completeSession at 1 3 5.
    unfold bind, logf, call. simpl.
    destruct (CompleteToolSession_response (rpcs w) (toolServiceClient session)
                (completeRequest session)) as [e |] eqn:Hresp; simpl.
    + exists [(key, session)], rest. simpl.
      repeat split; try reflexivity.
      * exists [], (key, session). simpl. rewrite app_nil_r. now split.
      * intros pre entry post Heq Hpost.
        destruct pre as [| x pre]; simpl in Heq.
        -- injection Heq as _ Hp. now subst post.
        -- injection Heq as _ Hp. now destruct pre.
    + set (w1 := mkWorld (self w)
                   (rpcs w ++ [CompleteToolSession (toolServiceClient session)
                                 (completeRequest session)])
                   (logs w ++ [(LevelDebug,
                                "Report Sync: Completing tool session: "
                                  +:+ sessionId session)])).
      destruct (IH w1) as (attempted & skipped & Horder & Hself & Hrpcs & Hres & Hok).
      exists ((key, session) :: attempted), skipped.
      split; [now rewrite Horder |].
      split; [exact Hself |].
      split.
      { rewrite Hrpcs. subst w1. simpl. now rewrite <- app_assoc. }
      split.
      { destruct (fst (forEach rest completeSession w1)) as [e |]; [| exact Hres].
        destruct Hres as (pre & entry & Hatt & Hfail).
        exists ((key, session) :: pre), entry.
        split; [now rewrite Hatt |].
        subst w1. simpl in Hfail. rewrite <- app_assoc in Hfail. exact Hfail. }
      intros pre entry post Heq Hpost.
      destruct pre as [| x pre]; simpl in Heq.
      * injection Heq as <- _. simpl. rewrite app_nil_r. exact Hresp.
      * injection Heq as <- Hatt.
        specialize (Hok pre entry post Hatt Hpost).
        subst w1. simpl in Hok. rewrite <- app_assoc in Hok. exact Hok.
Qed.

End FinishFacts.

(** ** Steps of the running system *)

Section StepFacts.
Context `{!ModelsAPI} `{!ToolService}.

(** One turn of a worker: the counter goes down by one and nothing else
    of the reporter changes; at most one call is issued, a publication. *)
Lemma workerIteration_self pkg w :
  self (snd (workerIteration pkg w)) = set_wg (wg (self w) + -1) (self w).
Proof.
  unfold workerIteration, bind.
  destruct (syncSessionPool.getSession (sessions (self w))
              (models.PackageManifest.Path (models.Package.Manifest pkg)))
    as [err | session] eqn:Hget.
  - now rewrite (syncPackage_no_session pkg w err Hget).
  - rewrite (syncPackage_session pkg w session Hget).
    now destruct (PublishPackageInsight_response _ _ _).
Qed.

Lemma workerIteration_rpcs pkg w :
  match syncSessionPool.getSession (sessions (self w))
          (models.PackageManifest.Path (models.Package.Manifest pkg)) with
  | inl _ => rpcs (snd (workerIteration pkg w)) = rpcs w
  | inr session =>
      rpcs (snd (workerIteration pkg w))
        = rpcs w ++ [PublishPackageInsight (toolServiceClient session)
                       (requestOf session pkg)]
  end.
Proof.
  unfold workerIteration, bind.
  destruct (syncSessionPool.getSession (sessions (self w))
              (models.PackageManifest.Path (models.Package.Manifest pkg)))
    as [err | session] eqn:Hget.
  - now rewrite (syncPackage_no_session pkg w err Hget).
  - rewrite (syncPackage_session pkg w session Hget).
    now destruct (PublishPackageInsight_response _ _ _).
Qed.

Lemma workQueue_send_self pkg w w' :
  workQueue_send pkg w = Some (tt, w') ->
  self w' = set_workQueue (workQueue (self w) ++ [pkg]) (self w)
  /\ rpcs w' = rpcs w /\ logs w' = logs w
  /\ (length (workQueue (self w)) < workQueueCapacity)%nat.
Proof.
  unfold workQueue_send. case_decide; [| discriminate].
  intros [= <-]. now repeat split.
Qed.

(** [queuePackage], by the room in the queue: the counter is raised in
    both cases, and the record is in the queue when the call returns. *)
Lemma queuePackage_room pkg w :
  (length (workQueue (self w)) < workQueueCapacity)%nat ->
  queuePackage pkg w =
    Returns tt (mkWorld
                  (mkReporter (config (self w)) (workQueue (self w) ++ [pkg])
                     (done (self w)) (wg (self w) + 1) (sessions (self w)))
                  (rpcs w) (logs w)).
Proof.
  intros Hroom. unfold queuePackage, workQueue_send. simpl.
  case_decide; [reflexivity | contradiction].
Qed.

Lemma queuePackage_full pkg w :
  (workQueueCapacity <= length (workQueue (self w)))%nat ->
  queuePackage pkg w =
    Blocks (mkWorld (set_wg (wg (self w) + 1) (self w)) (rpcs w) (logs w)).
Proof.
  intros Hfull. unfold queuePackage, workQueue_send. simpl.
  case_decide; [lia | reflexivity].
Qed.

(** The phases of a worker's turn. *)
Lemma publishPhase_spec session pkg w :
  publishPhase session pkg w =
    (PublishPackageInsight_response (rpcs w) (toolServiceClient session)
       (requestOf session pkg),
     mkWorld (self w)
       (rpcs w ++ [PublishPackageInsight (toolServiceClient session)
                     (requestOf session pkg)])
       (logs w ++ match GetDependencies pkg with
                  | inl err =>
                      [(LevelWarn,
                        "failed to get dependencies for package: "
                          +:+ package_label pkg +:+ ": " +:+ error_string err)]
                  | inr _ => []
                  end)).
Proof.
  unfold publishPhase, bind, call, logf, ret.
  destruct (GetDependencies pkg); simpl; rewrite ?app_nil_r; reflexivity.
Qed.

Lemma logResult_spec result w :
  logResult result w =
    (tt, mkWorld (self w) (rpcs w)
           (logs w ++ match result with
                      | Some e =>
                          [(LevelError,
                            "failed to sync package: " +:+ error_string e)]
                      | None => []
                      end)).
Proof.
  destruct result; [reflexivity |].
  simpl. rewrite app_nil_r. now destruct w.
Qed.

Lemma close_done_spec w w' :
  close_done w = Some w' ->
  done (self w) = false
  /\ w' = mkWorld (set_done true (self w)) (rpcs w) (logs w).
Proof.
  unfold close_done. destruct (done (self w)); [discriminate |].
  intros [= <-]. now split.
Qed.

(** [syncPackage] is its phases in sequence: the lookup, then either the
    return of the lookup error or the publish call and its return, with
    the deferred [s.wg.Done()] at the return. *)
Lemma syncPackage_phases pkg w :
  syncPackage pkg w =
    match syncSessionPool.getSession (sessions (self w))
            (models.PackageManifest.Path (models.Package.Manifest pkg)) with
    | inl err => (Some (lookupFailure pkg err), snd (wg_Done w))
    | inr session =>
        (publishResult (fst (publishPhase session pkg w)),
         snd (wg_Done (snd (publishPhase session pkg w))))
    end.
Proof.
  destruct (syncSessionPool.getSession (sessions (self w))
              (models.PackageManifest.Path (models.Package.Manifest pkg)))
    as [err | session] eqn:Hget.
  - now rewrite (syncPackage_no_session pkg w err Hget).
  - rewrite (syncPackage_session pkg w session Hget), publishPhase_spec.
    reflexivity.
Qed.

Lemma workerIteration_phases pkg w :
  workerIteration pkg w =
    logResult (fst (syncPackage pkg w)) (snd (syncPackage pkg w)).
Proof.
  unfold workerIteration, bind, logResult.
  now destruct (syncPackage pkg w) as [[e |] w1].
Qed.

(** What a step does to the reporter: the counter moves at an [LAdd] and
    at an [LDone], the queue at an [LSend] and at an [LRecv], and [done]
    at the [LClose]. *)
Lemma step_self st l st' :
  step st l st' ->
  self (the_world st') =
    match l with
    | LAdd _ => set_wg (wg (self (the_world st)) + 1) (self (the_world st))
    | LSend pkg =>
        set_workQueue (workQueue (self (the_world st)) ++ [pkg])
          (self (the_world st))
    | LRecv _ _ =>
        set_workQueue (tail (workQueue (self (the_world st))))
          (self (the_world st))
    | LDone _ _ => set_wg (wg (self (the_world st)) + -1) (self (the_world st))
    | LClose => set_done true (self (the_world st))
    | _ => self (the_world st)
    end.
Proof.
  intros Hstep.
  destruct Hstep; rewrite ?publishPhase_spec, ?logResult_spec; simpl;
    try reflexivity.
  - match goal with H : workQueue_send _ _ = _ |- _ =>
      apply workQueue_send_self in H; destruct H as (-> & _) end.
    reflexivity.
  - match goal with H : workQueue _ = _ |- _ => now rewrite H end.
  - match goal with H : close_done _ = _ |- _ =>
      apply close_done_spec in H; destruct H as [_ ->] end.
    reflexivity.
  - destruct (forEach_completeSession order (the_world st))
      as (_ & _ & _ & -> & _). reflexivity.
Qed.

(** What a step does to the calls issued: a publication at an [LCall],
    the completions at the [LComplete]. *)
Lemma step_rpcs st l st' :
  step st l st' ->
  match l with
  | LCall _ pkg =>
      exists session,
        syncSessionPool.getSession (sessions (self (the_world st)))
          (models.PackageManifest.Path (models.Package.Manifest pkg))
        = inr session
        /\ rpcs (the_world st') =
             rpcs (the_world st)
             ++ [PublishPackageInsight (toolServiceClient session)
                   (requestOf session pkg)]
  | LComplete _ =>
      exists attempted,
        rpcs (the_world st') = rpcs (the_world st) ++ (completeCall <$> attempted)
        /\ finish st = Closed
  | _ => rpcs (the_world st') = rpcs (the_world st)
  end.
Proof.
  intros Hstep.
  destruct Hstep; rewrite ?publishPhase_spec, ?logResult_spec; simpl;
    try reflexivity.
  - match goal with H : workQueue_send _ _ = _ |- _ =>
      apply workQueue_send_self in H; destruct H as (_ & -> & _) end.
    reflexivity.
  - eauto.
  - match goal with H : close_done _ = _ |- _ =>
      apply close_done_spec in H; destruct H as [_ ->] end.
    reflexivity.
  - destruct (forEach_completeSession order (the_world st))
      as (attempted & skipped & _ & _ & -> & _). eauto.
Qed.

(** No step writes to the pool. *)
Lemma step_sessions st l st' :
  step st l st' ->
  sessions (self (the_world st')) = sessions (self (the_world st)).
Proof.
  intros Hstep. rewrite (step_self _ _ _ Hstep). now destruct l.
Qed.

Lemma run_sessions st0 tr st :
  run st0 tr st ->
  sessions (self (the_world st)) = sessions (self (the_world st0)).
Proof.
  induction 1 as [| st0 tr st l st' _ IH Hstep]; [reflexivity |].
  now rewrite (step_sessions _ _ _ Hstep).
Qed.

(** The counter moves by one at an [LAdd] and at an [LDone] only. *)
Lemma step_wg st l st' :
  step st l st' ->
  wg (self (the_world st')) =
    wg (self (the_world st))
    + (if is_add l then 1 else 0) - (if is_done l then 1 else 0).
Proof.
  intros Hstep. rewrite (step_self _ _ _ Hstep). destruct l; simpl; lia.
Qed.

Lemma increments_snoc tr l :
  increments (tr ++ [l]) = increments tr + (if is_add l then 1 else 0).
Proof.
  unfold increments. rewrite filter_app, length_app.
  destruct l; simpl; lia.
Qed.

Lemma decrements_snoc tr l :
  decrements (tr ++ [l]) = decrements tr + (if is_done l then 1 else 0).
Proof.
  unfold decrements. rewrite filter_app, length_app.
  destruct l; simpl; lia.
Qed.

Lemma run_wg st0 tr st :
  run st0 tr st ->
  wg (self (the_world st)) =
    wg (self (the_world st0)) + increments tr - decrements tr.
Proof.
  induction 1 as [| st0 tr st l st' _ IH Hstep].
  - unfold increments, decrements. simpl. lia.
  - rewrite (step_wg _ _ _ Hstep), IH, increments_snoc, decrements_snoc. lia.
Qed.

(** [queuePackage] is an [LAdd] step followed, when the queue has room, by
    the [LSend] step of the same record; when the queue is full, the
    caller is blocked in the state the [LAdd] step has left, from which no
    send can complete. *)
Lemma queuePackage_steps st pkg :
  exists st1,
    step st (LAdd pkg) st1
    /\ the_world st1 = snd (wg_Add 1 (the_world st))
    /\ sending st1 = pkg :: sending st
    /\ match queuePackage pkg (the_world st) with
       | Returns _ w2 =>
           exists st2,
             step st1 (LSend pkg) st2
             /\ the_world st2 = w2
             /\ sending st2 = sending st
       | Blocks w1 =>
           the_world st1 = w1 /\ forall pkg' st2, ~ step st1 (LSend pkg') st2
       | Panics _ => False
       end.
Proof.
  eexists. split; [apply step_add |].
  split; [reflexivity |]. split; [reflexivity |].
  destruct (decide (length (workQueue (self (the_world st))) < workQueueCapacity)%nat)
    as [Hroom | Hfull].
  - rewrite queuePackage_room by exact Hroom.
    eexists. split.
    + eapply (step_send _ pkg [] (sending st)); [reflexivity |].
      unfold workQueue_send. simpl. case_decide; [reflexivity | contradiction].
    + now split.
  - rewrite queuePackage_full by lia. split; [reflexivity |].
    intros pkg' st2 Hstep.
    inversion Hstep as [| st1 pkg1 before after w1 Hs Hsend | | | | | | | | |];
      subst.
    apply workQueue_send_self in Hsend. destruct Hsend as (_ & _ & _ & Hroom).
    simpl in Hroom. lia.
Qed.

(** The steps of a worker that holds a record, from the lookup to the
    return to the [select], amount to [workerIteration]: [syncPackage] and
    the logging of its error.  The deferred [s.wg.Done()] runs once. *)
Lemma worker_turn st i pkg :
  workers st !! i = Some (Syncing pkg) ->
  exists tr st',
    run st tr st'
    /\ (tr = [LCall i pkg; LDone i pkg; LResolve i pkg]
        \/ tr = [LDone i pkg; LResolve i pkg])
    /\ the_world st' = snd (workerIteration pkg (the_world st))
    /\ workers st' = <[i := AtSelect]> (workers st)
    /\ sending st' = sending st
    /\ finish st' = finish st.
Proof.
  intros Hi. pose proof (lookup_lt_Some _ _ _ Hi) as Hlt.
  rewrite workerIteration_phases, syncPackage_phases.
  destruct (syncSessionPool.getSession (sessions (self (the_world st)))
              (models.PackageManifest.Path (models.Package.Manifest pkg)))
    as [err | session] eqn:Hget.
  - eexists [LDone i pkg; LResolve i pkg], _. split.
    + change [LDone i pkg; LResolve i pkg]
        with (([] ++ [LDone i pkg]) ++ [LResolve i pkg]).
      eapply run_snoc; [eapply run_snoc; [apply run_nil |] |].
      * eapply step_done_lookup; [exact Hi | exact Hget].
      * eapply step_resolve. simpl. now apply list_lookup_insert_eq.
    + split; [now right |]. simpl.
      rewrite list_insert_insert_eq. now repeat split.
  - eexists [LCall i pkg; LDone i pkg; LResolve i pkg], _. split.
    + change [LCall i pkg; LDone i pkg; LResolve i pkg]
        with ((([] ++ [LCall i pkg]) ++ [LDone i pkg]) ++ [LResolve i pkg]).
      eapply run_snoc; [eapply run_snoc; [eapply run_snoc; [apply run_nil |] |] |].
      * eapply step_call; [exact Hi | exact Hget].
      * eapply step_done_publish. simpl. now apply list_lookup_insert_eq.
      * eapply step_resolve. simpl. apply list_lookup_insert_eq.
        now rewrite length_insert.
    + split; [now left |]. simpl.
      rewrite !list_insert_insert_eq. now repeat split.
Qed.

End StepFacts.

Section DrainFacts.
Context `{!ModelsAPI} `{!ToolService}.

Lemma omap_insert_perm {A B} (f : A -> option B) ws : forall i g g',
  ws !! i = Some g ->
  omap f (<[i := g']> ws) ++ omap f [g] ≡ₚ omap f ws ++ omap f [g'].
Proof.
  induction ws as [| x ws IH]; intros i g g' Hi; [discriminate |].
  destruct i as [| i]; simpl in Hi.
  - injection Hi as ->. simpl.
    destruct (f g), (f g'); simpl; rewrite ?app_nil_r; solve_Permutation.
  - specialize (IH i g g' Hi). simpl in *.
    destruct (f x); simpl; [now rewrite IH | exact IH].
Qed.

Lemma syncing_insert_perm ws i g g' :
  ws !! i = Some g ->
  syncing (<[i := g']> ws) ++ syncing [g] ≡ₚ syncing ws ++ syncing [g'].
Proof. apply omap_insert_perm. Qed.

Lemma in_syncPackage_insert_perm ws i g g' :
  ws !! i = Some g ->
  in_syncPackage (<[i := g']> ws) ++ in_syncPackage [g]
    ≡ₚ in_syncPackage ws ++ in_syncPackage [g'].
Proof. apply omap_insert_perm. Qed.

Lemma past_lookup_insert_perm ws i g g' :
  ws !! i = Some g ->
  past_lookup (<[i := g']> ws) ++ past_lookup [g]
    ≡ₚ past_lookup ws ++ past_lookup [g'].
Proof. apply omap_insert_perm. Qed.

(** A worker that holds no record is in none of the phases. *)
Lemma syncing_nil ws :
  syncing ws = [] -> in_syncPackage ws = [] /\ past_lookup ws = [].
Proof.
  induction ws as [| g ws IH]; [now split |].
  destruct g; simpl; try discriminate; exact IH.
Qed.

(** The counter counts the records accepted for which [syncPackage] has
    not returned: those being sent, those in the queue and those of the
    workers that are in [syncPackage]. *)
Lemma step_pending st l st' :
  step st l st' ->
  wg (self (the_world st)) =
    Z.of_nat (length (workQueue (self (the_world st)))
              + length (sending st) + length (in_syncPackage (workers st))) ->
  wg (self (the_world st')) =
    Z.of_nat (length (workQueue (self (the_world st')))
              + length (sending st') + length (in_syncPackage (workers st'))).
Proof.
  intros Hstep Hinv. rewrite (step_self _ _ _ Hstep).
  destruct Hstep; simpl in *;
    try match goal with
        | H : workers _ !! _ = Some _ |- context [<[_ := ?g']> _] =>
            pose proof (in_syncPackage_insert_perm _ _ _ g' H) as Hlen;
            apply Permutation_length in Hlen;
            rewrite !length_app in Hlen; simpl in Hlen
        end;
    try lia.
  - match goal with H : sending st = _ |- _ => rewrite H in Hinv end.
    rewrite !length_app in *. simpl in *. lia.
  - match goal with H : workQueue _ = _ |- _ => rewrite H in Hinv |- * end.
    simpl in *. lia.
Qed.

Lemma run_pending st0 tr st :
  fresh st0 -> run st0 tr st ->
  wg (self (the_world st)) =
    Z.of_nat (length (workQueue (self (the_world st)))
              + length (sending st) + length (in_syncPackage (workers st))).
Proof.
  intros (Hwg & Hq & _ & Hs & Hsync & _) Hrun.
  induction Hrun as [| st0 tr st l st' _ IH Hstep].
  - apply syncing_nil in Hsync. destruct Hsync as [Hsync _].
    rewrite Hwg, Hq, Hs, Hsync. reflexivity.
  - eapply step_pending; [exact Hstep | now apply IH].
Qed.

Lemma added_snoc tr l :
  added (tr ++ [l]) = added tr ++ match l with LAdd pkg => [pkg] | _ => [] end.
Proof. unfold added. rewrite omap_app. now destruct l. Qed.

Lemma returned_snoc tr l :
  returned (tr ++ [l])
    = returned tr ++ match l with LDone _ pkg => [pkg] | _ => [] end.
Proof. unfold returned. rewrite omap_app. now destruct l. Qed.

(** Record by record: the records accepted are those for which
    [syncPackage] has returned and those the counter still counts. *)
Lemma step_accounted st l st' tr :
  step st l st' ->
  added tr ≡ₚ returned tr ++ in_syncPackage (workers st)
               ++ workQueue (self (the_world st)) ++ sending st ->
  added (tr ++ [l]) ≡ₚ returned (tr ++ [l]) ++ in_syncPackage (workers st')
                        ++ workQueue (self (the_world st')) ++ sending st'.
Proof.
  intros Hstep Hinv. rewrite added_snoc, returned_snoc, (step_self _ _ _ Hstep).
  destruct Hstep; simpl in *; rewrite ?app_nil_r;
    try match goal with
        | H : workers _ !! _ = Some _ |- context [<[_ := ?g']> _] =>
            pose proof (in_syncPackage_insert_perm _ _ _ g' H) as Hperm;
            simpl in Hperm; rewrite ?app_nil_r in Hperm
        end;
    try exact Hinv.
  - rewrite Hinv. solve_Permutation.
  - match goal with H : sending st = _ |- _ => rewrite H in Hinv end.
    rewrite Hinv. solve_Permutation.
  - match goal with H : workQueue _ = _ |- _ => rewrite H in Hinv |- * end.
    simpl. rewrite Hinv, Hperm. solve_Permutation.
  - apply Permutation_app_inv_r in Hperm. now rewrite Hinv, Hperm.
  - rewrite Hinv, <- Hperm. solve_Permutation.
  - rewrite Hinv, <- Hperm. solve_Permutation.
  - now rewrite Hinv, Hperm.
  - now rewrite Hinv, Hperm.
Qed.

Lemma run_accounted st0 tr st :
  fresh st0 -> run st0 tr st ->
  added tr ≡ₚ returned tr ++ in_syncPackage (workers st)
               ++ workQueue (self (the_world st)) ++ sending st.
Proof.
  intros (_ & Hq & _ & Hs & Hsync & _) Hrun.
  induction Hrun as [| st0 tr st l st' _ IH Hstep].
  - apply syncing_nil in Hsync. destruct Hsync as [Hsync _].
    rewrite Hq, Hs, Hsync. reflexivity.
  - eapply step_accounted; [exact Hstep | now apply IH].
Qed.

(** [Finish] gets past [s.wg.Wait()] in a state where as many records
    have been resolved as were accepted. *)
Lemma run_drained st0 tr st :
  fresh st0 -> run st0 tr st ->
  finish st <> NotDrained ->
  exists tr1 tr2,
    tr = tr1 ++ LWait :: tr2 /\ increments tr1 = decrements tr1.
Proof.
  intros Hfresh Hrun.
  induction Hrun as [| st0 tr st l st' Hrun IH Hstep]; intros Hfin.
  - destruct Hfresh as (_ & _ & _ & _ & _ & Hnot & _). contradiction.
  - assert (Hcases : finish st = NotDrained \/ finish st <> NotDrained).
    { destruct (finish st); [now left | right; discriminate ..]. }
    destruct Hcases as [Hnd | Hd].
    + assert (Hl : l = LWait /\ wg (self (the_world st)) = 0).
      { destruct Hstep; simpl in Hfin; try contradiction; try congruence.
        now split. }
      destruct Hl as [-> Hzero].
      exists tr, []. split; [reflexivity |].
      pose proof (run_wg _ _ _ Hrun) as Hwg.
      destruct Hfresh as (Hwg0 & _). lia.
    + destruct (IH Hfresh Hd) as (tr1 & tr2 & -> & Hbal).
      exists tr1, (tr2 ++ [l]). split; [| exact Hbal].
      now rewrite <- app_assoc.
Qed.

(** Completion calls are issued by the last step of [Finish] only. *)
Lemma step_completions st l st' :
  step st l st' ->
  (Exists (fun c => is_complete_call c = true) (rpcs (the_world st)) ->
   exists r, finish st = Finished r) ->
  Exists (fun c => is_complete_call c = true) (rpcs (the_world st')) ->
  exists r, finish st' = Finished r.
Proof.
  intros Hstep Hinv Hex. pose proof (step_rpcs _ _ _ Hstep) as Hr.
  destruct Hstep; simpl finish; simpl the_world in Hex, Hr;
    try (now eexists).
  4: { destruct Hr as (s & _ & Hr). rewrite Hr in Hex.
       apply Exists_app in Hex. destruct Hex as [Hex | Hex]; [now apply Hinv |].
       apply Exists_cons in Hex. destruct Hex as [Hex | Hex].
       - discriminate Hex.
       - now apply Exists_nil in Hex. }
  all: try rewrite Hr in Hex; destruct (Hinv Hex) as [r Hf];
    first [congruence | eauto].
Qed.

Lemma run_completions st0 tr st :
  fresh st0 -> run st0 tr st ->
  Exists (fun c => is_complete_call c = true) (rpcs (the_world st)) ->
  exists r, finish st = Finished r.
Proof.
  intros Hfresh Hrun.
  induction Hrun as [| st0 tr st l st' Hrun IH Hstep].
  - destruct Hfresh as (_ & _ & _ & _ & _ & _ & Hnone).
    intros Hex. exfalso.
    apply Exists_exists in Hex. destruct Hex as (c & Hin & Hc).
    rewrite Forall_forall in Hnone. specialize (Hnone c Hin). congruence.
  - apply (step_completions _ _ _ Hstep). now apply IH.
Qed.

End DrainFacts.

Section PendingCounter.
Context `{!ModelsAPI} `{!ToolService}.

Lemma syncPackage_self pkg w :
  self (snd (syncPackage pkg w)) = set_wg (wg (self w) - 1) (self w).
Proof.
  rewrite syncPackage_phases.
  destruct (syncSessionPool.getSession (sessions (self w))
              (models.PackageManifest.Path (models.Package.Manifest pkg)))
    as [err | session]; rewrite ?publishPhase_spec; reflexivity.
Qed.

Lemma Finish_blocked order w :
  wg (self w) <> 0 -> Finish order w = Blocks w.
Proof. intros Hwg. unfold Finish. now case_decide. Qed.

(** C4. [queuePackage] adds one to the pending counter before it sends,
    whether or not the send can complete, and [syncPackage] takes one off,
    whatever its outcome (no session, publication refused, publication
    accepted), and changes nothing else of the reporter.  In the running
    system [queuePackage] is the [LAdd] step followed by the [LSend] step
    of the record, and the steps of a worker that holds a record amount to
    [syncPackage] and the logging of its error, with one decrement.  Along
    every run of a fresh reporter the counter moves at these steps only,
    it is the number of increments minus the number of decrements, the
    records accepted are those for which [syncPackage] has returned and
    those being sent, queued or in [syncPackage], the counter counts the
    latter, and it is never negative.  [Finish] gets past the wait only
    with the counter at zero, when the increments equal the decrements and
    no accepted record is left; it is blocked before, and no completion
    call is issued before [Finish] has got past it. *)
Theorem pending_counter_balanced st0 tr st :
  fresh st0 ->
  run st0 tr st ->
  (forall pkg w,
     queuePackage pkg w =
       if decide (length (workQueue (self w)) < workQueueCapacity)%nat
       then Returns tt
              (mkWorld
                 (mkReporter (config (self w)) (workQueue (self w) ++ [pkg])
                    (done (self w)) (wg (self w) + 1) (sessions (self w)))
                 (rpcs w) (logs w))
       else Blocks
              (mkWorld (set_wg (wg (self w) + 1) (self w)) (rpcs w) (logs w)))
  /\ (forall pkg w,
        self (snd (syncPackage pkg w)) = set_wg (wg (self w) - 1) (self w))
  /\ (forall pkg,
        exists st1,
          step st (LAdd pkg) st1
          /\ the_world st1 = snd (wg_Add 1 (the_world st))
          /\ sending st1 = pkg :: sending st
          /\ match queuePackage pkg (the_world st) with
             | Returns _ w2 =>
                 exists st2,
                   step st1 (LSend pkg) st2
                   /\ the_world st2 = w2
                   /\ sending st2 = sending st
             | Blocks w1 =>
                 the_world st1 = w1
                 /\ forall pkg' st2, ~ step st1 (LSend pkg') st2
             | Panics _ => False
             end)
  /\ (forall i pkg,
        workers st !! i = Some (Syncing pkg) ->
        exists tr' st',
          run st tr' st'
          /\ increments tr' = 0
          /\ decrements tr' = 1
          /\ returned tr' = [pkg]
          /\ the_world st' = snd (workerIteration pkg (the_world st))
          /\ workers st' = <[i := AtSelect]> (workers st))
  /\ (forall l st',
        step st l st' ->
        wg (self (the_world st')) =
          wg (self (the_world st))
          + (if is_add l then 1 else 0) - (if is_done l then 1 else 0))
  /\ wg (self (the_world st)) = increments tr - decrements tr
  /\ added tr ≡ₚ returned tr ++ in_syncPackage (workers st)
                  ++ workQueue (self (the_world st)) ++ sending st
  /\ wg (self (the_world st)) =
       Z.of_nat (length (workQueue (self (the_world st)))
                 + length (sending st) + length (in_syncPackage (workers st)))
  /\ 0 <= wg (self (the_world st))
  /\ (forall st', step st LWait st' ->
        increments tr = decrements tr
        /\ added tr ≡ₚ returned tr
        /\ workQueue (self (the_world st)) = []
        /\ sending st = []
        /\ in_syncPackage (workers st) = [])
  /\ (forall order, wg (self (the_world st)) <> 0 ->
        Finish order (the_world st) = Blocks (the_world st))
  /\ (finish st <> NotDrained ->
      exists tr1 tr2,
        tr = tr1 ++ LWait :: tr2 /\ increments tr1 = decrements tr1)
  /\ (Exists (fun c => is_complete_call c = true) (rpcs (the_world st)) ->
      exists r, finish st = Finished r).
Proof.
  intros Hfresh Hrun.
  pose proof (run_wg _ _ _ Hrun) as Hwg.
  pose proof (run_pending _ _ _ Hfresh Hrun) as Hpending.
  pose proof (run_accounted _ _ _ Hfresh Hrun) as Hacc.
  assert (Hzero : wg (self (the_world st0)) = 0) by apply Hfresh.
  split.
  { intros pkg w. case_decide.
    - now apply queuePackage_room.
    - apply queuePackage_full. lia. }
  split; [apply syncPackage_self |].
  split; [intros pkg; apply queuePackage_steps |].
  split.
  { intros i pkg Hi.
    destruct (worker_turn st i pkg Hi)
      as (tr' & st' & Hrun' & Htr & Hw & Hws & _).
    exists tr', st'. split; [exact Hrun' |].
    destruct Htr as [-> | ->]; now repeat split. }
  split; [apply step_wg |].
  split; [lia |].
  split; [exact Hacc |].
  split; [exact Hpending |].
  split; [lia |].
  split.
  { intros st' Hstep.
    assert (Hw : wg (self (the_world st)) = 0) by (inversion Hstep; assumption).
    rewrite Hw in Hpending.
    destruct (workQueue (self (the_world st))), (sending st),
      (in_syncPackage (workers st)); simpl in Hpending; try lia.
    rewrite !app_nil_r in Hacc.
    split; [lia |]. now repeat split. }
  split; [intros order; apply Finish_blocked |].
  split; [now apply (run_drained st0) |].
  now apply (run_completions st0 tr).
Qed.

End PendingCounter.

(** A concrete run, for the properties of runs. *)
Lemma scenario_fresh : fresh Scenario.system_primary.
Proof. repeat split; try reflexivity. constructor. Qed.

Ltac one_resolved_run :=
  unfold Scenario.one_resolved;
  eapply run_snoc; [eapply run_snoc; [eapply run_snoc; [eapply run_snoc;
    [eapply run_snoc; [eapply run_snoc; [apply run_nil |] |] |] |] |] |];
  [ apply step_add
  | eapply (step_send _ _ [] []); reflexivity
  | eapply step_recv; reflexivity
  | eapply step_call; reflexivity
  | eapply step_done_publish; reflexivity
  | eapply step_resolve; reflexivity ].

Ltac one_record_run :=
  unfold Scenario.one_record;
  eapply run_snoc; [one_resolved_run | eapply step_wait; reflexivity].

Lemma scenario_run :
  exists st,
    @run Scenario.models_api Scenario.service_ok
      Scenario.system_primary Scenario.one_record st.
Proof. eexists. one_record_run. Qed.

Lemma pending_counter_balanced_witness :
  exists st,
    @run Scenario.models_api Scenario.service_ok
      Scenario.system_primary Scenario.one_record st
    /\ increments Scenario.one_record = 1
    /\ decrements Scenario.one_record = 1
    /\ wg (self (the_world st)) = 0
    /\ finish st = Drained.
Proof.
  eexists. split; [one_record_run |].
  split; [reflexivity |]. split; [reflexivity |].
  split; [| reflexivity].
  match goal with |- wg (self (the_world ?s)) = 0 =>
    destruct (@pending_counter_balanced Scenario.models_api Scenario.service_ok
                Scenario.system_primary Scenario.one_record s scenario_fresh)
      as (_ & _ & _ & _ & _ & Hwg & _)
  end.
  - one_record_run.
  - exact Hwg.
Defined.

(** ** Construction *)

Section ConstructionFacts.
Context `{!ModelsAPI} `{!ToolService} `{!Platform}.

Lemma syncing_replicate n : syncing (replicate n AtSelect) = [].
Proof. induction n as [| n IH]; [reflexivity | exact IH]. Qed.

Lemma startReporter_fresh cfg pool issued logged :
  Forall (fun c => is_complete_call c = false) issued ->
  fresh (startReporter cfg pool issued logged).
Proof.
  intros Hissued. unfold fresh, startReporter. simpl.
  repeat split; try reflexivity; [apply syncing_replicate | exact Hissued].
Qed.

(** In multi-project mode the constructor neither calls the service nor
    writes to the pool. *)
Lemma NewSyncReporter_multi cfg st :
  EnableMultiProjectSync cfg = true ->
  NewSyncReporter cfg = inr st ->
  exists logged, st = startReporter cfg ∅ [] logged.
Proof.
  intros Hmulti. unfold NewSyncReporter. rewrite Hmulti. simpl.
  destruct (url_Parse (ControlTowerBaseUrl cfg)) as [err | [host port]];
    [discriminate |].
  destruct (drygrpc_GrpcClient _ _ _ _ _) as [err | client]; [discriminate |].
  intros [= <-]. eauto.
Qed.

(** With an empty pool no step issues a call. *)
Lemma step_rpcs_empty_pool st l st' :
  sessions (self (the_world st)) = ∅ ->
  step st l st' ->
  rpcs (the_world st') = rpcs (the_world st).
Proof.
  intros Hempty Hstep. pose proof (step_rpcs _ _ _ Hstep) as Hr.
  destruct l; try exact Hr.
  - destruct Hr as (session & Hget & _).
    rewrite Hempty, getSession_empty in Hget. discriminate Hget.
  - inversion Hstep; subst.
    match goal with Ho : syncSessionPool.range_order _ _ |- _ =>
      unfold syncSessionPool.range_order in Ho;
      rewrite Hempty, map_to_list_empty in Ho;
      apply Permutation_nil_r in Ho; subst order end.
    reflexivity.
Qed.

Lemma run_rpcs_empty_pool st0 tr st :
  sessions (self (the_world st0)) = ∅ ->
  run st0 tr st ->
  rpcs (the_world st) = rpcs (the_world st0).
Proof.
  intros Hempty Hrun.
  induction Hrun as [| st0 tr st l st' Hrun IH Hstep]; [reflexivity |].
  rewrite <- (IH Hempty).
  apply (step_rpcs_empty_pool _ _ _ (eq_trans (run_sessions _ _ _ Hrun) Hempty) Hstep).
Qed.

(** C2. A reporter constructed with [EnableMultiProjectSync] starts with an
    empty pool and without having called the service.  No step of the
    running system installs a session, so at every later moment the lookup
    of every key fails with the session-not-found error, every record a
    worker receives is dropped ([syncPackage] returns that error, wrapped,
    the worker logs it, and nothing is published), and no call reaches the
    service. *)
Theorem multi_project_sync_drops_every_record cfg st :
  EnableMultiProjectSync cfg = true ->
  NewSyncReporter cfg = inr st ->
  sessions (self (the_world st)) = ∅
  /\ rpcs (the_world st) = []
  /\ forall tr st', run st tr st' ->
       let w := the_world st' in
       sessions (self w) = ∅
       /\ rpcs w = []
       /\ (forall key,
             syncSessionPool.getSession (sessions (self w)) key
               = inl (SessionNotFound key))
       /\ forall pkg,
            let failure :=
              Wrap ("failed to get session for package: " +:+ package_label pkg)
                (SessionNotFound
                   (models.PackageManifest.Path (models.Package.Manifest pkg))) in
            fst (syncPackage pkg w) = Some failure
            /\ rpcs (snd (workerIteration pkg w)) = []
            /\ logs (snd (workerIteration pkg w)) =
                 logs w ++ [(LevelError,
                             "failed to sync package: " +:+ error_string failure)].
Proof.
  intros Hmulti Hnew.
  destruct (NewSyncReporter_multi cfg st Hmulti Hnew) as [logged ->].
  split; [reflexivity |]. split; [reflexivity |].
  intros tr st' Hrun w. subst w.
  assert (Hpool : sessions (self (the_world st')) = ∅).
  { now rewrite (run_sessions _ _ _ Hrun). }
  assert (Hrpcs : rpcs (the_world st') = []).
  { now rewrite (run_rpcs_empty_pool (startReporter cfg ∅ [] logged) tr st'
                   eq_refl Hrun). }
  split; [exact Hpool |]. split; [exact Hrpcs |].
  split; [intros key; rewrite Hpool; apply getSession_empty |].
  intros pkg failure. subst failure.
  assert (Hget : syncSessionPool.getSession (sessions (self (the_world st')))
                   (models.PackageManifest.Path (models.Package.Manifest pkg))
                 = inl (SessionNotFound
                          (models.PackageManifest.Path (models.Package.Manifest pkg)))).
  { rewrite Hpool. apply getSession_empty. }
  unfold workerIteration, bind.
  rewrite (syncPackage_no_session pkg _ _ Hget). simpl.
  now rewrite Hrpcs.
Qed.

End ConstructionFacts.

Lemma multi_project_sync_drops_every_record_witness :
  exists st,
    @NewSyncReporter Scenario.service_ok Scenario.platform (Scenario.cfg true)
      = inr st
    /\ length (workers st) = 10%nat
    /\ sessions (self (the_world st)) = ∅
    /\ rpcs (the_world st) = [].
Proof.
  eexists. split; [reflexivity |]. split; [reflexivity |].
  match goal with |- sessions (self (the_world ?s)) = ∅ /\ _ =>
    destruct (@multi_project_sync_drops_every_record
                Scenario.models_api Scenario.service_ok Scenario.platform
                (Scenario.cfg true) s eq_refl eq_refl) as (Hs & Hr & _)
  end.
  split; [exact Hs | exact Hr].
Defined.

(** ** The worker loop *)

Section WorkerFacts.
Context `{!ModelsAPI} `{!ToolService}.

(** [syncPackage] itself logs nothing at error level. *)
Lemma syncPackage_error_lines pkg w :
  error_lines (logs (snd (syncPackage pkg w))) = error_lines (logs w).
Proof.
  destruct (syncSessionPool.getSession (sessions (self w))
              (models.PackageManifest.Path (models.Package.Manifest pkg)))
    as [err | session] eqn:Hget.
  - now rewrite (syncPackage_no_session pkg w err Hget).
  - rewrite (syncPackage_session pkg w session Hget). simpl.
    unfold error_lines. rewrite filter_app.
    destruct (GetDependencies pkg); simpl; now rewrite app_nil_r.
Qed.

Lemma workerIteration_logs pkg w :
  logs (snd (workerIteration pkg w)) =
    logs (snd (syncPackage pkg w))
    ++ match fst (syncPackage pkg w) with
       | Some e => [(LevelError, "failed to sync package: " +:+ error_string e)]
       | None => []
       end.
Proof.
  unfold workerIteration, bind.
  destruct (syncPackage pkg w) as [[e |] w1]; simpl;
    [reflexivity | now rewrite app_nil_r].
Qed.

Lemma syncReportWorker_work pkg rest w :
  syncReportWorker (RecvWork pkg :: rest) w
    = syncReportWorker rest (snd (workerIteration pkg w)).
Proof.
  simpl. unfold bind. now destruct (workerIteration pkg w).
Qed.

Lemma syncReportWorker_status received : forall w,
  fst (syncReportWorker received w) = Returned <-> RecvDone ∈ received.
Proof.
  induction received as [| [pkg |] rest IH]; intros w.
  - simpl. split; [discriminate | intros Hin; inversion Hin].
  - rewrite syncReportWorker_work, IH. rewrite elem_of_cons.
    split; [tauto | intros [Heq | Hin]; [discriminate | exact Hin]].
  - simpl. split; [intros _; constructor | reflexivity].
Qed.

Lemma syncReportWorker_wg received : forall w,
  wg (self (snd (syncReportWorker received w)))
    = wg (self w) - Z.of_nat (length (processed received)).
Proof.
  induction received as [| [pkg |] rest IH]; intros w.
  - simpl. lia.
  - rewrite syncReportWorker_work, IH, workerIteration_self. simpl. lia.
  - simpl. lia.
Qed.

Lemma syncReportWorker_error_lines received : forall w,
  error_lines (logs (snd (syncReportWorker received w)))
    = error_lines (logs w)
      ++ ((fun e => (LevelError, "failed to sync package: " +:+ error_string e))
            <$> failures received w).
Proof.
  induction received as [| [pkg |] rest IH]; intros w.
  - simpl. now rewrite app_nil_r.
  - rewrite syncReportWorker_work, IH, workerIteration_logs.
    unfold error_lines at 1. rewrite filter_app.
    fold (error_lines (logs (snd (syncPackage pkg w)))).
    rewrite syncPackage_error_lines. simpl failures.
    rewrite fmap_app, app_assoc. f_equal. f_equal.
    destruct (fst (syncPackage pkg w)); reflexivity.
  - simpl. now rewrite app_nil_r.
Qed.

(** C9. A worker returns exactly when one of its [select]s has received
    from [done].  Every record received before that is passed to
    [syncPackage], whatever the earlier records resulted in; each error
    returned by [syncPackage] is logged at error level, and the loop goes
    on with the next [select].  In the running system a worker becomes
    exited only by the step that receives from [done], which needs [done]
    closed; the step that resolves a record brings the worker back to its
    [select]. *)
Theorem worker_returns_only_on_done received w :
  (fst (syncReportWorker received w) = Returned <-> RecvDone ∈ received)
  /\ wg (self (snd (syncReportWorker received w)))
       = wg (self w) - Z.of_nat (length (processed received))
  /\ error_lines (logs (snd (syncReportWorker received w)))
       = error_lines (logs w)
         ++ ((fun e => (LevelError, "failed to sync package: " +:+ error_string e))
               <$> failures received w)
  /\ (forall pkg rest,
        syncReportWorker (RecvWork pkg :: rest) w
          = syncReportWorker rest (snd (workerIteration pkg w)))
  /\ (forall pkgs,
        fst (syncReportWorker (RecvWork <$> pkgs) w) = Looping
        /\ processed (RecvWork <$> pkgs) = pkgs)
  /\ (forall st l st' i,
        step st l st' ->
        workers st !! i <> Some Exited ->
        workers st' !! i = Some Exited ->
        l = LExit i /\ done (self (the_world st)) = true)
  /\ (forall st i pkg st',
        step st (LResolve i pkg) st' -> workers st' !! i = Some AtSelect).
Proof.
  split; [apply syncReportWorker_status |].
  split; [apply syncReportWorker_wg |].
  split; [apply syncReportWorker_error_lines |].
  split; [intros pkg rest; apply syncReportWorker_work |].
  split.
  { intros pkgs. split.
    - destruct (fst (syncReportWorker (RecvWork <$> pkgs) w)) eqn:Hst;
        [reflexivity |].
      apply syncReportWorker_status in Hst.
      apply list_elem_of_fmap in Hst. destruct Hst as (pkg & Heq & _).
      discriminate Heq.
    - induction pkgs as [| pkg pkgs IH]; [reflexivity |].
      rewrite fmap_cons. simpl processed. now rewrite IH. }
  split.
  - intros st l st' i Hstep Hbefore Hafter.
    destruct Hstep; simpl in Hafter; try contradiction.
    all: match goal with Hw : workers _ !! ?j = Some _ |- _ =>
           destruct (decide (j = i)) as [-> | Hne];
           [ rewrite list_lookup_insert_eq in Hafter
               by (eapply lookup_lt_Some; eauto);
             first [discriminate Hafter | now split]
           | rewrite list_lookup_insert_ne in Hafter by exact Hne;
             contradiction ]
         end.
  - intros st i pkg st' Hstep.
    inversion Hstep; subst. simpl.
    apply list_lookup_insert_eq. eapply lookup_lt_Some; eauto.
Qed.

(** C10. [AddAnalyzerEvent] and [AddPolicyEvent] return at once: whatever
    the event, the reporter (configuration, work queue, [done], pending
    counter, pool) is left as it was, and so are the calls issued and the
    lines logged. *)
Theorem event_hooks_do_nothing {AnalyzerEvent PolicyEvent : Type}
    (analyzerEvent : option AnalyzerEvent) (policyEvent : option PolicyEvent)
    (w : world) :
  AddAnalyzerEvent analyzerEvent w = (tt, w)
  /\ AddPolicyEvent policyEvent w = (tt, w)
  /\ workQueue (self (snd (AddAnalyzerEvent analyzerEvent w))) = workQueue (self w)
  /\ workQueue (self (snd (AddPolicyEvent policyEvent w))) = workQueue (self w).
Proof. repeat split. Qed.

End WorkerFacts.

(** * Further properties of the reporter *)

(** ** Keyed sessions *)

Section KeyedSessionFacts.
Import syncSessionPool.

(** X1. Without a wildcard, a session added under a key other than ["*"]
    is the one found under that key, the lookups of the other keys are as
    before, and a second write under the key replaces the first. *)
Theorem addKeyedSession_lookup (s : gmap string syncSession)
    (key sid : string) (client : ToolServiceClient) :
  s !! "*" = None ->
  key <> "*" ->
  getSession (addKeyedSession key sid client s) key = inr (mkSession sid client)
  /\ (forall key', key' <> key ->
        getSession (addKeyedSession key sid client s) key' = getSession s key')
  /\ (forall sid' client',
        getSession
          (addKeyedSession key sid' client' (addKeyedSession key sid client s))
          key = inr (mkSession sid' client')).
Proof.
  intros Hw Hkey. unfold addKeyedSession.
  assert (Hw' : forall x (m : gmap string syncSession),
            m !! "*" = None -> <[key := x]> m !! "*" = None).
  { intros x m Hm. now rewrite lookup_insert_ne. }
  split; [| split].
  - apply getSession_exact; [now apply Hw' | apply lookup_insert_eq].
  - intros key' Hne. unfold getSession.
    rewrite (Hw' _ _ Hw), Hw. now rewrite lookup_insert_ne.
  - intros sid' client'.
    apply getSession_exact; [now apply Hw', Hw' | apply lookup_insert_eq].
Qed.

(** X2. The key ["*"] is not reserved: a keyed session added under it is a
    wildcard session, returned from then on by the lookup of every key,
    whatever the pool held. *)
Theorem addKeyedSession_star (s : gmap string syncSession)
    (sid : string) (client : ToolServiceClient) (key : string) :
  getSession (addKeyedSession "*" sid client s) key = inr (mkSession sid client)
  /\ addKeyedSession "*" sid client s = addPrimarySession sid client s.
Proof.
  split; [| reflexivity].
  apply getSession_wildcard. apply lookup_insert_eq.
Qed.

End KeyedSessionFacts.

Lemma addKeyedSession_lookup_witness :
  syncSessionPool.getSession
    (syncSessionPool.addKeyedSession "a/go.mod" "session-a" 1%nat ∅) "a/go.mod"
    = inr (mkSession "session-a" 1%nat).
Proof.
  apply (addKeyedSession_lookup ∅ "a/go.mod" "session-a" 1%nat).
  - reflexivity.
  - discriminate.
Defined.

(** ** More of the published request *)

Section RequestFacts.
Context `{!ModelsAPI} `{!ToolService}.

Import controltowerv1.

Lemma identityOf_update_insight f req :
  identityOf (update_insight f req) = identityOf req.
Proof. reflexivity. Qed.

Lemma identityOf_range_update {A}
    (body : PublishPackageInsightRequest.t -> A -> PublishPackageInsightRequest.t)
    (l : list A) :
  (forall req x, identityOf (body req x) = identityOf req) ->
  forall req, identityOf (foldl body req l) = identityOf req.
Proof.
  intros Hbody. induction l as [| x l IH]; intros req; [reflexivity |].
  simpl. now rewrite IH, Hbody.
Qed.

Lemma identityOf_requestOf session pkg :
  identityOf (requestOf session pkg) = identityOf (newRequest session pkg).
Proof.
  unfold requestOf, range_update.
  now rewrite !identityOf_range_update by (intros; reflexivity).
Qed.

(** X3. The request published for a record names the session found for
    it, the manifest (ecosystem code, the manifest path as namespace, the
    display path as name) and the package version (ecosystem code, the
    [Name] and [Version] fields of the record); the enrichment loops leave
    them alone. *)
Theorem published_request_identity pkg w session :
  routed w pkg session ->
  exists req,
    published w (snd (syncPackage pkg w)) (toolServiceClient session) req
    /\ PublishPackageInsightRequest.ToolSession req
         = Some (ToolSession.mk (sessionId session))
    /\ PublishPackageInsightRequest.Manifest req
         = Some (packagev1.PackageManifest.mk
                   (GetControlTowerSpecEcosystem (models.Package.Manifest pkg))
                   (Some (models.PackageManifest.Path (models.Package.Manifest pkg)))
                   (GetDisplayPath (models.Package.Manifest pkg)))
    /\ PublishPackageInsightRequest.PackageVersion req
         = Some (packagev1.PackageVersion.mk
                   (Some (packagev1.Package.mk
                            (GetControlTowerSpecEcosystem
                               (models.Package.Manifest pkg))
                            (models.Package.Name pkg)))
                   (models.Package.Version pkg)).
Proof.
  intros Hr. exists (requestOf session pkg).
  split; [now apply syncPackage_published |].
  pose proof (identityOf_requestOf session pkg) as Hid.
  unfold identityOf in Hid. simpl in Hid.
  injection Hid as Hts Hm Hpv. now rewrite Hts, Hm, Hpv.
Qed.

(** X4. The request published for a record carries one license entry per
    license of the record, in order, with the license string as both
    identifier and name. *)
Theorem licenses_translated pkg w session :
  routed w pkg session ->
  exists req out,
    published w (snd (syncPackage pkg w)) (toolServiceClient session) req
    /\ licenseList req = Some (mk_slice out)
    /\ length out = length (licensesOf pkg)
    /\ forall i (license : insightapi.License),
         licensesOf pkg !! i = Some license ->
         out !! i = Some (packagev1.LicenseMeta.mk license license).
Proof.
  intros Hr.
  exists (requestOf session pkg), (newLicenseMeta <$> licensesOf pkg).
  split; [now apply syncPackage_published |].
  split; [apply requestOf_licenseList |].
  split; [apply length_fmap |].
  intros i license Hl. now rewrite list_lookup_fmap, Hl.
Qed.

End RequestFacts.

Lemma published_request_identity_witness :
  exists req,
    published Scenario.world_primary
      (snd (@syncPackage Scenario.models_api Scenario.service_ok
              Scenario.app Scenario.world_primary))
      1%nat req
    /\ controltowerv1.PublishPackageInsightRequest.ToolSession req
         = Some (controltowerv1.ToolSession.mk "session-1").
Proof.
  destruct (@published_request_identity
              Scenario.models_api Scenario.service_ok
              Scenario.app Scenario.world_primary Scenario.primary)
    as (req & Hpub & Hts & _).
  - reflexivity.
  - exists req. split; [exact Hpub | exact Hts].
Defined.

Lemma licenses_translated_witness :
  exists req out,
    published Scenario.world_primary
      (snd (@syncPackage Scenario.models_api Scenario.service_ok
              Scenario.app Scenario.world_primary))
      1%nat req
    /\ @licenseList req = Some (mk_slice out)
    /\ out !! 0%nat = Some (packagev1.LicenseMeta.mk "MIT" "MIT").
Proof.
  destruct (@licenses_translated
              Scenario.models_api Scenario.service_ok
              Scenario.app Scenario.world_primary Scenario.primary)
    as (req & out & Hpub & Hlist & _ & Hentry).
  - reflexivity.
  - exists req, out. split; [exact Hpub |]. split; [exact Hlist |].
    apply Hentry. reflexivity.
Defined.

(** ** What [syncPackage] leaves alone *)

Section SyncPackageFrame.
Context `{!ModelsAPI} `{!ToolService}.

(** X5. [syncPackage] changes nothing of the reporter but the pending
    counter: the configuration, the work queue (a record whose publication
    failed is not put back), [done] and the pool are as before.  It issues
    at most one call, a publication, and never a second attempt. *)
Theorem syncPackage_frame pkg w :
  let w' := snd (syncPackage pkg w) in
  config (self w') = config (self w)
  /\ workQueue (self w') = workQueue (self w)
  /\ done (self w') = done (self w)
  /\ sessions (self w') = sessions (self w)
  /\ exists issued,
       rpcs w' = rpcs w ++ issued
       /\ (length issued <= 1)%nat
       /\ Forall (fun c => is_publish_call c = true) issued
       /\ (issued = [] <->
           exists err,
             syncSessionPool.getSession (sessions (self w))
               (models.PackageManifest.Path (models.Package.Manifest pkg))
             = inl err).
Proof.
  intros w'. subst w'.
  destruct (syncSessionPool.getSession (sessions (self w))
              (models.PackageManifest.Path (models.Package.Manifest pkg)))
    as [err | session] eqn:Hget.
  - rewrite (syncPackage_no_session pkg w err Hget). simpl.
    repeat (split; [reflexivity |]).
    exists []. rewrite app_nil_r.
    repeat split; eauto.
  - rewrite (syncPackage_session pkg w session Hget). simpl.
    repeat (split; [reflexivity |]).
    eexists. split; [reflexivity |]. split; [simpl; lia |].
    split; [repeat constructor |].
    split; [discriminate | intros [err Herr]; discriminate].
Qed.

(** X6. The error of [syncPackage] tells what happened.  It is nil exactly
    when a session was found and the service accepted the publication.
    Otherwise it wraps either the session-not-found error of the manifest
    path, and then nothing was sent, or the error the service gave to the
    publication. *)
Theorem syncPackage_error pkg w :
  let result := fst (syncPackage pkg w) in
  let w' := snd (syncPackage pkg w) in
  let path := models.PackageManifest.Path (models.Package.Manifest pkg) in
  (result = None <->
     exists session,
       routed w pkg session
       /\ PublishPackageInsight_response (rpcs w) (toolServiceClient session)
            (requestOf session pkg) = None)
  /\ (forall e, result = Some e ->
        (e = Wrap ("failed to get session for package: " +:+ package_label pkg)
               (SessionNotFound path)
         /\ rpcs w' = rpcs w
         /\ sessions (self w) !! "*" = None
         /\ sessions (self w) !! path = None)
        \/ (exists session cause,
              routed w pkg session
              /\ PublishPackageInsight_response (rpcs w)
                   (toolServiceClient session) (requestOf session pkg)
                 = Some cause
              /\ e = Wrap "failed to publish package insight" cause
              /\ root_cause e = root_cause cause)).
Proof.
  intros result w' path. subst result w' path. unfold routed.
  destruct (syncSessionPool.getSession (sessions (self w))
              (models.PackageManifest.Path (models.Package.Manifest pkg)))
    as [err | session] eqn:Hget.
  - rewrite (syncPackage_no_session pkg w err Hget). simpl.
    split.
    + split; [discriminate | intros (session & Hs & _); discriminate].
    + intros e [= <-]. left.
      unfold syncSessionPool.getSession in Hget.
      destruct (sessions (self w) !! "*"); [discriminate |].
      destruct (sessions (self w) !! _); [discriminate |].
      injection Hget as <-. now repeat split.
  - rewrite (syncPackage_session pkg w session Hget). simpl.
    split.
    + split.
      * intros Hres. exists session. split; [reflexivity |].
        destruct (PublishPackageInsight_response _ _ _); [discriminate | reflexivity].
      * intros (session' & [= <-] & Hresp). now rewrite Hresp.
    + intros e He. right.
      destruct (PublishPackageInsight_response (rpcs w) (toolServiceClient session)
                  (requestOf session pkg)) as [cause |] eqn:Hresp;
        [| discriminate].
      injection He as <-. exists session, cause. now repeat split.
Qed.

End SyncPackageFrame.

(** ** Records along a run *)

Section QueueFacts.
Context `{!ModelsAPI} `{!ToolService}.

(** The queue never holds more than its capacity. *)
Lemma step_capacity st l st' :
  step st l st' ->
  (length (workQueue (self (the_world st))) <= workQueueCapacity)%nat ->
  (length (workQueue (self (the_world st'))) <= workQueueCapacity)%nat.
Proof.
  intros Hstep Hinv. rewrite (step_self _ _ _ Hstep).
  destruct Hstep; simpl; try exact Hinv.
  - match goal with H : workQueue_send _ _ = _ |- _ =>
      apply workQueue_send_self in H; destruct H as (_ & _ & _ & Hroom) end.
    rewrite length_app. simpl. lia.
  - match goal with H : workQueue _ = _ |- _ => rewrite H in Hinv |- * end.
    simpl in *. lia.
Qed.

Lemma run_capacity st0 tr st :
  fresh st0 -> run st0 tr st ->
  (length (workQueue (self (the_world st))) <= workQueueCapacity)%nat.
Proof.
  intros Hfresh Hrun.
  induction Hrun as [| st0 tr st l st' _ IH Hstep].
  - destruct Hfresh as (_ & -> & _). simpl. lia.
  - eapply step_capacity; [exact Hstep | now apply IH].
Qed.

(** Submissions that fit in the queue all complete. *)
Lemma run_submissions n pkg st :
  (length (workQueue (self (the_world st))) + n <= workQueueCapacity)%nat ->
  exists st',
    run st (submissions n pkg) st'
    /\ workQueue (self (the_world st'))
       = workQueue (self (the_world st)) ++ replicate n pkg
    /\ wg (self (the_world st')) = wg (self (the_world st)) + Z.of_nat n.
Proof.
  induction n as [| n IH]; intros Hroom.
  - exists st. split; [apply run_nil |]. simpl.
    rewrite app_nil_r. split; [reflexivity | lia].
  - destruct IH as (st' & Hrun & Hq & Hwg); [lia |].
    destruct (queuePackage_steps st' pkg) as (st1 & Hadd & _ & _ & Hsend).
    rewrite queuePackage_room in Hsend
      by (rewrite Hq, length_app, length_replicate; lia).
    destruct Hsend as (st2 & Hsend & Hw2 & _).
    exists st2. split.
    + simpl. eapply run_snoc; [eapply run_snoc; [exact Hrun | exact Hadd] |].
      exact Hsend.
    + rewrite Hw2. simpl. rewrite Hq, Hwg, <- app_assoc.
      split; [| lia].
      f_equal. exact (eq_sym (replicate_S_end n pkg)).
Qed.

(** X7. The work queue of a running reporter never holds more than 1000
    records.  While it holds fewer, [queuePackage] returns, with the
    pending counter raised by one and the record at the end of the queue.
    When it holds 1000, no send can complete: [queuePackage] raises the
    pending counter and stays blocked in the send, and so does the system
    after the [LAdd] step of a submission; a receive by a worker leaves 999
    records, so that a send can complete again. *)
Theorem workQueue_bounded st0 tr st :
  fresh st0 ->
  run st0 tr st ->
  let w := the_world st in
  (length (workQueue (self w)) <= 1000)%nat
  /\ ((length (workQueue (self w)) < 1000)%nat ->
      forall pkg,
        queuePackage pkg w =
          Returns tt
            (mkWorld
               (mkReporter (config (self w)) (workQueue (self w) ++ [pkg])
                  (done (self w)) (wg (self w) + 1) (sessions (self w)))
               (rpcs w) (logs w)))
  /\ ((length (workQueue (self w)) = 1000)%nat ->
      (forall pkg st', ~ step st (LSend pkg) st')
      /\ (forall pkg,
            queuePackage pkg w =
              Blocks (mkWorld (set_wg (wg (self w) + 1) (self w))
                        (rpcs w) (logs w)))
      /\ (forall pkg st1,
            step st (LAdd pkg) st1 ->
            wg (self (the_world st1)) = wg (self w) + 1
            /\ forall pkg' st2, ~ step st1 (LSend pkg') st2)
      /\ (forall i pkg st1,
            step st (LRecv i pkg) st1 ->
            (length (workQueue (self (the_world st1))) = 999)%nat)).
Proof.
  intros Hfresh Hrun w. subst w.
  split; [exact (run_capacity _ _ _ Hfresh Hrun) |].
  split; [intros Hroom pkg; now apply queuePackage_room |].
  intros Hfull.
  assert (Hblocked : forall st1,
            workQueue (self (the_world st1)) = workQueue (self (the_world st)) ->
            forall pkg st2, ~ step st1 (LSend pkg) st2).
  { intros st1 Hq pkg st2 Hstep.
    inversion Hstep; subst.
    match goal with Hsend : workQueue_send _ _ = _ |- _ =>
      apply workQueue_send_self in Hsend;
      destruct Hsend as (_ & _ & _ & Hroom) end.
    rewrite Hq in Hroom. unfold workQueueCapacity in Hroom. lia. }
  split; [intros pkg st'; now apply Hblocked |].
  split.
  { intros pkg. apply queuePackage_full. unfold workQueueCapacity. lia. }
  split.
  - intros pkg st1 Hstep.
    pose proof (step_self _ _ _ Hstep) as Hself. simpl in Hself.
    split; [now rewrite Hself |].
    apply Hblocked. now rewrite Hself.
  - intros i pkg st1 Hstep.
    rewrite (step_self _ _ _ Hstep).
    destruct (workQueue (self (the_world st))); simpl in *; lia.
Qed.

Lemma sent_snoc tr l :
  sent (tr ++ [l]) = sent tr ++ match l with LSend pkg => [pkg] | _ => [] end.
Proof. unfold sent. rewrite omap_app. now destruct l. Qed.

Lemma received_snoc tr l :
  received (tr ++ [l])
    = received tr ++ match l with LRecv _ pkg => [pkg] | _ => [] end.
Proof. unfold received. rewrite omap_app. now destruct l. Qed.

Lemma resolved_snoc tr l :
  resolved (tr ++ [l])
    = resolved tr ++ match l with LResolve _ pkg => [pkg] | _ => [] end.
Proof. unfold resolved. rewrite omap_app. now destruct l. Qed.

Lemma called_snoc tr l :
  called (tr ++ [l])
    = called tr ++ match l with LCall _ pkg => [pkg] | _ => [] end.
Proof. unfold called. rewrite omap_app. now destruct l. Qed.

Lemma step_fifo st l st' tr :
  step st l st' ->
  sent tr = received tr ++ workQueue (self (the_world st)) ->
  sent (tr ++ [l]) = received (tr ++ [l]) ++ workQueue (self (the_world st')).
Proof.
  intros Hstep Hinv. rewrite sent_snoc, received_snoc, (step_self _ _ _ Hstep).
  destruct Hstep; simpl; rewrite ?app_nil_r; try exact Hinv.
  - now rewrite Hinv, app_assoc.
  - match goal with H : workQueue _ = _ |- _ => rewrite H in Hinv |- * end.
    simpl. now rewrite Hinv, <- app_assoc.
Qed.

(** X8. The work queue is first in, first out: at every moment of a run
    the records sent so far are, in order, the records the workers have
    received followed by those still in the queue. *)
Theorem workQueue_fifo st0 tr st :
  fresh st0 ->
  run st0 tr st ->
  sent tr = received tr ++ workQueue (self (the_world st)).
Proof.
  intros Hfresh Hrun.
  induction Hrun as [| st0 tr st l st' _ IH Hstep].
  - destruct Hfresh as (_ & -> & _). reflexivity.
  - eapply step_fifo; [exact Hstep | now apply IH].
Qed.

Lemma step_conserved st l st' tr :
  step st l st' ->
  added tr ≡ₚ resolved tr ++ syncing (workers st)
               ++ workQueue (self (the_world st)) ++ sending st ->
  added (tr ++ [l]) ≡ₚ resolved (tr ++ [l]) ++ syncing (workers st')
                        ++ workQueue (self (the_world st')) ++ sending st'.
Proof.
  intros Hstep Hinv. rewrite added_snoc, resolved_snoc, (step_self _ _ _ Hstep).
  destruct Hstep; simpl in *; rewrite ?app_nil_r;
    try match goal with
        | H : workers _ !! _ = Some _ |- context [<[_ := ?g']> _] =>
            pose proof (syncing_insert_perm _ _ _ g' H) as Hperm;
            simpl in Hperm; rewrite ?app_nil_r in Hperm
        end;
    try exact Hinv.
  - rewrite Hinv. solve_Permutation.
  - match goal with H : sending st = _ |- _ => rewrite H in Hinv end.
    rewrite Hinv. solve_Permutation.
  - match goal with H : workQueue _ = _ |- _ => rewrite H in Hinv |- * end.
    simpl. rewrite Hinv, Hperm. solve_Permutation.
  - apply Permutation_app_inv_r in Hperm. now rewrite Hinv, Hperm.
  - apply Permutation_app_inv_r in Hperm. now rewrite Hinv, Hperm.
  - apply Permutation_app_inv_r in Hperm. now rewrite Hinv, Hperm.
  - rewrite Hinv, <- Hperm. solve_Permutation.
  - now rewrite Hinv, Hperm.
Qed.

(** X9. No accepted record is lost or duplicated: at every moment of a
    run, the records accepted by [queuePackage] are, up to order, those
    already passed through [syncPackage], those held by a worker, those in
    the work queue and those whose send is pending. *)
Theorem records_conserved st0 tr st :
  fresh st0 ->
  run st0 tr st ->
  added tr ≡ₚ resolved tr ++ syncing (workers st)
               ++ workQueue (self (the_world st)) ++ sending st.
Proof.
  intros Hfresh Hrun.
  induction Hrun as [| st0 tr st l st' _ IH Hstep].
  - destruct Hfresh as (_ & -> & _ & -> & -> & _). reflexivity.
  - eapply step_conserved; [exact Hstep | now apply IH].
Qed.

End QueueFacts.

Lemma workQueue_bounded_witness :
  exists st,
    @run Scenario.models_api Scenario.service_ok
      Scenario.system_primary (submissions 1000 Scenario.lib) st
    /\ length (workQueue (self (the_world st))) = 1000%nat
    /\ wg (self (the_world st)) = 1000
    /\ queuePackage Scenario.lib (the_world st) =
         Blocks (mkWorld (set_wg 1001 (self (the_world st)))
                   (rpcs (the_world st)) (logs (the_world st))).
Proof.
  destruct (@run_submissions Scenario.models_api Scenario.service_ok
              1000 Scenario.lib Scenario.system_primary)
    as (st & Hrun & Hq & Hwg); [unfold workQueueCapacity; simpl; lia |].
  assert (Hlen : length (workQueue (self (the_world st))) = 1000%nat).
  { rewrite Hq, length_app, length_replicate. reflexivity. }
  exists st. split; [exact Hrun |]. split; [exact Hlen |].
  split; [rewrite Hwg; reflexivity |].
  destruct (@workQueue_bounded Scenario.models_api Scenario.service_ok
              _ _ _ scenario_fresh Hrun) as (_ & _ & Hfull).
  destruct (Hfull Hlen) as (_ & Hblocks & _).
  rewrite (Hblocks Scenario.lib), Hwg. reflexivity.
Defined.

Lemma workQueue_fifo_witness :
  exists st,
    @run Scenario.models_api Scenario.service_ok
      Scenario.system_primary Scenario.one_record st
    /\ [Scenario.lib] = [Scenario.lib] ++ workQueue (self (the_world st)).
Proof.
  destruct scenario_run as [st Hrun]. exists st. split; [exact Hrun |].
  exact (@workQueue_fifo Scenario.models_api Scenario.service_ok
           _ _ _ scenario_fresh Hrun).
Defined.

Lemma records_conserved_witness :
  exists st,
    @run Scenario.models_api Scenario.service_ok
      Scenario.system_primary Scenario.one_record st
    /\ [Scenario.lib] ≡ₚ [Scenario.lib] ++ syncing (workers st)
                          ++ workQueue (self (the_world st)) ++ sending st.
Proof.
  destruct scenario_run as [st Hrun]. exists st. split; [exact Hrun |].
  exact (@records_conserved Scenario.models_api Scenario.service_ok
           _ _ _ scenario_fresh Hrun).
Defined.

(** ** Shutdown order *)

Section ShutdownFacts.
Context `{!ModelsAPI} `{!ToolService}.

(** A worker that has returned stays so. *)
Lemma step_exited st l st' i :
  step st l st' ->
  workers st !! i = Some Exited -> workers st' !! i = Some Exited.
Proof.
  intros Hstep Hi. destruct Hstep; simpl; try exact Hi.
  all: rewrite list_lookup_insert_ne; [exact Hi |]; intros ->; congruence.
Qed.

Lemma run_exited st0 tr st i :
  run st0 tr st ->
  workers st0 !! i = Some Exited -> workers st !! i = Some Exited.
Proof.
  induction 1 as [| st0 tr st l st' _ IH Hstep]; intros Hi; [exact Hi |].
  eapply step_exited; [exact Hstep | now apply IH].
Qed.

(** [done] is closed exactly from [close(s.done)] on. *)
Lemma step_closed st l st' :
  step st l st' ->
  (done (self (the_world st)) = true <->
     finish st = Closed \/ exists r, finish st = Finished r) ->
  (done (self (the_world st')) = true <->
     finish st' = Closed \/ exists r, finish st' = Finished r).
Proof.
  intros Hstep Hdone. rewrite (step_self _ _ _ Hstep).
  destruct Hstep; simpl; try exact Hdone.
  - match goal with H : finish st = NotDrained |- _ => rewrite H in Hdone end.
    split.
    + intros Hd. apply Hdone in Hd. destruct Hd as [Hd | [r Hd]]; discriminate.
    + intros [Hd | [r Hd]]; discriminate.
  - split; [now left | reflexivity].
  - match goal with H : finish st = Closed |- _ => rewrite H in Hdone end.
    assert (Hd : done (self (the_world st)) = true) by (apply Hdone; now left).
    split; [intros _; right; eauto | intros _; exact Hd].
Qed.


(** Only with [done] closed can a worker have returned. *)
Lemma step_done st l st' :
  step st l st' ->
  (done (self (the_world st)) = true <->
     finish st = Closed \/ exists r, finish st = Finished r) ->
  (forall i, workers st !! i = Some Exited -> done (self (the_world st)) = true) ->
  (done (self (the_world st')) = true <->
     finish st' = Closed \/ exists r, finish st' = Finished r)
  /\ (forall i, workers st' !! i = Some Exited ->
        done (self (the_world st')) = true).
Proof.
  intros Hstep Hdone Hexit.
  split; [now apply (step_closed _ _ _ Hstep) |].
  intros j Hj.
  assert (Hmono : done (self (the_world st)) = true ->
                  done (self (the_world st')) = true).
  { rewrite (step_self _ _ _ Hstep). now destruct l. }
  apply Hmono.
  destruct Hstep; simpl in Hj; try (now apply (Hexit j)).
  all: destruct (decide (i = j)) as [-> | Hne];
    [ rewrite list_lookup_insert_eq in Hj by (eapply lookup_lt_Some; eauto);
      first [discriminate Hj | assumption]
    | rewrite list_lookup_insert_ne in Hj by exact Hne; now apply (Hexit j) ].
Qed.

(** X10. Shutdown order.  [done] is closed exactly from the [close] of
    [Finish] on, so after the wait; a worker can have returned only when
    [done] is closed, hence only after a moment at which every accepted
    record had been resolved; and a worker that has returned never takes
    a record again. *)
Theorem workers_exit_after_drain st0 tr st :
  fresh st0 ->
  Forall (fun g => g <> Exited) (workers st0) ->
  run st0 tr st ->
  (done (self (the_world st)) = true <->
     finish st = Closed \/ exists r, finish st = Finished r)
  /\ (forall i, workers st !! i = Some Exited ->
        done (self (the_world st)) = true
        /\ (exists tr1 tr2,
              tr = tr1 ++ LWait :: tr2 /\ increments tr1 = decrements tr1)
        /\ forall tr' st', run st tr' st' -> workers st' !! i = Some Exited).
Proof.
  intros Hfresh Hlive Hrun.
  assert (Hinv :
    (done (self (the_world st)) = true <->
       finish st = Closed \/ exists r, finish st = Finished r)
    /\ (forall i, workers st !! i = Some Exited ->
          done (self (the_world st)) = true)).
  { induction Hrun as [| st0 tr st l st' Hrun IH Hstep].
    - destruct Hfresh as (_ & _ & Hd & _ & _ & Hf & _).
      rewrite Hd, Hf. split.
      + split; [discriminate | intros [H1 | [r H1]]; discriminate].
      + intros i Hi. rewrite Forall_forall in Hlive.
        exfalso. apply (Hlive Exited); [| reflexivity].
        eapply list_elem_of_lookup_2; eauto.
    - destruct (IH Hfresh Hlive) as [Hd He].
      now apply (step_done _ _ _ Hstep). }
  destruct Hinv as [Hdone Hexit].
  split; [exact Hdone |].
  intros i Hi. pose proof (Hexit i Hi) as Hclosed.
  split; [exact Hclosed |]. split.
  - apply (run_drained st0 tr st Hfresh Hrun).
    apply Hdone in Hclosed. destruct Hclosed as [Hc | [r Hc]]; congruence.
  - intros tr' st' Hrun'. now apply (run_exited _ _ _ _ Hrun').
Qed.

End ShutdownFacts.

Lemma workers_exit_after_drain_witness :
  exists st,
    @run Scenario.models_api Scenario.service_ok
      Scenario.system_primary Scenario.one_record st
    /\ (done (self (the_world st)) = true <->
          finish st = Closed \/ exists r, finish st = Finished r).
Proof.
  destruct scenario_run as [st Hrun]. exists st. split; [exact Hrun |].
  refine (proj1 (@workers_exit_after_drain Scenario.models_api Scenario.service_ok
                   _ _ _ scenario_fresh _ Hrun)).
  repeat constructor. discriminate.
Defined.

(** ** More of the constructor *)

Section ConstructorFacts.
Context `{!ModelsAPI} `{!ToolService} `{!Platform}.

Import controltowerv1.

(** What a successful construction went through. *)
Lemma NewSyncReporter_inr cfg st :
  NewSyncReporter cfg = inr st ->
  exists host port conn logged,
    url_Parse (ControlTowerBaseUrl cfg) = inr (host, port)
    /\ drygrpc_GrpcClient "vet-sync" host
         (if decide (port = "") then "443" else port)
         (ControlTowerToken cfg)
         [("x-tenant-id", os_Getenv "VET_CONTROL_TOWER_TENANT_ID");
          ("x-mock-user", os_Getenv "VET_CONTROL_TOWER_MOCK_USER")]
       = inr conn
    /\ ((EnableMultiProjectSync cfg = true
         /\ st = startReporter cfg ∅ [] logged)
        \/ (EnableMultiProjectSync cfg = false
            /\ exists sid,
                 let client := NewToolServiceClient conn in
                 let req :=
                   CreateToolSessionRequest.mk (ToolName cfg) (ToolVersion cfg)
                     (ProjectName cfg) (Some (ProjectVersion cfg))
                     (Some packagev1.PROJECT_SOURCE_TYPE_UNSPECIFIED)
                     (Some TOOL_TRIGGER_MANUAL) in
                 CreateToolSession_response [] client req = inr sid
                 /\ st = startReporter cfg
                           (syncSessionPool.addPrimarySession sid client ∅)
                           [CreateToolSession client req] logged)).
Proof.
  unfold NewSyncReporter.
  destruct (url_Parse (ControlTowerBaseUrl cfg)) as [err | [host port]];
    [discriminate |].
  destruct (drygrpc_GrpcClient _ _ _ _ _) as [err | conn] eqn:Hconn;
    [discriminate |].
  destruct (EnableMultiProjectSync cfg) eqn:Hmulti; simpl.
  - intros [= <-]. exists host, port, conn. eexists.
    split; [reflexivity |]. split; [exact Hconn |]. left. now split.
  - destruct (CreateToolSession_response _ _ _) as [err | sid] eqn:Hcreate;
      [discriminate |].
    intros [= <-]. exists host, port, conn. eexists.
    split; [reflexivity |]. split; [exact Hconn |]. right.
    split; [reflexivity |]. exists sid. now split.
Qed.

Lemma NewSyncReporter_fresh cfg st :
  NewSyncReporter cfg = inr st ->
  fresh st /\ workers st = replicate (workerCount cfg) AtSelect.
Proof.
  intros Hnew.
  destruct (NewSyncReporter_inr cfg st Hnew)
    as (host & port & conn & logged & _ & _ & [[_ ->] | [_ (sid & _ & ->)]]).
  - split; [apply startReporter_fresh; constructor | reflexivity].
  - split; [| reflexivity].
    apply startReporter_fresh. repeat constructor.
Qed.

(** X11. In single-project mode the constructor creates one tool session
    for the configured tool and project, with the manual trigger and the
    unspecified source, and installs the identifier the service answered as
    the wildcard session: every lookup returns it.  The reporter starts
    with an empty queue, the pending counter at zero and [done] open. *)
Theorem NewSyncReporter_single_project cfg st :
  EnableMultiProjectSync cfg = false ->
  NewSyncReporter cfg = inr st ->
  exists client sid,
    let req :=
      CreateToolSessionRequest.mk (ToolName cfg) (ToolVersion cfg)
        (ProjectName cfg) (Some (ProjectVersion cfg))
        (Some packagev1.PROJECT_SOURCE_TYPE_UNSPECIFIED)
        (Some TOOL_TRIGGER_MANUAL) in
    let w := the_world st in
    rpcs w = [CreateToolSession client req]
    /\ CreateToolSession_response [] client req = inr sid
    /\ sessions (self w) = {["*" := mkSession sid client]}
    /\ (forall key,
          syncSessionPool.getSession (sessions (self w)) key
            = inr (mkSession sid client))
    /\ config (self w) = cfg
    /\ workQueue (self w) = []
    /\ wg (self w) = 0
    /\ done (self w) = false.
Proof.
  intros Hsingle Hnew.
  destruct (NewSyncReporter_inr cfg st Hnew)
    as (host & port & conn & logged & _ & _ & [[Hm _] | [_ (sid & Hcreate & ->)]]);
    [congruence |].
  exists (NewToolServiceClient conn), sid. simpl.
  split; [reflexivity |]. split; [exact Hcreate |].
  split; [reflexivity |].
  split; [| now repeat split].
  intros key. apply getSession_wildcard.
  unfold syncSessionPool.addPrimarySession. apply lookup_insert_eq.
Qed.

(** X12. The constructor fails in three ways only, each time with the
    cause wrapped: the base URL does not parse; the gRPC client cannot be
    created (for the parsed host, and for port 443 when the URL names no
    port); or, in single-project mode only, the service refuses to create
    the tool session. *)
Theorem NewSyncReporter_errors cfg e :
  NewSyncReporter cfg = inl e ->
  (exists cause,
     url_Parse (ControlTowerBaseUrl cfg) = inl cause
     /\ e = Wrap "failed to parse ControlTower base URL" cause)
  \/ (exists host port cause,
        url_Parse (ControlTowerBaseUrl cfg) = inr (host, port)
        /\ drygrpc_GrpcClient "vet-sync" host
             (if decide (port = "") then "443" else port)
             (ControlTowerToken cfg)
             [("x-tenant-id", os_Getenv "VET_CONTROL_TOWER_TENANT_ID");
              ("x-mock-user", os_Getenv "VET_CONTROL_TOWER_MOCK_USER")]
           = inl cause
        /\ e = Wrap "failed to create gRPC client" cause)
  \/ (exists host port conn cause,
        EnableMultiProjectSync cfg = false
        /\ url_Parse (ControlTowerBaseUrl cfg) = inr (host, port)
        /\ drygrpc_GrpcClient "vet-sync" host
             (if decide (port = "") then "443" else port)
             (ControlTowerToken cfg)
             [("x-tenant-id", os_Getenv "VET_CONTROL_TOWER_TENANT_ID");
              ("x-mock-user", os_Getenv "VET_CONTROL_TOWER_MOCK_USER")]
           = inr conn
        /\ CreateToolSession_response [] (NewToolServiceClient conn)
             (CreateToolSessionRequest.mk (ToolName cfg) (ToolVersion cfg)
                (ProjectName cfg) (Some (ProjectVersion cfg))
                (Some packagev1.PROJECT_SOURCE_TYPE_UNSPECIFIED)
                (Some TOOL_TRIGGER_MANUAL))
           = inl cause
        /\ e = Wrap "failed to create tool session" cause).
Proof.
  unfold NewSyncReporter.
  destruct (url_Parse (ControlTowerBaseUrl cfg)) as [err | [host port]] eqn:Hurl.
  { intros [= <-]. left. now exists err. }
  destruct (drygrpc_GrpcClient _ _ _ _ _) as [err | conn] eqn:Hconn.
  { intros [= <-]. right. left. now exists host, port, err. }
  destruct (EnableMultiProjectSync cfg) eqn:Hmulti; simpl; [discriminate |].
  destruct (CreateToolSession_response _ _ _) as [err | sid] eqn:Hcreate;
    [| discriminate].
  intros [= <-]. right. right. exists host, port, conn, err.
  now repeat split.
Qed.

(** X13. The number of workers started: the configured count, ten when it
    is zero, and none when it is negative. *)
Theorem NewSyncReporter_workers cfg st :
  NewSyncReporter cfg = inr st ->
  exists n,
    workers st = replicate n AtSelect
    /\ (WorkerCount cfg = 0 -> n = 10%nat)
    /\ (0 < WorkerCount cfg -> Z.of_nat n = WorkerCount cfg)
    /\ (WorkerCount cfg < 0 -> n = 0%nat).
Proof.
  intros Hnew. exists (workerCount cfg).
  split; [apply (NewSyncReporter_fresh cfg st Hnew) |].
  unfold workerCount, syncReporterDefaultWorkerCount.
  repeat split; intros Hc; case_decide; try lia; reflexivity.
Qed.

End ConstructorFacts.

Lemma NewSyncReporter_single_project_witness :
  exists st,
    @NewSyncReporter Scenario.service_ok Scenario.platform (Scenario.cfg false)
      = inr st
    /\ sessions (self (the_world st)) = {["*" := mkSession "session-1" 1%nat]}.
Proof.
  eexists. split; [reflexivity |].
  destruct (@NewSyncReporter_single_project
              Scenario.service_ok Scenario.platform
              (Scenario.cfg false) _ eq_refl eq_refl)
    as (client & sid & Hrpcs & Hcreate & Hpool & _).
  injection Hcreate as <-. injection Hrpcs as <-. exact Hpool.
Defined.

Lemma NewSyncReporter_errors_witness :
  @NewSyncReporter Scenario.service_ok Scenario.platform_bad_url
    (Scenario.cfg false)
  = inl (Wrap "failed to parse ControlTower base URL" (External "parse error")).
Proof.
  destruct (@NewSyncReporter_errors Scenario.service_ok Scenario.platform_bad_url
              (Scenario.cfg false) _ eq_refl)
    as [(cause & _ & He)
       | [(host & port & cause & Hurl & _)
         | (host & port & conn & cause & _ & Hurl & _)]].
  - reflexivity.
  - discriminate Hurl.
  - discriminate Hurl.
Defined.

Lemma NewSyncReporter_workers_witness :
  exists st,
    @NewSyncReporter Scenario.service_ok Scenario.platform (Scenario.cfg true)
      = inr st
    /\ length (workers st) = 10%nat.
Proof.
  eexists. split; [reflexivity |].
  destruct (@NewSyncReporter_workers Scenario.service_ok Scenario.platform
              (Scenario.cfg true) _ eq_refl)
    as (n & Hw & Hzero & _).
  rewrite Hw, length_replicate. now apply Hzero.
Defined.

(** ** Runs of a constructed reporter *)

Section ConstructedRuns.
Context `{!ModelsAPI} `{!ToolService} `{!Platform}.

Lemma step_no_workers st l st' :
  step st l st' ->
  workers st = [] ->
  workers st' = [] /\ is_done l = false.
Proof.
  intros Hstep Hnone.
  destruct Hstep; simpl; try (now split);
    match goal with H : workers st !! _ = Some _ |- _ =>
      rewrite Hnone in H; discriminate H end.
Qed.

Lemma run_no_workers st0 tr st :
  run st0 tr st ->
  workers st0 = [] ->
  workers st = [] /\ decrements tr = 0.
Proof.
  induction 1 as [| st0 tr st l st' _ IH Hstep]; intros Hnone.
  - now split.
  - destruct (IH Hnone) as [Hw Hd].
    destruct (step_no_workers _ _ _ Hstep Hw) as [Hw' Hl].
    split; [exact Hw' |]. rewrite decrements_snoc, Hd, Hl. reflexivity.
Qed.

(** X14. A negative worker count starts no worker, and then nothing is
    ever resolved: the pending counter is the number of records accepted,
    and once a record has been accepted [Finish] can never get past its
    wait. *)
Theorem negative_WorkerCount_never_drains cfg st0 tr st :
  NewSyncReporter cfg = inr st0 ->
  WorkerCount cfg < 0 ->
  run st0 tr st ->
  workers st = []
  /\ decrements tr = 0
  /\ wg (self (the_world st)) = increments tr
  /\ (0 < increments tr -> forall st', ~ step st LWait st').
Proof.
  intros Hnew Hneg Hrun.
  destruct (NewSyncReporter_fresh cfg st0 Hnew) as [Hfresh Hworkers].
  assert (Hnone : workers st0 = []).
  { rewrite Hworkers. unfold workerCount. case_decide; [lia |].
    now replace (Z.to_nat (WorkerCount cfg)) with 0%nat by lia. }
  destruct (run_no_workers _ _ _ Hrun Hnone) as [Hw Hd].
  pose proof (run_wg _ _ _ Hrun) as Hwg.
  assert (Hzero : wg (self (the_world st0)) = 0) by apply Hfresh.
  split; [exact Hw |]. split; [exact Hd |]. split; [lia |].
  intros Hpos st' Hstep.
  assert (Hwait : wg (self (the_world st)) = 0) by (inversion Hstep; assumption).
  lia.
Qed.

Lemma publications_completeCall entries :
  publications (completeCall <$> entries) = [].
Proof. induction entries as [| entry entries IH]; [reflexivity | exact IH]. Qed.

(** With the wildcard session in the pool, the publications are issued by
    the [LCall] steps, through that session. *)
Lemma step_publications st l st' session :
  sessions (self (the_world st)) !! "*" = Some session ->
  step st l st' ->
  publications (rpcs (the_world st')) =
    publications (rpcs (the_world st))
    ++ match l with
       | LCall _ pkg =>
           [PublishPackageInsight (toolServiceClient session)
              (requestOf session pkg)]
       | _ => []
       end.
Proof.
  intros Hwild Hstep. pose proof (step_rpcs _ _ _ Hstep) as Hr.
  destruct l; try (rewrite Hr; now rewrite app_nil_r).
  - destruct Hr as (s & Hget & ->).
    rewrite (getSession_wildcard _ _ _ Hwild) in Hget. injection Hget as <-.
    unfold publications. now rewrite filter_app.
  - destruct Hr as (attempted & -> & _).
    unfold publications at 1. rewrite filter_app.
    fold (publications (completeCall <$> attempted)).
    now rewrite publications_completeCall.
Qed.

Lemma run_publications st0 tr st session :
  sessions (self (the_world st0)) !! "*" = Some session ->
  run st0 tr st ->
  publications (rpcs (the_world st)) =
    publications (rpcs (the_world st0))
    ++ ((fun pkg => PublishPackageInsight (toolServiceClient session)
                      (requestOf session pkg)) <$> called tr).
Proof.
  intros Hwild Hrun.
  induction Hrun as [| st0 tr st l st' Hrun IH Hstep].
  - simpl. now rewrite app_nil_r.
  - assert (Hwild' : sessions (self (the_world st)) !! "*" = Some session).
    { now rewrite (run_sessions _ _ _ Hrun). }
    rewrite (step_publications _ _ _ session Hwild' Hstep), (IH Hwild).
    rewrite called_snoc, fmap_app, <- app_assoc.
    f_equal. f_equal. now destruct l.
Qed.

(** With the wildcard session in the pool the lookup cannot fail: the
    records for which the publish call has been issued are those resolved
    and those whose worker is in the call or past it. *)
Lemma step_called st l st' tr session :
  sessions (self (the_world st)) !! "*" = Some session ->
  step st l st' ->
  called tr ≡ₚ resolved tr ++ past_lookup (workers st) ->
  called (tr ++ [l]) ≡ₚ resolved (tr ++ [l]) ++ past_lookup (workers st').
Proof.
  intros Hwild Hstep Hinv. rewrite called_snoc, resolved_snoc.
  destruct Hstep; simpl in *; rewrite ?app_nil_r;
    try match goal with
        | H : syncSessionPool.getSession _ _ = inl _ |- _ =>
            rewrite (getSession_wildcard _ _ _ Hwild) in H; discriminate H
        end;
    try match goal with
        | H : workers _ !! _ = Some _ |- context [<[_ := ?g']> _] =>
            pose proof (past_lookup_insert_perm _ _ _ g' H) as Hperm;
            simpl in Hperm; rewrite ?app_nil_r in Hperm
        end;
    try exact Hinv.
  - now rewrite Hinv, Hperm.
  - rewrite Hinv, Hperm. solve_Permutation.
  - apply Permutation_app_inv_r in Hperm. now rewrite Hinv, Hperm.
  - rewrite Hinv, <- Hperm. solve_Permutation.
  - now rewrite Hinv, Hperm.
Qed.

Lemma run_called st0 tr st session :
  sessions (self (the_world st0)) !! "*" = Some session ->
  syncing (workers st0) = [] ->
  run st0 tr st ->
  called tr ≡ₚ resolved tr ++ past_lookup (workers st).
Proof.
  intros Hwild Hsync Hrun.
  induction Hrun as [| st0 tr st l st' Hrun IH Hstep].
  - apply syncing_nil in Hsync. destruct Hsync as [_ ->]. reflexivity.
  - assert (Hwild' : sessions (self (the_world st)) !! "*" = Some session).
    { now rewrite (run_sessions _ _ _ Hrun). }
    apply (step_called _ _ _ _ session Hwild' Hstep). now apply IH.
Qed.

(** X15. In single-project mode every record a worker takes through
    [syncPackage] is published, once, through the session created by the
    constructor.  At every moment of a run the pool holds that session
    alone; the publications issued are, in order, those of the publish
    calls the workers have made; the records published are the records
    resolved and those whose worker is inside the publish call or has not
    yet logged its result; and [syncPackage] returns only from the publish
    call, never from a failed lookup. *)
Theorem single_project_publishes_resolved cfg st0 tr st :
  EnableMultiProjectSync cfg = false ->
  NewSyncReporter cfg = inr st0 ->
  run st0 tr st ->
  exists session,
    rpcs (the_world st0)
      = [CreateToolSession (toolServiceClient session)
           (controltowerv1.CreateToolSessionRequest.mk
              (ToolName cfg) (ToolVersion cfg) (ProjectName cfg)
              (Some (ProjectVersion cfg))
              (Some packagev1.PROJECT_SOURCE_TYPE_UNSPECIFIED)
              (Some controltowerv1.TOOL_TRIGGER_MANUAL))]
    /\ sessions (self (the_world st)) = {["*" := session]}
    /\ publications (rpcs (the_world st)) =
         (fun pkg => PublishPackageInsight (toolServiceClient session)
                       (requestOf session pkg)) <$> called tr
    /\ called tr ≡ₚ resolved tr ++ past_lookup (workers st)
    /\ (forall i pkg st',
          step st (LDone i pkg) st' ->
          exists response, workers st !! i = Some (Publishing pkg response))
    /\ (forall i pkg,
          workers st !! i = Some (Syncing pkg) ->
          exists st',
            step st (LCall i pkg) st'
            /\ rpcs (the_world st') =
                 rpcs (the_world st)
                 ++ [PublishPackageInsight (toolServiceClient session)
                       (requestOf session pkg)]).
Proof.
  intros Hsingle Hnew Hrun.
  destruct (NewSyncReporter_fresh cfg st0 Hnew) as [Hfresh _].
  destruct (NewSyncReporter_inr cfg st0 Hnew)
    as (host & port & conn & logged & _ & _ & [[Hm _] | [_ (sid & _ & ->)]]);
    [congruence |].
  set (session := mkSession sid (NewToolServiceClient conn)).
  assert (Hpool : sessions (self (the_world st)) = {["*" := session]}).
  { now rewrite (run_sessions _ _ _ Hrun). }
  assert (Hwild : sessions (self (the_world st)) !! "*" = Some session).
  { rewrite Hpool. apply (lookup_insert_eq (M := gmap string)). }
  exists session.
  split; [reflexivity |].
  split; [exact Hpool |].
  split.
  { rewrite (run_publications _ _ _ session
               (lookup_insert_eq (M := gmap string) ∅ "*" _) Hrun).
    reflexivity. }
  split.
  { eapply (run_called _ tr st session); [| | exact Hrun].
    - apply (lookup_insert_eq (M := gmap string)).
    - apply Hfresh. }
  split.
  - intros i pkg st' Hstep. inversion Hstep; subst.
    + match goal with H : syncSessionPool.getSession _ _ = inl _ |- _ =>
        rewrite (getSession_wildcard _ _ _ Hwild) in H; discriminate H end.
    + eauto.
  - intros i pkg Hi. eexists. split.
    + eapply step_call; [exact Hi |].
      exact (getSession_wildcard _ _ _ Hwild).
    + simpl. now rewrite publishPhase_spec.
Qed.

(** What [Finish] does once the counter is at zero, by the state of
    [done]. *)
Lemma Finish_open order w :
  wg (self w) = 0 ->
  done (self w) = false ->
  Finish order w =
    Returns
      (fst (forEach order completeSession
              (mkWorld (set_done true (self w)) (rpcs w) (logs w))))
      (snd (forEach order completeSession
              (mkWorld (set_done true (self w)) (rpcs w) (logs w)))).
Proof.
  intros Hwg Hdone. unfold Finish, close_done.
  case_decide; [| contradiction]. rewrite Hdone. simpl.
  now destruct (forEach order completeSession _).
Qed.

Lemma Finish_closed order w :
  wg (self w) = 0 ->
  done (self w) = true ->
  Finish order w = Panics "close of closed channel".
Proof.
  intros Hwg Hdone. unfold Finish, close_done.
  case_decide; [| contradiction]. now rewrite Hdone.
Qed.

Lemma forEach_single key session w :
  forEach [(key, session)] completeSession w =
    (CompleteToolSession_response (rpcs w) (toolServiceClient session)
       (completeRequest session),
     mkWorld (self w)
       (rpcs w ++ [CompleteToolSession (toolServiceClient session)
                     (completeRequest session)])
       (logs w ++ [(LevelDebug,
                    "Report Sync: Completing tool session: "
                      +:+ sessionId session)])).
Proof.
  simpl. unfold bind, completeSession, bind, logf, call. simpl.
  now destruct (CompleteToolSession_response _ _ _).
Qed.



End ConstructedRuns.

(** A run of the reporter that [NewSyncReporter] constructs. *)
Lemma scenario_constructed :
  exists st0,
    @NewSyncReporter Scenario.service_ok Scenario.platform (Scenario.cfg false)
      = inr st0
    /\ exists st,
         @run Scenario.models_api Scenario.service_ok
           st0 Scenario.one_record st.
Proof.
  eexists. split; [reflexivity |]. eexists. one_record_run.
Qed.



Lemma negative_WorkerCount_never_drains_witness :
  exists st0,
    @NewSyncReporter Scenario.service_ok Scenario.platform Scenario.cfg_no_workers
      = inr st0
    /\ workers st0 = [].
Proof.
  eexists. split; [reflexivity |].
  refine (proj1 (@negative_WorkerCount_never_drains
                   Scenario.models_api Scenario.service_ok Scenario.platform
                   Scenario.cfg_no_workers _ [] _ eq_refl _ (run_nil _))).
  reflexivity.
Defined.

Lemma single_project_publishes_resolved_witness :
  exists st0 st session,
    @NewSyncReporter Scenario.service_ok Scenario.platform (Scenario.cfg false)
      = inr st0
    /\ @run Scenario.models_api Scenario.service_ok
         st0 Scenario.one_record st
    /\ sessions (self (the_world st)) = {["*" := session]}
    /\ publications (rpcs (the_world st)) =
         [PublishPackageInsight (toolServiceClient session)
            (@requestOf Scenario.models_api session Scenario.lib)].
Proof.
  destruct scenario_constructed as (st0 & Hnew & st & Hrun).
  destruct (@single_project_publishes_resolved
              Scenario.models_api Scenario.service_ok Scenario.platform
              (Scenario.cfg false) st0 Scenario.one_record st eq_refl Hnew Hrun)
    as (session & _ & Hpool & Hpub & _).
  exists st0, st, session.
  split; [exact Hnew |]. split; [exact Hrun |].
  split; [exact Hpool | exact Hpub].
Defined.

(** ** More of [Finish] *)

Section FinishMore.
Context `{!ModelsAPI} `{!ToolService}.

(** X16. With a single session in the pool and the pending counter at
    zero, a first call of [Finish] closes [done] and issues exactly one
    call, the completion of that session with status success; what the
    service answers to it is what [Finish] returns, and nothing else of
    the reporter changes.  With [done] already closed, [Finish] panics at
    [close(s.done)]. *)
Theorem Finish_single_session order w key session :
  sessions (self w) = {[key := session]} ->
  syncSessionPool.range_order (sessions (self w)) order ->
  wg (self w) = 0 ->
  let req :=
    controltowerv1.CompleteToolSessionRequest.mk
      (Some (controltowerv1.ToolSession.mk (sessionId session)))
      controltowerv1.CompleteToolSessionRequest_STATUS_SUCCESS in
  (done (self w) = false ->
   Finish order w =
     Returns
       (CompleteToolSession_response (rpcs w) (toolServiceClient session) req)
       (mkWorld (set_done true (self w))
          (rpcs w ++ [CompleteToolSession (toolServiceClient session) req])
          (logs w ++ [(LevelDebug,
                       "Report Sync: Completing tool session: "
                         +:+ sessionId session)])))
  /\ (done (self w) = true ->
      Finish order w = Panics "close of closed channel").
Proof.
  intros Hpool Horder Hwg req.
  unfold syncSessionPool.range_order in Horder.
  rewrite Hpool, map_to_list_singleton in Horder.
  apply Permutation_singleton_r in Horder. subst order.
  split.
  - intros Hdone. rewrite (Finish_open _ _ Hwg Hdone), forEach_single.
    reflexivity.
  - intros Hdone. now apply Finish_closed.
Qed.

(** X17. With an empty pool (multi-project mode) and the pending counter
    at zero, a first call of [Finish] only closes [done]: it calls
    nothing, logs nothing and returns nil.  With [done] already closed,
    [Finish] panics at [close(s.done)]. *)
Theorem Finish_empty_pool order w :
  sessions (self w) = ∅ ->
  syncSessionPool.range_order (sessions (self w)) order ->
  wg (self w) = 0 ->
  (done (self w) = false ->
   Finish order w =
     Returns None (mkWorld (set_done true (self w)) (rpcs w) (logs w)))
  /\ (done (self w) = true ->
      Finish order w = Panics "close of closed channel").
Proof.
  intros Hpool Horder Hwg.
  unfold syncSessionPool.range_order in Horder.
  rewrite Hpool, map_to_list_empty in Horder.
  apply Permutation_nil_r in Horder. subst order.
  split.
  - intros Hdone. now rewrite (Finish_open _ _ Hwg Hdone).
  - intros Hdone. now apply Finish_closed.
Qed.

End FinishMore.

Lemma Finish_single_session_witness :
  exists w',
    @Finish Scenario.service_ok [("*", Scenario.primary)] Scenario.world_primary
      = Returns None w'
    /\ length (rpcs w') = 1%nat
    /\ done (self w') = true
    /\ @Finish Scenario.service_ok [("*", Scenario.primary)] w'
       = Panics "close of closed channel".
Proof.
  destruct (@Finish_single_session Scenario.service_ok
              [("*", Scenario.primary)] Scenario.world_primary
              "*" Scenario.primary)
    as [Hfirst _].
  - reflexivity.
  - unfold syncSessionPool.range_order. reflexivity.
  - reflexivity.
  - eexists. split; [exact (Hfirst eq_refl) |].
    split; [reflexivity |]. split; [reflexivity |].
    match goal with |- Finish _ ?w' = _ =>
      destruct (@Finish_single_session Scenario.service_ok
                  [("*", Scenario.primary)] w' "*" Scenario.primary)
        as [_ Hsecond]
    end.
    + reflexivity.
    + unfold syncSessionPool.range_order. reflexivity.
    + reflexivity.
    + exact (Hsecond eq_refl).
Defined.

Lemma Finish_empty_pool_witness :
  exists w',
    @Finish Scenario.service_ok []
      (mkWorld (mkReporter (Scenario.cfg true) [] false 0 ∅) [] [])
      = Returns None w'
    /\ done (self w') = true.
Proof.
  eexists. split.
  - apply (@Finish_empty_pool Scenario.service_ok).
    + reflexivity.
    + unfold syncSessionPool.range_order. reflexivity.
    + reflexivity.
    + reflexivity.
  - reflexivity.
Defined.

(** ** Submitting a manifest *)

Section AddManifestFacts.
Context `{!ModelsAPI} `{!ToolService} `{!ManifestReader}.

Lemma queuePackages_room pkgs : forall w,
  (length (workQueue (self w)) + length pkgs <= workQueueCapacity)%nat ->
  queuePackages pkgs w =
    Some (tt, mkWorld
                (mkReporter (config (self w)) (workQueue (self w) ++ pkgs)
                   (done (self w)) (wg (self w) + Z.of_nat (length pkgs))
                   (sessions (self w)))
                (rpcs w) (logs w)).
Proof.
  induction pkgs as [| pkg pkgs IH]; intros w Hroom.
  - simpl. rewrite app_nil_r, Z.add_0_r. now destruct w as [[] ? ?].
  - simpl in Hroom. simpl queuePackages.
    rewrite queuePackage_room by lia.
    rewrite IH by (simpl; rewrite length_app; simpl; lia).
    simpl. rewrite <- app_assoc. simpl.
    do 3 f_equal. f_equal. lia.
Qed.

Lemma queuePackages_blocked pkgs : forall w,
  (length (workQueue (self w)) <= workQueueCapacity)%nat ->
  (workQueueCapacity < length (workQueue (self w)) + length pkgs)%nat ->
  queuePackages pkgs w = None.
Proof.
  induction pkgs as [| pkg pkgs IH]; intros w Hle Hover.
  - simpl in Hover. lia.
  - simpl in Hover. simpl queuePackages.
    destruct (decide (length (workQueue (self w)) < workQueueCapacity)%nat)
      as [Hroom | Hfull].
    + rewrite queuePackage_room by exact Hroom.
      apply IH; simpl; rewrite length_app; simpl; lia.
    + rewrite queuePackage_full by lia. reflexivity.
Qed.

(** X18. [AddManifest] queues the records of the manifest in the order of
    the enumeration.  When they fit in the work queue it returns with the
    pending counter raised by their number and the records appended to the
    queue, and nothing else changed; no call is issued by the caller.  When
    they do not fit, the caller blocks in a send until a worker makes
    room. *)
Theorem AddManifest_enqueues manifest w :
  (length (workQueue (self w)) <= 1000)%nat ->
  let pkgs := EnumPackages manifest in
  ((length (workQueue (self w)) + length pkgs <= 1000)%nat ->
   AddManifest manifest w =
     Some (tt, mkWorld
                 (mkReporter (config (self w)) (workQueue (self w) ++ pkgs)
                    (done (self w)) (wg (self w) + Z.of_nat (length pkgs))
                    (sessions (self w)))
                 (rpcs w) (logs w)))
  /\ ((1000 < length (workQueue (self w)) + length pkgs)%nat ->
      AddManifest manifest w = None).
Proof.
  intros Hle pkgs. unfold AddManifest. fold pkgs. split.
  - intros Hroom. now apply queuePackages_room.
  - intros Hover. now apply queuePackages_blocked.
Qed.

End AddManifestFacts.

Lemma AddManifest_enqueues_witness :
  exists w',
    @AddManifest ScenarioReader.reader Scenario.manifest Scenario.world_primary
      = Some (tt, w')
    /\ workQueue (self w') = [Scenario.app; Scenario.lib]
    /\ wg (self w') = 2.
Proof.
  destruct (@AddManifest_enqueues ScenarioReader.reader
              Scenario.manifest Scenario.world_primary) as [Hroom _].
  - simpl. lia.
  - eexists. split.
    + apply Hroom. simpl. lia.
    + split; reflexivity.
Defined.

(** * Properties of the generated HTTP client *)

(** ** Strings *)

Section StringFacts.

Lemma string_length_app (a b : string) :
  String.length (a +:+ b) = (String.length a + String.length b)%nat.
Proof. induction a as [| c a IH]; simpl; [reflexivity | now rewrite IH]. Qed.

Lemma substring_all (s : string) :
  String.substring 0 (String.length s) s = s.
Proof. induction s as [| c s IH]; simpl; [reflexivity | now rewrite IH]. Qed.

Lemma substring_skip (pre s : string) (n m : nat) :
  String.substring (String.length pre + n) m (pre +:+ s)
    = String.substring n m s.
Proof. induction pre as [| c pre IH]; simpl; [reflexivity | exact IH]. Qed.

Lemma substring_split (s : string) : forall n,
  (n <= String.length s)%nat ->
  s = String.substring 0 n s
        +:+ String.substring n (String.length s - n) s.
Proof.
  induction s as [| c s IH]; intros n Hn; simpl in Hn.
  - replace n with 0%nat by lia. reflexivity.
  - destruct n as [| n].
    + simpl. now rewrite substring_all.
    + change (String c s =
              String c (String.substring 0 n s
                          +:+ String.substring n (String.length s - n) s)).
      f_equal. apply IH. lia.
Qed.

Lemma HasSuffix_spec (s suffix : string) :
  syncv1.HasSuffix s suffix = true <-> exists pre, s = pre +:+ suffix.
Proof.
  unfold syncv1.HasSuffix. rewrite andb_true_iff, Nat.leb_le, String.eqb_eq.
  split.
  - intros [Hle Hsub].
    exists (String.substring 0 (String.length s - String.length suffix) s).
    pose proof (substring_split s (String.length s - String.length suffix))
      as Hsplit.
    replace (String.length s - (String.length s - String.length suffix))%nat
      with (String.length suffix) in Hsplit by lia.
    rewrite Hsub in Hsplit. apply Hsplit. lia.
  - intros [pre ->]. rewrite string_length_app. split; [lia |].
    replace (String.length pre + String.length suffix - String.length suffix)%nat
      with (String.length pre + 0)%nat by lia.
    rewrite substring_skip. apply substring_all.
Qed.

Lemma index_0_cons (substr : string) (c : Ascii.ascii) (s : string) :
  String.index 0 substr (String c s) =
    if String.prefix substr (String c s) then Some 0%nat
    else match String.index 0 substr s with
         | Some n => Some (S n)
         | None => None
         end.
Proof. reflexivity. Qed.

Lemma Contains_spec (s substr : string) :
  syncv1.Contains s substr = true
  <-> exists pre post, s = pre +:+ substr +:+ post.
Proof.
  unfold syncv1.Contains. split.
  - induction s as [| c s IH].
    + simpl. destruct substr; [| discriminate].
      intros _. now exists "", "".
    + rewrite index_0_cons.
      destruct (String.prefix substr (String c s)) eqn:Hpre.
      * intros _. apply (HasPrefix_spec substr (String c s)) in Hpre.
        destruct Hpre as [rest Hrest]. exists "", rest. exact Hrest.
      * destruct (String.index 0 substr s) as [n |]; [| discriminate].
        intros _. destruct (IH eq_refl) as (pre & post & ->).
        exists (String c pre), post. reflexivity.
  - intros (pre & post & ->).
    induction pre as [| c pre IH].
    + assert (Hpre : String.prefix substr (substr +:+ post) = true).
      { apply (HasPrefix_spec substr). now exists post. }
      change ("" +:+ substr +:+ post) with (substr +:+ post).
      destruct (substr +:+ post) as [| c rest] eqn:Heq.
      * destruct substr; [reflexivity | discriminate].
      * rewrite index_0_cons, Hpre. reflexivity.
    + change (String c pre +:+ substr +:+ post)
        with (String c (pre +:+ substr +:+ post)).
      rewrite index_0_cons.
      destruct (String.prefix substr (String c (pre +:+ substr +:+ post)));
        [reflexivity |].
      destruct (String.index 0 substr (pre +:+ substr +:+ post));
        [reflexivity | discriminate].
Qed.

End StringFacts.

(** ** Constructing a client *)

Section ClientFacts.
Import syncv1.
Context `{!Library}.

Lemma applyOptions_app opts1 : forall opts2 c,
  applyOptions (opts1 ++ opts2) c =
    match applyOptions opts1 c with
    | inl e => inl e
    | inr c1 => applyOptions opts2 c1
    end.
Proof.
  induction opts1 as [| o opts1 IH]; intros opts2 c; [reflexivity |].
  simpl. destruct (o c) as [[e |] c1]; [reflexivity | apply IH].
Qed.

Lemma applyOptions_error opts : forall c e,
  applyOptions opts c = inl e <->
  exists before o after c1 c1',
    opts = before ++ o :: after
    /\ applyOptions before c = inr c1
    /\ o c1 = (Some e, c1').
Proof.
  induction opts as [| o opts IH]; intros c e.
  - simpl. split; [discriminate |].
    intros (before & o & after & c1 & c1' & Heq & _). now destruct before.
  - simpl. destruct (o c) as [[e0 |] c1] eqn:Ho.
    + split.
      * intros [= <-]. exists [], o, opts, c, c1. now repeat split.
      * intros (before & o' & after & c2 & c2' & Heq & Hbefore & Ho').
        destruct before as [| b before]; simpl in *.
        -- injection Heq as <- <-. injection Hbefore as <-. congruence.
        -- injection Heq as <- _. rewrite Ho in Hbefore. discriminate.
    + rewrite IH. split.
      * intros (before & o' & after & c2 & c2' & -> & Hbefore & Ho').
        exists (o :: before), o', after, c2, c2'.
        split; [reflexivity |]. split; [| exact Ho'].
        simpl. now rewrite Ho.
      * intros (before & o' & after & c2 & c2' & Heq & Hbefore & Ho').
        destruct before as [| b before]; simpl in *.
        -- injection Heq as <- <-. injection Hbefore as <-. congruence.
        -- injection Heq as <- ->. rewrite Ho in Hbefore.
           exists before, o', after, c2, c2'. now repeat split.
Qed.

(** The client [NewClient] makes of the one its options leave. *)
Lemma NewClient_inr server opts c :
  NewClient server opts = inr c <->
  exists c0,
    applyOptions opts (Client.mk server None nil_slice) = inr c0
    /\ c = Client.mk
             (if HasSuffix (Client.Server c0) "/" then Client.Server c0
              else Client.Server c0 +:+ "/")
             (Some (default http_Client (Client.Client c0)))
             (Client.RequestEditors c0).
Proof.
  unfold NewClient.
  destruct (applyOptions opts (Client.mk server None nil_slice)) as [e | c0].
  - split; [discriminate | intros (c1 & Hc1 & _); discriminate].
  - split.
    + intros [= <-]. exists c0. split; [reflexivity |].
      destruct c0 as [srv [d |] eds]; simpl;
        destruct (HasSuffix srv "/"); reflexivity.
    + intros (c1 & [= <-] & ->). f_equal.
      destruct c0 as [srv [d |] eds]; simpl;
        destruct (HasSuffix srv "/"); reflexivity.
Qed.

(** X19. The server of a client made by [NewClient] always ends with a
    slash: the server the options leave is kept when it ends with one and
    gets exactly one appended otherwise, so a server that went through
    [NewClient] comes out of a second pass unchanged.  The client made
    always has a [Doer]: the one an option set, or the default one. *)
Theorem NewClient_trailing_slash server opts c :
  NewClient server opts = inr c ->
  (exists pre, Client.Server c = pre +:+ "/")
  /\ (exists doer, Client.Client c = Some doer)
  /\ (exists c0,
        applyOptions opts (Client.mk server None nil_slice) = inr c0
        /\ ((exists pre, Client.Server c0 = pre +:+ "/") ->
            Client.Server c = Client.Server c0)
        /\ (~ (exists pre, Client.Server c0 = pre +:+ "/") ->
            Client.Server c = Client.Server c0 +:+ "/")
        /\ (forall doer, Client.Client c0 = Some doer ->
              Client.Client c = Some doer)
        /\ (Client.Client c0 = None -> Client.Client c = Some http_Client)
        /\ Client.RequestEditors c = Client.RequestEditors c0)
  /\ exists c', NewClient (Client.Server c) [] = inr c'
                /\ Client.Server c' = Client.Server c.
Proof.
  intros Hnew. apply NewClient_inr in Hnew. destruct Hnew as (c0 & Hopts & ->).
  simpl.
  assert (Hslash : exists pre,
            (if HasSuffix (Client.Server c0) "/" then Client.Server c0
             else Client.Server c0 +:+ "/") = pre +:+ "/").
  { destruct (HasSuffix (Client.Server c0) "/") eqn:Hs.
    - now apply HasSuffix_spec.
    - now exists (Client.Server c0). }
  split; [exact Hslash |].
  split; [eauto |].
  split.
  { exists c0. split; [exact Hopts |].
    split.
    { intros Hs. apply HasSuffix_spec in Hs. now rewrite Hs. }
    split.
    { intros Hs. destruct (HasSuffix (Client.Server c0) "/") eqn:Hb;
        [| reflexivity].
      exfalso. apply Hs. now apply HasSuffix_spec. }
    split; [intros doer ->; reflexivity |].
    split; [intros ->; reflexivity | reflexivity]. }
  eexists. split.
  - apply NewClient_inr. eexists. split; [reflexivity | reflexivity].
  - simpl. apply HasSuffix_spec in Hslash. now rewrite Hslash.
Qed.

(** X20. [NewClient] fails only through its options, and with the error
    of the first option that fails, applied to the client the options
    before it have made; the options after it are not applied. *)
Theorem NewClient_option_error server opts e :
  NewClient server opts = inl e <->
  exists before o after c1 c1',
    opts = before ++ o :: after
    /\ applyOptions before (Client.mk server None nil_slice) = inr c1
    /\ o c1 = (Some e, c1').
Proof.
  rewrite <- applyOptions_error. unfold NewClient.
  destruct (applyOptions opts (Client.mk server None nil_slice));
    split; congruence.
Qed.

Lemma applyOptions_editors fns : forall c,
  applyOptions (WithRequestEditorFn <$> fns) c =
    inr (Client.mk (Client.Server c) (Client.Client c)
           (match fns with
            | [] => Client.RequestEditors c
            | _ => mk_slice (elems (Client.RequestEditors c) ++ fns)
            end)).
Proof.
  induction fns as [| fn fns IH]; intros c.
  - now destruct c.
  - rewrite fmap_cons. simpl applyOptions. rewrite IH. simpl.
    f_equal. f_equal. destruct fns as [| fn' fns]; [reflexivity |].
    now rewrite <- app_assoc.
Qed.

(** X21. Request editors given through [WithRequestEditorFn] are
    registered in the order of the options, after those already there. *)
Theorem WithRequestEditorFn_order server opts fns c0 :
  applyOptions opts (Client.mk server None nil_slice) = inr c0 ->
  exists c,
    NewClient server (opts ++ (WithRequestEditorFn <$> fns)) = inr c
    /\ elems (Client.RequestEditors c)
         = elems (Client.RequestEditors c0) ++ fns.
Proof.
  intros Hopts. eexists. split.
  - apply NewClient_inr. eexists. split; [| reflexivity].
    now rewrite applyOptions_app, Hopts, applyOptions_editors.
  - simpl. destruct fns; [now rewrite app_nil_r | reflexivity].
Qed.

(** X22. The last of the options that set a field decides it.  After
    [WithHTTPClient] the client has the given [Doer], or the default one
    when a nil [Doer] was given; after [WithBaseURL] the server is the
    parsed base URL printed back, with the trailing slash, whatever server
    [NewClient] was called with; and [WithBaseURL] fails when the base URL
    does not parse. *)
Theorem NewClient_last_option server opts c0 :
  applyOptions opts (Client.mk server None nil_slice) = inr c0 ->
  (forall doer,
     exists c,
       NewClient server (opts ++ [WithHTTPClient doer]) = inr c
       /\ Client.Client c = Some (default http_Client doer))
  /\ (forall baseURL u,
        url_Parse baseURL = inr u ->
        exists c,
          NewClient server (opts ++ [WithBaseURL baseURL]) = inr c
          /\ Client.Server c =
               (if HasSuffix (URL_String u) "/" then URL_String u
                else URL_String u +:+ "/"))
  /\ (forall baseURL e,
        url_Parse baseURL = inl e ->
        NewClient server (opts ++ [WithBaseURL baseURL]) = inl e).
Proof.
  intros Hopts. split; [| split].
  - intros doer. eexists. split.
    + apply NewClient_inr. eexists. split; [| reflexivity].
      rewrite applyOptions_app, Hopts. reflexivity.
    + reflexivity.
  - intros baseURL u Hu. eexists. split.
    + apply NewClient_inr. eexists. split; [| reflexivity].
      rewrite applyOptions_app, Hopts. simpl. unfold WithBaseURL.
      rewrite Hu. reflexivity.
    + reflexivity.
  - intros baseURL e He. unfold NewClient.
    rewrite applyOptions_app, Hopts. simpl. unfold WithBaseURL.
    now rewrite He.
Qed.

End ClientFacts.

Lemma NewClient_trailing_slash_witness :
  exists c,
    @syncv1.NewClient syncv1.Example.library "https://sync.example.com/api" []
      = inr c
    /\ syncv1.Client.Server c = "https://sync.example.com/api/".
Proof.
  eexists. split; [reflexivity |].
  destruct (@NewClient_trailing_slash syncv1.Example.library
              "https://sync.example.com/api" [] _ eq_refl)
    as (_ & _ & (c0 & Hopts & _ & Hadd & _) & _).
  injection Hopts as <-. apply Hadd.
  intros Hs. apply HasSuffix_spec in Hs. discriminate Hs.
Defined.

Lemma WithRequestEditorFn_order_witness :
  exists c,
    @syncv1.NewClient syncv1.Example.library "https://sync.example.com/"
      [syncv1.WithRequestEditorFn syncv1.Example.authorize;
       syncv1.WithRequestEditorFn syncv1.Example.refuse] = inr c
    /\ elems (syncv1.Client.RequestEditors c)
         = [syncv1.Example.authorize; syncv1.Example.refuse].
Proof.
  exact (@WithRequestEditorFn_order syncv1.Example.library
           "https://sync.example.com/" []
           [syncv1.Example.authorize; syncv1.Example.refuse] _ eq_refl).
Defined.

Lemma NewClient_last_option_witness :
  exists c,
    @syncv1.NewClient syncv1.Example.library "https://sync.example.com/"
      [syncv1.WithHTTPClient (Some syncv1.Example.doer_created)] = inr c
    /\ syncv1.Client.Client c = Some syncv1.Example.doer_created.
Proof.
  exact (proj1 (@NewClient_last_option syncv1.Example.library
                  "https://sync.example.com/" [] _ eq_refl)
           (Some syncv1.Example.doer_created)).
Defined.

(** ** Request editors and sending *)

Section SendFacts.
Import syncv1.
Context `{!Library}.

Lemma runEditors_app editors1 : forall editors2 req,
  runEditors (editors1 ++ editors2) req =
    match runEditors editors1 req with
    | (Some e, req1) => (Some e, req1)
    | (None, req1) => runEditors editors2 req1
    end.
Proof.
  induction editors1 as [| r editors1 IH]; intros editors2 req; [reflexivity |].
  simpl. destruct (r req) as [[e |] req1]; [reflexivity | apply IH].
Qed.

Lemma runEditors_ok editors : forall req req',
  runEditors editors req = (None, req') ->
  req' = foldl (fun q r => snd (r q)) req editors
  /\ forall before r after,
       editors = before ++ r :: after ->
       fst (r (foldl (fun q r => snd (r q)) req before)) = None.
Proof.
  induction editors as [| r editors IH]; intros req req'.
  - simpl. intros [= <-]. split; [reflexivity |].
    intros before r after Heq. now destruct before.
  - simpl. destruct (r req) as [[e |] req1] eqn:Hr; [discriminate |].
    intros Hrest. destruct (IH req1 req' Hrest) as [Hfold Hnone].
    replace req1 with (snd (r req)) in * by now rewrite Hr.
    split; [exact Hfold |].
    intros before r' after Heq.
    destruct before as [| b before]; simpl in *.
    + injection Heq as <- _. now rewrite Hr.
    + injection Heq as <- ->. now apply (Hnone before r' after).
Qed.

Lemma runEditors_error editors : forall req e req',
  runEditors editors req = (Some e, req') ->
  exists before r after,
    editors = before ++ r :: after
    /\ runEditors before req = (None, foldl (fun q r => snd (r q)) req before)
    /\ r (foldl (fun q r => snd (r q)) req before) = (Some e, req').
Proof.
  induction editors as [| r editors IH]; intros req e req'.
  - discriminate.
  - simpl. destruct (r req) as [[e0 |] req1] eqn:Hr.
    + intros [= <- <-]. exists [], r, editors. now repeat split.
    + intros Hrest. destruct (IH req1 e req' Hrest)
        as (before & r' & after & -> & Hbefore & Hfail).
      exists (r :: before), r', after. simpl. rewrite Hr. simpl.
      now repeat split.
Qed.

(** X23. [applyEditors] applies the editors of the client and then those
    of the call, each to the request as the one before left it.  It stops
    at the first editor that fails and returns its error: the editors
    after it are not applied.  When none fails the request has gone
    through all of them, in order. *)
Theorem applyEditors_order c req additionalEditors :
  let editors :=
    elems (Client.RequestEditors c) ++ elems additionalEditors in
  let through := foldl (fun q (r : RequestEditorFn) => snd (r q)) req in
  applyEditors c req additionalEditors = runEditors editors req
  /\ (forall e req',
        applyEditors c req additionalEditors = (Some e, req') ->
        exists before r after,
          editors = before ++ r :: after
          /\ runEditors before req = (None, through before)
          /\ r (through before) = (Some e, req'))
  /\ (forall req',
        applyEditors c req additionalEditors = (None, req') ->
        req' = through editors
        /\ forall before r after,
             editors = before ++ r :: after ->
             fst (r (through before)) = None).
Proof.
  intros editors through.
  assert (Heq : applyEditors c req additionalEditors = runEditors editors req).
  { unfold applyEditors, editors. rewrite runEditors_app.
    now destruct (runEditors (elems (Client.RequestEditors c)) req) as [[e |] r]. }
  split; [exact Heq |]. rewrite Heq. split.
  - intros e req'. apply runEditors_error.
  - intros req'. apply runEditors_ok.
Qed.

End SendFacts.

Section PipelineFacts.
Import syncv1.
Context `{!Library}.

Lemma Header_Add_empty key value :
  Header_Add ∅ key value = {[key := [value]]}.
Proof. unfold Header_Add. rewrite lookup_empty. apply insert_empty. Qed.

Lemma Header_Get_singleton key value :
  Header_Get {[key := [value]]} key = value.
Proof. unfold Header_Get. now rewrite lookup_singleton_eq. Qed.

Lemma send_spec c doer req reqEditors :
  Client.Client c = Some doer ->
  exists res sent,
    send c req reqEditors = Some (res, sent)
    /\ match runEditors (elems (Client.RequestEditors c) ++ elems reqEditors) req with
       | (Some e, _) => res = inl e /\ sent = []
       | (None, req') => res = doer req' /\ sent = [req']
       end.
Proof.
  intros Hdoer. unfold send, applyEditors. rewrite runEditors_app.
  destruct (runEditors (elems (Client.RequestEditors c)) req) as [[e |] req1].
  - now exists (inl e), [].
  - destruct (runEditors (elems reqEditors) req1) as [[e |] req2].
    + now exists (inl e), [].
    + rewrite Hdoer. now exists (doer req2), [req2].
Qed.

(** X24. A call through a client made by [NewClient] never panics on a
    nil [Doer].  When the request cannot be built, or when an editor (of
    the client, then of the call) fails, that error is returned and
    nothing is handed to the [Doer]; otherwise exactly one request is
    handed to it, the built request as the editors left it, and its answer
    is the result.  So for [CreateSyncJobWithBody] and for
    [UpdateSyncJobWithBody]. *)
Theorem calls_send_once server opts c :
  NewClient server opts = inr c ->
  exists doer,
    Client.Client c = Some doer
    /\ (forall contentType body reqEditors,
          exists res sent,
            CreateSyncJobWithBody c contentType body reqEditors
              = Some (res, sent)
            /\ match NewCreateSyncJobRequestWithBody (Client.Server c)
                       contentType body with
               | inl e => res = inl e /\ sent = []
               | inr req =>
                   match runEditors (elems (Client.RequestEditors c)
                                       ++ elems reqEditors) req with
                   | (Some e, _) => res = inl e /\ sent = []
                   | (None, req') => res = doer req' /\ sent = [req']
                   end
               end)
    /\ (forall jobId contentType body reqEditors,
          exists res sent,
            UpdateSyncJobWithBody c jobId contentType body reqEditors
              = Some (res, sent)
            /\ match NewUpdateSyncJobRequestWithBody (Client.Server c)
                       jobId contentType body with
               | inl e => res = inl e /\ sent = []
               | inr req =>
                   match runEditors (elems (Client.RequestEditors c)
                                       ++ elems reqEditors) req with
                   | (Some e, _) => res = inl e /\ sent = []
                   | (None, req') => res = doer req' /\ sent = [req']
                   end
               end).
Proof.
  intros Hnew. apply NewClient_inr in Hnew. destruct Hnew as (c0 & _ & ->).
  eexists. split; [reflexivity |]. split.
  - intros contentType body reqEditors. unfold CreateSyncJobWithBody.
    destruct (NewCreateSyncJobRequestWithBody _ contentType body) as [e | req].
    + now exists (inl e), [].
    + now apply send_spec.
  - intros jobId contentType body reqEditors. unfold UpdateSyncJobWithBody.
    destruct (NewUpdateSyncJobRequestWithBody _ jobId contentType body)
      as [e | req].
    + now exists (inl e), [].
    + now apply send_spec.
Qed.

(** X25. A request built for CreateSyncJob is a POST to the reference
    ["./jobs"] resolved against the parsed server URL, with the given body
    and a single header, the content type.  The JSON variant sends the
    marshalled body as [application/json]. *)
Theorem NewCreateSyncJobRequest_request server :
  (forall contentType body req,
     NewCreateSyncJobRequestWithBody server contentType body = inr req ->
     exists serverURL queryURL,
       url_Parse server = inr serverURL
       /\ URL_Parse serverURL "./jobs" = inr queryURL
       /\ req = Request.mk "POST" (URL_String queryURL)
                  {["Content-Type" := [contentType]]} body
       /\ Header_Get (Request.Header req) "Content-Type" = contentType)
  /\ (forall body req,
        NewCreateSyncJobRequest server body = inr req ->
        exists buf,
          json_Marshal_CreateSyncJob body = inr buf
          /\ NewCreateSyncJobRequestWithBody server "application/json" buf
             = inr req).
Proof.
  split.
  - intros contentType body req. unfold NewCreateSyncJobRequestWithBody.
    destruct (url_Parse server) as [e | serverURL]; [discriminate |].
    change (relativePath "/jobs") with "./jobs".
    destruct (URL_Parse serverURL "./jobs") as [e | queryURL] eqn:Hq;
      [discriminate |].
    unfold http_NewRequest.
    destruct (http_NewRequest_check _ _); [discriminate |].
    intros [= <-]. exists serverURL, queryURL.
    split; [reflexivity |]. split; [exact Hq |].
    unfold addContentType. cbn [Request.Header Request.Method Request.URL
                                  Request.Body].
    rewrite Header_Add_empty. split; [reflexivity |].
    cbn [Request.Header]. apply Header_Get_singleton.
  - intros body req. unfold NewCreateSyncJobRequest.
    destruct (json_Marshal_CreateSyncJob body) as [e | buf]; [discriminate |].
    intros Hreq. now exists buf.
Qed.

(** X26. A request built for UpdateSyncJob is a PUT to the reference
    ["./jobs/"] followed by the job identifier as [StyleParamWithLocation]
    renders it, resolved against the parsed server URL, with the given
    body and a single header, the content type. *)
Theorem NewUpdateSyncJobRequest_request server jobId contentType body req :
  NewUpdateSyncJobRequestWithBody server jobId contentType body = inr req ->
  exists pathParam0 serverURL queryURL,
    StyleParamWithLocation "simple" false "job_id" ParamLocationPath jobId
      = inr pathParam0
    /\ url_Parse server = inr serverURL
    /\ URL_Parse serverURL ("./jobs/" +:+ pathParam0) = inr queryURL
    /\ req = Request.mk "PUT" (URL_String queryURL)
               {["Content-Type" := [contentType]]} body
    /\ Header_Get (Request.Header req) "Content-Type" = contentType.
Proof.
  unfold NewUpdateSyncJobRequestWithBody.
  destruct (StyleParamWithLocation _ _ _ _ _) as [e | pathParam0];
    [discriminate |].
  destruct (url_Parse server) as [e | serverURL]; [discriminate |].
  change (relativePath ("/jobs/" +:+ pathParam0))
    with ("./jobs/" +:+ pathParam0).
  destruct (URL_Parse serverURL _) as [e | queryURL] eqn:Hq; [discriminate |].
  unfold http_NewRequest.
  destruct (http_NewRequest_check _ _); [discriminate |].
  intros [= <-]. exists pathParam0, serverURL, queryURL.
  split; [reflexivity |]. split; [reflexivity |]. split; [exact Hq |].
  unfold addContentType. cbn [Request.Header Request.Method Request.URL
                                Request.Body].
  rewrite Header_Add_empty. split; [reflexivity |].
  cbn [Request.Header]. apply Header_Get_singleton.
Qed.

End PipelineFacts.

Example relativePath_jobs :
  syncv1.relativePath "/jobs" = "./jobs"
  /\ syncv1.relativePath "jobs" = "jobs".
Proof. split; reflexivity. Qed.

Lemma calls_send_once_witness :
  exists c req,
    @syncv1.NewClient syncv1.Example.library "https://sync.example.com/api"
      [syncv1.WithHTTPClient (Some syncv1.Example.doer_created);
       syncv1.WithRequestEditorFn syncv1.Example.authorize] = inr c
    /\ @syncv1.CreateSyncJobWithBody syncv1.Example.library c
         "application/json" [] nil_slice
       = Some (inr syncv1.Example.created, [req])
    /\ syncv1.Request.URL req = "https://sync.example.com/api/./jobs".
Proof.
  eexists. eexists. split; [reflexivity |].
  destruct (@calls_send_once syncv1.Example.library
              "https://sync.example.com/api"
              [syncv1.WithHTTPClient (Some syncv1.Example.doer_created);
               syncv1.WithRequestEditorFn syncv1.Example.authorize]
              _ eq_refl) as (doer & _ & Hcreate & _).
  destruct (Hcreate "application/json" [] nil_slice) as (res & sent & Hcall & _).
  split; [reflexivity | reflexivity].
Defined.

Lemma NewUpdateSyncJobRequest_request_witness :
  exists req,
    @syncv1.NewUpdateSyncJobRequestWithBody syncv1.Example.library
      "https://sync.example.com/" "job-7" "application/json" [] = inr req
    /\ syncv1.Request.Method req = "PUT"
    /\ syncv1.Request.URL req = "https://sync.example.com/./jobs/job-7".
Proof.
  eexists. split; [reflexivity |].
  destruct (@NewUpdateSyncJobRequest_request syncv1.Example.library
              "https://sync.example.com/" "job-7" "application/json" [] _ eq_refl)
    as (p & serverURL & queryURL & Hp & Hs & Hq & Hreq & _).
  split; reflexivity.
Defined.

(** ** Parsing responses *)

Section ParseFacts.
Import syncv1.
Context `{!Library}.

Lemma isJSON_spec rsp code :
  isJSON rsp code = true <->
  Contains (Header_Get (Response.Header rsp) "Content-Type") "json" = true
  /\ Response.StatusCode rsp = code.
Proof. unfold isJSON. now rewrite andb_true_iff, Z.eqb_eq. Qed.

Lemma isJSON_exclusive rsp code code' :
  isJSON rsp code = true -> code' <> code -> isJSON rsp code' = false.
Proof.
  intros H1 Hne. apply isJSON_spec in H1. destruct H1 as [_ Hc].
  destruct (isJSON rsp code') eqn:H2; [| reflexivity].
  apply isJSON_spec in H2. destruct H2 as [_ Hc']. congruence.
Qed.

(** The cases of a parser: the body read, the [case] that matched if any,
    and what its [json.Unmarshal] gave. *)
Ltac parse_cases rsp :=
  let e := fresh "e" in
  let b := fresh "b" in
  destruct (Response.Body rsp) as [e | b] eqn:Hbody; [discriminate |];
  repeat match goal with
    | |- context [if isJSON rsp ?k then _ else _] =>
        let Hk := fresh "Hk" in
        destruct (isJSON rsp k) eqn:Hk;
        [ apply isJSON_spec in Hk; destruct Hk as [Hjson Hcode] | ]
    end;
  repeat match goal with
    | |- context [json_Unmarshal_AnyJobResponse ?b] =>
        let Hu := fresh "Hu" in
        destruct (json_Unmarshal_AnyJobResponse b) eqn:Hu; [discriminate |]
    | |- context [json_Unmarshal_ApiError ?b] =>
        let Hu := fresh "Hu" in
        destruct (json_Unmarshal_ApiError b) eqn:Hu; [discriminate |]
    end.

(** X27. A parsed CreateSyncJob response keeps the body read and the HTTP
    response, so its [Status()] and [StatusCode()] are those of the HTTP
    response.  A typed field is set exactly when the content type contains
    ["json"], the status code is the one of the field (201, 403, 429 or
    500) and the body unmarshals to the value: at most one field is set,
    and none for another content type or status code. *)
Theorem ParseCreateSyncJobResponse_fields rsp r :
  ParseCreateSyncJobResponse rsp = inr r ->
  let json :=
    Contains (Header_Get (Response.Header rsp) "Content-Type") "json" in
  let code := Response.StatusCode rsp in
  let body := CreateSyncJobResponse.Body r in
  Response.Body rsp = inr body
  /\ CreateSyncJobResponse.HTTPResponse r = Some rsp
  /\ CreateSyncJobResponse_Status r = Response.Status rsp
  /\ CreateSyncJobResponse_StatusCode r = Response.StatusCode rsp
  /\ (forall d, CreateSyncJobResponse.JSON201 r = Some d <->
        json = true /\ code = 201 /\ json_Unmarshal_AnyJobResponse body = inr d)
  /\ (forall d, CreateSyncJobResponse.JSON403 r = Some d <->
        json = true /\ code = 403 /\ json_Unmarshal_ApiError body = inr d)
  /\ (forall d, CreateSyncJobResponse.JSON429 r = Some d <->
        json = true /\ code = 429 /\ json_Unmarshal_ApiError body = inr d)
  /\ (forall d, CreateSyncJobResponse.JSON500 r = Some d <->
        json = true /\ code = 500 /\ json_Unmarshal_ApiError body = inr d).
Proof.
  intros Hparse. cbv zeta. revert Hparse. unfold ParseCreateSyncJobResponse.
  parse_cases rsp; intros [= <-]; simpl;
    (split; [reflexivity |]); (split; [reflexivity |]);
    (split; [reflexivity |]); (split; [reflexivity |]).
  all: repeat match goal with |- _ /\ _ => split end.
  all: intros d; split; [intros Hd | intros (Hj' & Hc' & Hu')].
  all: try discriminate Hd.
  all: try congruence.
  all: try (injection Hd as <-; repeat split; assumption).
  all: exfalso; unfold isJSON in *; rewrite Hj', Hc' in *; simpl in *;
    discriminate.
Qed.

(** X28. A parsed UpdateSyncJob response keeps the body read and the HTTP
    response.  Its success field is the one of status 200 (a 201 sets no
    field); a typed field is set exactly when the content type contains
    ["json"], the status code is the one of the field (200, 403, 429 or
    500) and the body unmarshals to the value. *)
Theorem ParseUpdateSyncJobResponse_fields rsp r :
  ParseUpdateSyncJobResponse rsp = inr r ->
  let json :=
    Contains (Header_Get (Response.Header rsp) "Content-Type") "json" in
  let code := Response.StatusCode rsp in
  let body := UpdateSyncJobResponse.Body r in
  Response.Body rsp = inr body
  /\ UpdateSyncJobResponse.HTTPResponse r = Some rsp
  /\ UpdateSyncJobResponse_Status r = Response.Status rsp
  /\ UpdateSyncJobResponse_StatusCode r = Response.StatusCode rsp
  /\ (forall d, UpdateSyncJobResponse.JSON200 r = Some d <->
        json = true /\ code = 200 /\ json_Unmarshal_AnyJobResponse body = inr d)
  /\ (forall d, UpdateSyncJobResponse.JSON403 r = Some d <->
        json = true /\ code = 403 /\ json_Unmarshal_ApiError body = inr d)
  /\ (forall d, UpdateSyncJobResponse.JSON429 r = Some d <->
        json = true /\ code = 429 /\ json_Unmarshal_ApiError body = inr d)
  /\ (forall d, UpdateSyncJobResponse.JSON500 r = Some d <->
        json = true /\ code = 500 /\ json_Unmarshal_ApiError body = inr d).
Proof.
  intros Hparse. cbv zeta. revert Hparse. unfold ParseUpdateSyncJobResponse.
  parse_cases rsp; intros [= <-]; simpl;
    (split; [reflexivity |]); (split; [reflexivity |]);
    (split; [reflexivity |]); (split; [reflexivity |]).
  all: repeat match goal with |- _ /\ _ => split end.
  all: intros d; split; [intros Hd | intros (Hj' & Hc' & Hu')].
  all: try discriminate Hd.
  all: try congruence.
  all: try (injection Hd as <-; repeat split; assumption).
  all: exfalso; unfold isJSON in *; rewrite Hj', Hc' in *; simpl in *;
    discriminate.
Qed.

Ltac parse_error_cases rsp :=
  let e0 := fresh "e0" in
  let b := fresh "b" in
  destruct (Response.Body rsp) as [e0 | b] eqn:Hbody;
  [ split;
    [ intros [= <-]; now left
    | intros [Hb | (b' & Hb & _)]; congruence ]
  | ];
  repeat match goal with
    | |- context [if isJSON rsp ?k then _ else _] =>
        let Hk := fresh "Hk" in
        destruct (isJSON rsp k) eqn:Hk;
        [ apply isJSON_spec in Hk; destruct Hk as [Hjson Hcode] | ]
    end;
  repeat match goal with
    | |- context [json_Unmarshal_AnyJobResponse ?b] =>
        let Hu := fresh "Hu" in
        destruct (json_Unmarshal_AnyJobResponse b) eqn:Hu
    | |- context [json_Unmarshal_ApiError ?b] =>
        let Hu := fresh "Hu" in
        destruct (json_Unmarshal_ApiError b) eqn:Hu
    end.

(** X29. The parsers fail in two ways only, with the error met: the body
    cannot be read; or the content type contains ["json"], the status code
    is one the operation documents and the body does not unmarshal to the
    type of that status.  A response of another content type or status
    code whose body can be read always parses. *)
Theorem Parse_errors rsp e :
  let json :=
    Contains (Header_Get (Response.Header rsp) "Content-Type") "json" in
  let code := Response.StatusCode rsp in
  (ParseCreateSyncJobResponse rsp = inl e <->
     Response.Body rsp = inl e
     \/ exists b,
          Response.Body rsp = inr b /\ json = true
          /\ ((code = 201 /\ json_Unmarshal_AnyJobResponse b = inl e)
              \/ ((code = 403 \/ code = 429 \/ code = 500)
                  /\ json_Unmarshal_ApiError b = inl e)))
  /\ (ParseUpdateSyncJobResponse rsp = inl e <->
        Response.Body rsp = inl e
        \/ exists b,
             Response.Body rsp = inr b /\ json = true
             /\ ((code = 200 /\ json_Unmarshal_AnyJobResponse b = inl e)
                 \/ ((code = 403 \/ code = 429 \/ code = 500)
                     /\ json_Unmarshal_ApiError b = inl e))).
Proof.
  cbv zeta. split.
  - unfold ParseCreateSyncJobResponse. parse_error_cases rsp.
    all: split;
      [ intros Hp;
        first [ discriminate Hp
              | injection Hp as <-; right;
                eexists; split; [reflexivity |]; split; [assumption |];
                first [ left; split; assumption
                      | right; split; [tauto | assumption] ] ]
      | intros [Hb | (b' & Hb & Hj' & Hcases)]; [discriminate Hb |];
        injection Hb as <-;
        try (exfalso; unfold isJSON in *; rewrite Hj' in *; simpl in *;
             destruct Hcases as [[Hc' _] | [[Hc' | [Hc' | Hc']] _]];
             rewrite Hc' in *; simpl in *; discriminate);
        destruct Hcases as [[Hc' Hu'] | [[Hc' | [Hc' | Hc']] Hu']];
        first [congruence | lia] ].
  - unfold ParseUpdateSyncJobResponse. parse_error_cases rsp.
    all: split;
      [ intros Hp;
        first [ discriminate Hp
              | injection Hp as <-; right;
                eexists; split; [reflexivity |]; split; [assumption |];
                first [ left; split; assumption
                      | right; split; [tauto | assumption] ] ]
      | intros [Hb | (b' & Hb & Hj' & Hcases)]; [discriminate Hb |];
        injection Hb as <-;
        try (exfalso; unfold isJSON in *; rewrite Hj' in *; simpl in *;
             destruct Hcases as [[Hc' _] | [[Hc' | [Hc' | Hc']] _]];
             rewrite Hc' in *; simpl in *; discriminate);
        destruct Hcases as [[Hc' Hu'] | [[Hc' | [Hc' | Hc']] Hu']];
        first [congruence | lia] ].
Qed.

End ParseFacts.

Lemma ParseCreateSyncJobResponse_fields_witness :
  exists r,
    @syncv1.ParseCreateSyncJobResponse syncv1.Example.library
      syncv1.Example.created = inr r
    /\ syncv1.CreateSyncJobResponse.JSON201 r = Some []
    /\ @syncv1.CreateSyncJobResponse_StatusCode syncv1.Example.library r = 201.
Proof.
  eexists. split; [reflexivity |].
  destruct (@ParseCreateSyncJobResponse_fields syncv1.Example.library
              syncv1.Example.created _ eq_refl)
    as (_ & _ & _ & Hcode & H201 & _).
  split; [| exact Hcode].
  apply H201. repeat split.
Defined.

Lemma ParseUpdateSyncJobResponse_fields_witness :
  exists r,
    @syncv1.ParseUpdateSyncJobResponse syncv1.Example.library
      syncv1.Example.created = inr r
    /\ syncv1.UpdateSyncJobResponse.HTTPResponse r = Some syncv1.Example.created
    /\ syncv1.UpdateSyncJobResponse.JSON200 r = None.
Proof.
  eexists. split; [reflexivity |].
  destruct (@ParseUpdateSyncJobResponse_fields syncv1.Example.library
              syncv1.Example.created _ eq_refl)
    as (_ & Hrsp & _).
  split; [exact Hrsp | reflexivity].
Defined.
